(** * A shallow embedding of the Bitcoin Core wallet handler

    Source: [src/wallets/bitcoin_core_wallet.cpp], with the declarations of
    [include/wallets/bitcoin_core_wallet.h] and [include/wallets/wallet_base.h].

    Conventions of the embedding:
    - [std::vector<uint8_t>] is [list byte]; [std::string] is [string];
    - [std::map<std::string, T>] is an association list kept in the order
      in which the C++ container iterates (ascending keys);
    - member functions that mutate the object take the object and return
      the new one (explicit state passing);
    - reference parameters used as outputs are returned;
    - a call that an exception can leave gives an [exit]: the value it
      returns, or [Thrown];
    - the libraries the program links against (OpenSSL, libcurl, jsoncpp,
      the file system) are interfaces: classes whose fields are the calls
      the program makes;
    - calls to [Logger] have no effect on the object and are left out. *)

From Stdlib Require Import ZArith String Ascii Bool Lia Arith List Sorted.
From Stdlib.Strings Require Import Byte.
From Stdlib Require Import DecimalString.
From Stdlib Require DecimalNat DecimalFacts.
Import ListNotations.

Local Open Scope Z_scope.

(* ===================================================================== *)
(** * Part I: definitions *)
(* ===================================================================== *)

(** ** Bytes and machine integers *)

Definition byte_to_Z (b : byte) : Z := Z.of_N (Byte.to_N b).

Definition byte_of_Z (z : Z) : byte :=
  match Byte.of_N (Z.to_N (z mod 256)) with
  | Some b => b
  | None => x00
  end.

(** The value an [int] holds after an arithmetic result [z] is stored in
    it (32 bits, two's complement). *)
Definition to_int (z : Z) : Z := (z + 2 ^ 31) mod 2 ^ 32 - 2 ^ 31.

(** The value a [uint8_t] holds after [z] is stored in it. *)
Definition to_uint8 (z : Z) : Z := z mod 256.

Definition INT_MAX : Z := 2 ^ 31 - 1.

(** [data.begin() + from, data.begin() + to)]. *)
Definition slice (data : list byte) (from to : nat) : list byte :=
  firstn (to - from) (skipn from data).

(** ** Positional numerals

    Digit lists in a radix [B], used to say what the base-58 conversion
    computes. *)

Section Radix.

Variable B : Z.

(** Least significant digit first. *)
Fixpoint value_le (ds : list Z) : Z :=
  match ds with
  | [] => 0
  | d :: rest => d + B * value_le rest
  end.

(** Most significant digit first. *)
Definition value_be (ds : list Z) : Z :=
  fold_left (fun acc d => acc * B + d) ds 0.

Definition is_digit (d : Z) : Prop := 0 <= d < B.

(** The numeral of [n], least significant digit first, without zeros at
    its most significant end; [fuel] bounds the number of digits. *)
Fixpoint digits_le (fuel : nat) (n : Z) : list Z :=
  match fuel with
  | O => []
  | S fuel' => if 0 <? n then n mod B :: digits_le fuel' (n / B) else []
  end.

(** A digit list is canonical when its most significant digit is not
    zero; the empty list is the canonical numeral of zero. *)
Definition canonical_le (ds : list Z) : Prop := last ds 1 <> 0.

End Radix.

(** Enough fuel for [digits_le] in any radix above one. *)
Definition digits_fuel (n : Z) : nat := S (Z.to_nat (Z.log2 n)).

(** ** Base58 ([BitcoinCoreWallet::base58_encode]) *)

Definition base58_alphabet : string :=
  "123456789ABCDEFGHJKLMNPQRSTUVWXYZabcdefghijkmnopqrstuvwxyz".

(** [base58_alphabet[d]] *)
Definition base58_char (d : Z) : ascii :=
  nth (Z.to_nat d) (list_ascii_of_string base58_alphabet) Ascii.zero.

(** The first loop: the number of zero bytes before the first non-zero
    one (an [int] in the source, counting bytes of the vector). *)
Fixpoint leading_zeros (data : list byte) : nat :=
  match data with
  | x00 :: rest => S (leading_zeros rest)
  | _ => O
  end.

(** The loop over [j]:
    [carry += digits[j] * 256; digits[j] = carry % 58; carry /= 58],
    with [int carry] and [uint8_t digits[j]]. Returns the new digits and
    the carry left at the end. *)
Fixpoint base58_carry_loop (digits : list Z) (carry : Z) : list Z * Z :=
  match digits with
  | [] => ([], carry)
  | d :: rest =>
      let carry1 := to_int (carry + to_int (d * 256)) in
      let d' := to_uint8 (Z.rem carry1 58) in
      let carry2 := Z.quot carry1 58 in
      let (rest', carry3) := base58_carry_loop rest carry2 in
      (d' :: rest', carry3)
  end.

(** [while (carry > 0) { digits.push_back(carry % 58); carry /= 58; }]:
    the digits pushed. An [int] is below [58 ^ 6], so six rounds are
    enough for any carry ([base58_push_loop_fuel]). *)
Fixpoint base58_push_loop (fuel : nat) (carry : Z) : list Z :=
  match fuel with
  | O => []
  | S fuel' =>
      if 0 <? carry
      then to_uint8 (Z.rem carry 58) :: base58_push_loop fuel' (Z.quot carry 58)
      else []
  end.

(** One round of the loop over [i]. *)
Definition base58_step (digits : list Z) (b : byte) : list Z :=
  let (digits', carry) := base58_carry_loop digits (byte_to_Z b) in
  digits' ++ base58_push_loop 6 carry.

Definition base58_digits (data : list byte) : list Z :=
  fold_left base58_step (skipn (leading_zeros data) data) [].

Definition base58_encode (data : list byte) : string :=
  string_of_list_ascii
    (repeat "1"%char (leading_zeros data)
     ++ map base58_char (rev (base58_digits data))).

(** The number of characters equal to [c] at the start of [s]. *)
Fixpoint count_leading (c : ascii) (s : list ascii) : nat :=
  match s with
  | x :: rest => if Ascii.eqb x c then S (count_leading c rest) else O
  | [] => O
  end.

(** ** Decoding, as the specification describes it

    The program only encodes. The definitions below follow the
    specification's description of the formats, and are what the
    round-trip property is stated against. *)

(** The position of a character in the alphabet. *)
Fixpoint index_of (c : ascii) (l : list ascii) (i : Z) : option Z :=
  match l with
  | [] => None
  | x :: rest => if Ascii.eqb c x then Some i else index_of c rest (i + 1)
  end.

Definition base58_index (c : ascii) : option Z :=
  index_of c (list_ascii_of_string base58_alphabet) 0.

Fixpoint base58_indices (s : list ascii) : option (list Z) :=
  match s with
  | [] => Some []
  | c :: rest =>
      match base58_index c, base58_indices rest with
      | Some d, Some ds => Some (d :: ds)
      | _, _ => None
      end
  end.

(** Modelled from the spec: the inverse of base58 (the repository has no
    decoder). Each leading ['1'] stands for a zero byte; the remaining
    characters are the digits, most significant first, of a number whose
    big-endian bytes follow the zeros. *)
Definition base58_decode (s : string) : option (list byte) :=
  let chars := list_ascii_of_string s in
  let zeros := count_leading "1"%char chars in
  match base58_indices (skipn zeros chars) with
  | Some ds =>
      let n := value_be 58 ds in
      Some (repeat x00 zeros
            ++ map byte_of_Z (rev (digits_le 256 (digits_fuel n) n)))
  | None => None
  end.

(** ** [std::map<std::string, V>]

    An association list in ascending key order, the order in which the
    C++ container is iterated. [std::string] compares byte by byte, as
    [String.compare] does. *)

Module StdMap.

Definition t (V : Type) : Type := list (string * V).

Definition empty {V : Type} : t V := [].

(** [m.find(k)] *)
Fixpoint find {V : Type} (k : string) (m : t V) : option V :=
  match m with
  | [] => None
  | (k', v) :: rest => if String.eqb k k' then Some v else find k rest
  end.

(** [m[k] = v]: inserts the key at its place, or overwrites its value. *)
Fixpoint assign {V : Type} (k : string) (v : V) (m : t V) : t V :=
  match m with
  | [] => [(k, v)]
  | (k', v') :: rest =>
      match String.compare k k' with
      | Lt => (k, v) :: m
      | Eq => (k, v) :: rest
      | Gt => (k', v') :: assign k v rest
      end
  end.

(** [m.size()] *)
Definition size {V : Type} (m : t V) : nat := length m.

(** [m.empty()] *)
Definition is_empty {V : Type} (m : t V) : bool :=
  match m with
  | [] => true
  | _ :: _ => false
  end.

(** [m[k]] read on a key that is present (the value-initialised [V] is
    what the C++ operator would insert and return otherwise). *)
Definition at_default {V : Type} (k : string) (m : t V) (default : V) : V :=
  match find k m with
  | Some v => v
  | None => default
  end.

End StdMap.

(** [std::to_string] on a [size_t]. *)
Definition to_string (n : nat) : string :=
  NilZero.string_of_uint (Nat.to_uint n).

(** The order a [std::map] keeps its entries in. *)
Definition keys_sorted {V : Type} (m : StdMap.t V) : Prop :=
  Sorted (fun a b => String.compare (fst a) (fst b) = Lt) m.

(** The keys of an encrypted-key registry are the decimal numbers below
    its size. *)
Definition numbered {V : Type} (m : StdMap.t V) : Prop :=
  forall k, StdMap.find k m <> None ->
            exists i, (i < StdMap.size m)%nat /\ k = to_string i.

(** ** The data model ([bitcoin_core_wallet.h]) *)

Record MasterKey : Type := {
  encrypted_key : list byte;
  salt : list byte;
  derive_iterations : Z;
  derive_method : Z;
  other_params : list byte
}.

Record CryptedKey : Type := {
  public_key : list byte;
  encrypted_private_key : list byte
}.

Record PrivateKeyInfo : Type := {
  address : string;
  private_key_hex : string;
  private_key_wif : string;
  public_key_hex : string;
  compressed : bool;
  label : string;
  balance_satoshis : Z;
  transaction_count : Z;
  has_balance : bool
}.

(** The object: the members of [WalletBase] the handler uses and those of
    [BitcoinCoreWallet]. *)
Record BitcoinCoreWallet : Type := {
  wallet_file_ : string;
  last_error_ : string;
  wallet_data_ : list byte;
  master_keys_ : StdMap.t MasterKey;
  crypted_keys_ : StdMap.t CryptedKey;
  key_labels_ : StdMap.t string;
  api_keys_ : StdMap.t string;
  api_endpoints_ : StdMap.t string;
  testnet_mode_ : bool;
  loaded_ : bool
}.

Definition set_error (error : string) (w : BitcoinCoreWallet) : BitcoinCoreWallet :=
  {| wallet_file_ := wallet_file_ w; last_error_ := error;
     wallet_data_ := wallet_data_ w; master_keys_ := master_keys_ w;
     crypted_keys_ := crypted_keys_ w; key_labels_ := key_labels_ w;
     api_keys_ := api_keys_ w; api_endpoints_ := api_endpoints_ w;
     testnet_mode_ := testnet_mode_ w; loaded_ := loaded_ w |}.

Definition set_wallet_data (data : list byte) (w : BitcoinCoreWallet) : BitcoinCoreWallet :=
  {| wallet_file_ := wallet_file_ w; last_error_ := last_error_ w;
     wallet_data_ := data; master_keys_ := master_keys_ w;
     crypted_keys_ := crypted_keys_ w; key_labels_ := key_labels_ w;
     api_keys_ := api_keys_ w; api_endpoints_ := api_endpoints_ w;
     testnet_mode_ := testnet_mode_ w; loaded_ := loaded_ w |}.

Definition set_master_keys (m : StdMap.t MasterKey) (w : BitcoinCoreWallet) : BitcoinCoreWallet :=
  {| wallet_file_ := wallet_file_ w; last_error_ := last_error_ w;
     wallet_data_ := wallet_data_ w; master_keys_ := m;
     crypted_keys_ := crypted_keys_ w; key_labels_ := key_labels_ w;
     api_keys_ := api_keys_ w; api_endpoints_ := api_endpoints_ w;
     testnet_mode_ := testnet_mode_ w; loaded_ := loaded_ w |}.

Definition set_crypted_keys (m : StdMap.t CryptedKey) (w : BitcoinCoreWallet) : BitcoinCoreWallet :=
  {| wallet_file_ := wallet_file_ w; last_error_ := last_error_ w;
     wallet_data_ := wallet_data_ w; master_keys_ := master_keys_ w;
     crypted_keys_ := m; key_labels_ := key_labels_ w;
     api_keys_ := api_keys_ w; api_endpoints_ := api_endpoints_ w;
     testnet_mode_ := testnet_mode_ w; loaded_ := loaded_ w |}.

Definition set_loaded (b : bool) (w : BitcoinCoreWallet) : BitcoinCoreWallet :=
  {| wallet_file_ := wallet_file_ w; last_error_ := last_error_ w;
     wallet_data_ := wallet_data_ w; master_keys_ := master_keys_ w;
     crypted_keys_ := crypted_keys_ w; key_labels_ := key_labels_ w;
     api_keys_ := api_keys_ w; api_endpoints_ := api_endpoints_ w;
     testnet_mode_ := testnet_mode_ w; loaded_ := b |}.

(** The constructor. *)
Definition new_BitcoinCoreWallet (wallet_file : string) : BitcoinCoreWallet :=
  {| wallet_file_ := wallet_file;
     last_error_ := EmptyString;
     wallet_data_ := [];
     master_keys_ := StdMap.empty;
     crypted_keys_ := StdMap.empty;
     key_labels_ := StdMap.empty;
     api_keys_ := StdMap.empty;
     api_endpoints_ :=
       (StdMap.assign "blockcypher_testnet" "https://api.blockcypher.com/v1/btc/test3"
          (StdMap.assign "blockstream_testnet" "https://blockstream.info/testnet/api"
             (StdMap.assign "blockcypher" "https://api.blockcypher.com/v1/btc/main"
                (StdMap.assign "blockchair" "https://api.blockchair.com/bitcoin"
                   (StdMap.assign "blockstream" "https://blockstream.info/api"
                      StdMap.empty)))))%string;
     testnet_mode_ := false;
     loaded_ := false |}.

(** ** The libraries the program calls *)

(** OpenSSL. Hash functions and the block cipher are functions of their
    input with outputs of the documented sizes; a call that can report
    failure returns [None] when it does. *)
Class OpenSSL : Type := {
  SHA256 : list byte -> list byte;
  SHA256_length : forall m, length (SHA256 m) = 32%nat;
  RIPEMD160 : list byte -> list byte;
  RIPEMD160_length : forall m, length (RIPEMD160 m) = 20%nat;
  (** [PKCS5_PBKDF2_HMAC(pass, salt, iter, EVP_sha512(), keylen, out)]:
      the [keylen] bytes written to [out], or [None] when the call does
      not return 1. *)
  PKCS5_PBKDF2_HMAC_SHA512 : string -> list byte -> Z -> nat -> option (list byte);
  PKCS5_PBKDF2_HMAC_length :
    forall pass salt iter keylen out,
      PKCS5_PBKDF2_HMAC_SHA512 pass salt iter keylen = Some out ->
      length out = keylen;
  (** AES-256 decryption of one 16-byte block under a 32-byte key. *)
  AES_256_decrypt_block : list byte -> list byte -> list byte;
  AES_256_decrypt_block_length :
    forall key block, length (AES_256_decrypt_block key block) = 16%nat;
  (** The uncompressed encoding of the secp256k1 public point of a
      32-byte scalar ([BN_bin2bn], [EC_POINT_mul], [EC_POINT_point2oct]),
      or [None] when one of the calls fails. *)
  EC_secp256k1_public_key : list byte -> option (list byte)
}.

(** The file system, as the two members of [WalletBase] see it (their
    bodies are not part of the sources at hand). *)
Record FileSystem : Type := {
  verify_file_access : string -> bool;
  read_file : string -> list byte
}.

(** How a call ends: it returns a value, or an exception leaves it.
    Nothing in [bitcoin_core_wallet.cpp] catches an exception. *)
Inductive exit (A : Type) : Type :=
| Returned (a : A)
| Thrown.

Arguments Returned {A} a.
Arguments Thrown {A}.

(** [enum Json::ValueType] *)
Inductive ValueType : Type :=
| nullValue | intValue | uintValue | realValue
| stringValue | booleanValue | arrayValue | objectValue.

(** The values that can be asked for a member: objects, and null, which
    has none. *)
Definition keyed (t : ValueType) : bool :=
  match t with
  | nullValue | objectValue => true
  | _ => false
  end.

(** jsoncpp: [Json::Reader::parse] and the accessors of [Json::Value]
    the program uses. [Json::Reader] with its default features takes a
    document with any value at its root. An accessor gives [None] when
    it throws [Json::LogicError]: [isMember] and [operator[]] with a
    string do so on a value that is neither an object nor null, [asUInt64]
    and [asInt] on a value that cannot be converted. *)
Class JsonCpp : Type := {
  Json_Value : Type;
  Json_type : Json_Value -> ValueType;
  Json_parse : string -> option Json_Value;
  Json_isMember : Json_Value -> string -> option bool;
  Json_get : Json_Value -> string -> option Json_Value;
  Json_asUInt64 : Json_Value -> option Z;
  Json_asInt : Json_Value -> option Z;
  Json_isMember_keyed :
    forall v key, Json_isMember v key = None <-> keyed (Json_type v) = false;
  Json_get_keyed :
    forall v key, Json_get v key = None <-> keyed (Json_type v) = false
}.

(** What one transfer gave: [curl_easy_perform]'s return value is
    [CURLE_OK], the response code, the body collected by
    [WriteCallback]. *)
Record HttpResult : Type := {
  res_ok : bool;
  response_code : Z;
  response_body : string
}.

(** libcurl and the clock. The outside world is a state that each call
    may change: the same URL can answer differently the next time.
    [curl_transfer] is a whole transfer from [curl_easy_init] to
    [curl_easy_cleanup]; it gives [None] when [curl_easy_init] returns a
    null handle. *)
Class Network : Type := {
  World : Type;
  curl_transfer : string -> World -> option HttpResult * World;
  sleep_for_milliseconds : Z -> World -> World
}.

(** ** The EVP decryption calls

    [EVP_aes_256_cbc()] with padding enabled (the default), written over
    the block primitive: what [EVP_DecryptInit_ex], [EVP_DecryptUpdate]
    and [EVP_DecryptFinal_ex] do with the context. *)

Definition xor_byte (a b : byte) : byte :=
  byte_of_Z (Z.lxor (byte_to_Z a) (byte_to_Z b)).

Fixpoint xor_bytes (a b : list byte) : list byte :=
  match a, b with
  | x :: a', y :: b' => xor_byte x y :: xor_bytes a' b'
  | _, _ => []
  end.

Record EVP_CIPHER_CTX : Type := {
  ctx_key : list byte;
  (** the chaining value: the IV, then the last ciphertext block *)
  ctx_iv : list byte;
  (** input bytes that do not fill a block yet *)
  ctx_buf : list byte;
  (** the last decrypted block, held back for the padding check *)
  ctx_final : option (list byte)
}.

(** Equality of two byte strings. *)
Fixpoint forallb2_eq (a b : list byte) : bool :=
  match a, b with
  | [], [] => true
  | x :: a', y :: b' => Byte.eqb x y && forallb2_eq a' b'
  | _, _ => false
  end.

(** The value of [size_t] arithmetic (64 bits). *)
Definition to_size_t (z : Z) : Z := z mod 2 ^ 64.

Section Crypto.

Context {ssl : OpenSSL}.

(** Reads 32 key bytes and 16 IV bytes from the two pointers. *)
Definition EVP_DecryptInit_ex (key iv : list byte) : EVP_CIPHER_CTX :=
  {| ctx_key := firstn 32 key; ctx_iv := firstn 16 iv;
     ctx_buf := []; ctx_final := None |}.

(** CBC decryption of [nblocks] whole blocks of [data]: the plaintext and
    the next chaining value. *)
Fixpoint cbc_decrypt_blocks (nblocks : nat) (key iv data : list byte)
  : list byte * list byte :=
  match nblocks with
  | O => ([], iv)
  | S n =>
      let c := firstn 16 data in
      let p := xor_bytes (AES_256_decrypt_block key c) iv in
      let (ps, iv') := cbc_decrypt_blocks n key c (skipn 16 data) in
      (p ++ ps, iv')
  end.

(** [EVP_DecryptUpdate(ctx, out, &outl, in, inl)]: [None] when it returns
    0, else the new context and the [outl] bytes written to [out]. A
    non-positive [inl] writes nothing and succeeds only when it is zero.
    When the input ends on a block boundary the last decrypted block is
    kept in the context instead of being written. *)
Definition EVP_DecryptUpdate (ctx : EVP_CIPHER_CTX) (input : list byte) (inl : Z)
  : option (EVP_CIPHER_CTX * list byte) :=
  if inl <? 0 then None
  else if inl =? 0 then Some (ctx, [])
  else
    let data := ctx_buf ctx ++ firstn (Z.to_nat inl) input in
    let n := (length data / 16)%nat in
    let (plain, iv') := cbc_decrypt_blocks n (ctx_key ctx) (ctx_iv ctx) data in
    let rest := skipn (16 * n) data in
    let held := match ctx_final ctx with Some f => f | None => [] end in
    match rest with
    | [] =>
        Some ({| ctx_key := ctx_key ctx; ctx_iv := iv'; ctx_buf := [];
                 ctx_final := Some (skipn (16 * (n - 1)) plain) |},
              held ++ firstn (16 * (n - 1)) plain)
    | _ :: _ =>
        Some ({| ctx_key := ctx_key ctx; ctx_iv := iv'; ctx_buf := rest;
                 ctx_final := None |},
              held ++ plain)
    end.

(** [EVP_DecryptFinal_ex(ctx, out, &outl)]: fails on a partial block or
    when no block was held back; else checks the padding of the held
    block (its last byte [n] is between 1 and 16 and its last [n] bytes
    all equal [n]) and writes the block without it. *)
Definition EVP_DecryptFinal_ex (ctx : EVP_CIPHER_CTX) : option (list byte) :=
  match ctx_buf ctx, ctx_final ctx with
  | [], Some final =>
      let n := byte_to_Z (nth 15 final x00) in
      if (n =? 0) || (16 <? n) then None
      else if forallb (fun x => byte_to_Z x =? n) (skipn (16 - Z.to_nat n) final)
           then Some (firstn (16 - Z.to_nat n) final)
           else None
  | _, _ => None
  end.

(** ** Key derivation and decryption *)

(** [BitcoinCoreWallet::derive_key]: a 32-byte vector filled by PBKDF2,
    cleared when the call fails. [iterations] is a [uint32_t] passed as
    an [int]. *)
Definition derive_key (password : string) (salt : list byte) (iterations : Z)
  : list byte :=
  match PKCS5_PBKDF2_HMAC_SHA512 password salt (to_int iterations) 32 with
  | Some derived_key => derived_key
  | None => []
  end.

(** [BitcoinCoreWallet::decrypt_master_key]: [Some decrypted_key] when it
    returns true. The IV pointer is the start of the encrypted blob, the
    input pointer is 16 bytes further, and the input length is
    [size() - 16] computed in [size_t] and passed as an [int]. *)
Definition decrypt_master_key (password : string) (master_key : MasterKey)
  : option (list byte) :=
  let derived_key :=
    derive_key password (salt master_key) (derive_iterations master_key) in
  if negb (length derived_key =? 32)%nat then None
  else
    let ctx := EVP_DecryptInit_ex derived_key (encrypted_key master_key) in
    let inl :=
      to_int (to_size_t (Z.of_nat (length (encrypted_key master_key)) - 16)) in
    match EVP_DecryptUpdate ctx (skipn 16 (encrypted_key master_key)) inl with
    | Some (ctx', out) =>
        match EVP_DecryptFinal_ex ctx' with
        | Some out_final => Some (out ++ out_final)
        | None => None
        end
    | None => None
    end.

(** [BitcoinCoreWallet::decrypt_private_key] *)
Definition decrypt_private_key (master_key : list byte) (crypted_key : CryptedKey)
  : option (list byte) :=
  if negb (length master_key =? 32)%nat
     || (length (encrypted_private_key crypted_key) <? 16)%nat
  then None
  else
    let iv := encrypted_private_key crypted_key in
    let encrypted_data := skipn 16 (encrypted_private_key crypted_key) in
    let encrypted_len :=
      to_int (to_size_t
                (Z.of_nat (length (encrypted_private_key crypted_key)) - 16)) in
    let ctx := EVP_DecryptInit_ex master_key iv in
    match EVP_DecryptUpdate ctx encrypted_data encrypted_len with
    | Some (ctx', out) =>
        match EVP_DecryptFinal_ex ctx' with
        | Some out_final => Some (out ++ out_final)
        | None => None
        end
    | None => None
    end.

(** ** Key formats *)

(** [BitcoinCoreWallet::private_key_to_wif] *)
Definition private_key_to_wif (testnet_mode : bool) (private_key : list byte)
  (compressed : bool) : string :=
  if negb (length private_key =? 32)%nat then EmptyString
  else
    let wif_data :=
      [if testnet_mode then xef else x80]
      ++ private_key
      ++ (if compressed then [x01] else []) in
    let hash1 := SHA256 wif_data in
    let hash2 := SHA256 hash1 in
    base58_encode (wif_data ++ firstn 4 hash2).

(** [BitcoinCoreWallet::public_key_to_address] *)
Definition public_key_to_address (testnet_mode : bool) (public_key : list byte)
  (compressed : bool) : string :=
  match public_key with
  | [] => EmptyString
  | _ :: _ =>
      let pub_key :=
        if compressed && (length public_key =? 65)%nat
        then (if Z.rem (byte_to_Z (nth 64 public_key x00)) 2 =? 0
              then x02 else x03)
             :: skipn 1 (firstn 33 public_key)
        else public_key in
      let sha256_hash := SHA256 pub_key in
      let ripemd160_hash := RIPEMD160 sha256_hash in
      let address_data :=
        [if testnet_mode then x6f else x00] ++ firstn 20 ripemd160_hash in
      let hash1 := SHA256 address_data in
      let hash2 := SHA256 hash1 in
      base58_encode (address_data ++ firstn 4 hash2)
  end.

(** [BitcoinCoreWallet::private_key_to_public_key] *)
Definition private_key_to_public_key (private_key : list byte) : list byte :=
  if negb (length private_key =? 32)%nat then []
  else
    match EC_secp256k1_public_key private_key with
    | Some public_key => public_key
    | None => []
    end.

(** ** The decryption and the WIF format, as the specification words them *)

(** CBC decryption of a whole ciphertext under [key] and [iv]; a
    ciphertext that is not a number of whole blocks has no decryption. *)
Definition cbc_decrypt (key iv ciphertext : list byte) : option (list byte) :=
  if (length ciphertext mod 16 =? 0)%nat
  then Some (fst (cbc_decrypt_blocks (length ciphertext / 16) key iv ciphertext))
  else None.

(** Padding removal: the plaintext is a positive number of whole blocks,
    its last byte [n] is between 1 and 16, and its last [n] bytes all
    equal [n]; they are taken off. *)
Definition remove_padding (decrypted : option (list byte)) : option (list byte) :=
  match decrypted with
  | None => None
  | Some plain =>
  let len := length plain in
  if (len =? 0)%nat || negb (len mod 16 =? 0)%nat then None
  else
    let n := Z.to_nat (byte_to_Z (last plain x00)) in
    if (n =? 0)%nat || (16 <? n)%nat then None
    else if forallb (fun x => Byte.eqb x (last plain x00)) (skipn (len - n) plain)
         then Some (firstn (len - n) plain)
         else None
  end.

(** Specification (section 4.2), the function the embedded
    [decrypt_master_key] is compared with: derive the key, decrypt in CBC
    mode with the first 16 bytes of the blob as IV and the remainder as
    ciphertext, succeed when the padding can be removed. *)
Definition decrypt_master_key_spec (password : string) (record : MasterKey)
  : option (list byte) :=
  match PKCS5_PBKDF2_HMAC_SHA512 password (salt record)
          (derive_iterations record) 32 with
  | Some key =>
      let iv := firstn 16 (encrypted_key record) in
      let ciphertext := skipn 16 (encrypted_key record) in
      remove_padding (cbc_decrypt key iv ciphertext)
  | None => None
  end.

(** Modelled from the spec: [base58check] decoding (the repository has no
    decoder). The trailing 4 bytes must be the first 4 bytes of the double
    SHA-256 of what precedes them. *)
Definition base58check_decode (s : string) : option (list byte) :=
  match base58_decode s with
  | Some raw =>
      let payload := firstn (length raw - 4) raw in
      let checksum := skipn (length raw - 4) raw in
      if (4 <=? length raw)%nat
         && forallb2_eq checksum (firstn 4 (SHA256 (SHA256 payload)))
      then Some payload
      else None
  | None => None
  end.

(** Modelled from the spec: WIF decoding. The payload is a version byte,
    32 key bytes, and a byte [0x01] exactly when the key is compressed.
    Returns the version byte, the key and the compression flag. *)
Definition wif_decode (s : string) : option (byte * list byte * bool) :=
  match base58check_decode s with
  | Some (version :: body) =>
      if (length body =? 32)%nat then Some (version, body, false)
      else if (length body =? 33)%nat
              && Byte.eqb (nth 32 body x00) x01
           then Some (version, firstn 32 body, true)
           else None
  | _ => None
  end.

End Crypto.

(** ** The container parser *)

(** [sizeof(BDBHeader)]: four [uint32_t]. *)
Definition sizeof_BDBHeader : nat := 16.

(** [*reinterpret_cast<const uint32_t*>(data)] on a little-endian host. *)
Definition read_uint32 (data : list byte) : Z :=
  byte_to_Z (nth 0 data x00)
  + 2 ^ 8 * byte_to_Z (nth 1 data x00)
  + 2 ^ 16 * byte_to_Z (nth 2 data x00)
  + 2 ^ 24 * byte_to_Z (nth 3 data x00).

(** The test on the magic number in [parse_bdb_file]. *)
Definition valid_magic (data : list byte) : bool :=
  (read_uint32 data =? 0x00061561) || (read_uint32 data =? 0x61150600).

(** [data[i] == c0 && data[i+1] == c1 && data[i+2] == c2 && data[i+3] == c3] *)
Definition marker_at (data : list byte) (i : nat) (c0 c1 c2 c3 : ascii) : bool :=
  Byte.eqb (nth i data x00) (byte_of_ascii c0)
  && Byte.eqb (nth (i + 1) data x00) (byte_of_ascii c1)
  && Byte.eqb (nth (i + 2) data x00) (byte_of_ascii c2)
  && Byte.eqb (nth (i + 3) data x00) (byte_of_ascii c3).

(** The master-key record read at [key_start]. *)
Definition master_key_at (data : list byte) (key_start : nat) : MasterKey :=
  {| salt := slice data key_start (key_start + 8);
     encrypted_key := slice data (key_start + 8) (key_start + 56);
     derive_iterations := 25000;
     derive_method := 0;
     other_params := [] |}.

(** The encrypted-key record read at [key_start]. *)
Definition crypted_key_at (data : list byte) (key_start : nat) : CryptedKey :=
  {| public_key := slice data key_start (key_start + 33);
     encrypted_private_key := slice data (key_start + 33) (key_start + 81) |}.

(** The body of the loop over [i] in [parse_bdb_page]. *)
Definition scan_at (data : list byte) (w : BitcoinCoreWallet) (i : nat)
  : BitcoinCoreWallet :=
  let w1 :=
    if marker_at data i "m" "k" "e" "y"
    then
      let key_start := (i + 4)%nat in
      if (key_start + 64 <? length data)%nat
      then set_master_keys
             (StdMap.assign "default" (master_key_at data key_start)
                (master_keys_ w)) w
      else w
    else w in
  if marker_at data i "c" "k" "e" "y"
  then
    let key_start := (i + 4)%nat in
    if (key_start + 80 <? length data)%nat
    then set_crypted_keys
           (StdMap.assign (to_string (StdMap.size (crypted_keys_ w1)))
              (crypted_key_at data key_start) (crypted_keys_ w1)) w1
    else w1
  else w1.

(** [BitcoinCoreWallet::parse_bdb_page] (the definition, which takes
    [offset] by reference): the return value, the new [offset], the new
    object. *)
Definition parse_bdb_page (data : list byte) (offset : nat) (w : BitcoinCoreWallet)
  : bool * nat * BitcoinCoreWallet :=
  if (length data <? offset + 1024)%nat then (false, offset, w)
  else
    let bound := Nat.min (offset + 1024) (length data - 32) in
    (true, (offset + 1024)%nat,
     fold_left (scan_at data) (seq offset (bound - offset)) w).

(** The [while (offset < wallet_data_.size())] loop of [parse_bdb_file].
    Each round that does not leave the loop adds 1024 to [offset];
    [parse_pages_fuel] is enough fuel ([parse_pages_fuel_enough]). *)
Fixpoint parse_pages (fuel : nat) (data : list byte) (offset : nat)
  (w : BitcoinCoreWallet) : BitcoinCoreWallet :=
  match fuel with
  | O => w
  | S fuel' =>
      if (offset <? length data)%nat
      then
        let '(ok, offset', w') := parse_bdb_page data offset w in
        if ok then parse_pages fuel' data offset' w' else w'
      else w
  end.

Definition parse_pages_fuel (data : list byte) : nat := S (length data / 1024).

(** [BitcoinCoreWallet::parse_bdb_file] *)
Definition parse_bdb_file (w : BitcoinCoreWallet) : bool * BitcoinCoreWallet :=
  let data := wallet_data_ w in
  if (length data <? sizeof_BDBHeader)%nat
  then (false,
        set_error "Wallet file too small to contain valid Berkeley DB header" w)
  else if negb (valid_magic data)
  then (false, set_error "Invalid Berkeley DB magic number" w)
  else
    let w' := parse_pages (parse_pages_fuel data) data 0 w in
    (negb (StdMap.is_empty (master_keys_ w'))
     && negb (StdMap.is_empty (crypted_keys_ w')), w').

(** [BitcoinCoreWallet::load] *)
Definition load (fs : FileSystem) (w : BitcoinCoreWallet) : bool * BitcoinCoreWallet :=
  if loaded_ w then (true, w)
  else if negb (verify_file_access fs (wallet_file_ w))
  then (false, set_error ("Cannot access wallet file: " ++ wallet_file_ w) w)
  else
    let w1 := set_wallet_data (read_file fs (wallet_file_ w)) w in
    match wallet_data_ w1 with
    | [] => (false, set_error "Failed to read wallet file or file is empty" w1)
    | _ :: _ =>
        let (ok, w2) := parse_bdb_file w1 in
        if negb ok
        then (false,
              set_error "Failed to parse wallet.dat file - invalid format" w2)
        else (true, set_loaded true w2)
    end.

(** [BitcoinCoreWallet::is_valid] *)
Definition is_valid (w : BitcoinCoreWallet) : bool :=
  loaded_ w
  && negb (StdMap.is_empty (master_keys_ w))
  && negb (StdMap.is_empty (crypted_keys_ w)).

(** *** Where the scan looks, said independently of the page loop *)

(** The positions [i] the scan visits are [0 .. scan_end - 1]. *)
Definition scan_end (data : list byte) : nat :=
  Nat.min (1024 * (length data / 1024)) (length data - 32).

(** A position where a master-key marker is found with room for the
    record. *)
Definition mkey_hit (data : list byte) (i : nat) : bool :=
  marker_at data i "m" "k" "e" "y" && (i + 4 + 64 <? length data)%nat.

(** A position where an encrypted-key marker is found with room for the
    record. *)
Definition ckey_hit (data : list byte) (i : nat) : bool :=
  marker_at data i "c" "k" "e" "y" && (i + 4 + 80 <? length data)%nat.

(** The master-key records in the order the scan meets them. *)
Definition scanned_master_keys (data : list byte) : list MasterKey :=
  map (fun i => master_key_at data (i + 4))
    (filter (mkey_hit data) (seq 0 (scan_end data))).

(** The encrypted-key records in the order the scan meets them. *)
Definition scanned_crypted_keys (data : list byte) : list CryptedKey :=
  map (fun i => crypted_key_at data (i + 4))
    (filter (ckey_hit data) (seq 0 (scan_end data))).

(** The last master-key record the scan meets. *)
Definition last_scanned_master_key (data : list byte) : option MasterKey :=
  match rev (scanned_master_keys data) with
  | [] => None
  | mk :: _ => Some mk
  end.

(** A master-key registry with no other key than ["default"]. *)
Definition only_default (m : StdMap.t MasterKey) : Prop :=
  m = [] \/ exists mk, m = [("default"%string, mk)].

(** The two tests [parse_bdb_file] makes before it scans. *)
Definition header_ok (data : list byte) : bool :=
  negb (length data <? sizeof_BDBHeader)%nat && valid_magic data.

(** ** Password test and key extraction *)

(** [ss << std::hex << std::setw(2) << std::setfill('0') << (int)byte] *)
Definition hex_digit (n : Z) : ascii :=
  nth (Z.to_nat n) (list_ascii_of_string "0123456789abcdef") Ascii.zero.

(** The sixteen characters [hex_digit] writes. *)
Definition hex_alphabet : list ascii :=
  list_ascii_of_string "0123456789abcdef".

Definition hex_of_byte (b : byte) : string :=
  String (hex_digit (byte_to_Z b / 16))
    (String (hex_digit (byte_to_Z b mod 16)) EmptyString).

Definition hex_of_bytes (bs : list byte) : string :=
  fold_left (fun acc b => acc ++ hex_of_byte b)%string bs EmptyString.

Section Oracle.

Context {ssl : OpenSSL}.

(** The [for] loop of [test_password] over [master_keys_]: true at the
    first record that decrypts. *)
Fixpoint any_master_key_decrypts (password : string)
  (records : list (string * MasterKey)) : bool :=
  match records with
  | [] => false
  | mk_pair :: rest =>
      match decrypt_master_key password (snd mk_pair) with
      | Some _ => true
      | None => any_master_key_decrypts password rest
      end
  end.

(** [BitcoinCoreWallet::test_password] *)
Definition test_password (fs : FileSystem) (password : string)
  (w : BitcoinCoreWallet) : bool * BitcoinCoreWallet :=
  let (ready, w1) := if loaded_ w then (true, w) else load fs w in
  if negb ready then (false, w1)
  else if StdMap.is_empty (master_keys_ w1)
  then (false, set_error "No master keys found in wallet" w1)
  else (any_master_key_decrypts password (master_keys_ w1), w1).

(** The first loop of [extract_private_keys]: the master key of the first
    record that decrypts. *)
Fixpoint first_master_key (password : string)
  (records : list (string * MasterKey)) : option (list byte) :=
  match records with
  | [] => None
  | mk_pair :: rest =>
      match decrypt_master_key password (snd mk_pair) with
      | Some master_key => Some master_key
      | None => first_master_key password rest
      end
  end.

(** The entries one decrypted private key adds to the result: the
    compressed form, and the uncompressed one when its address differs. *)
Definition key_infos (w : BitcoinCoreWallet) (private_key_bytes : list byte)
  : list PrivateKeyInfo :=
  let public_key := private_key_to_public_key private_key_bytes in
  let compressed_addr :=
    public_key_to_address (testnet_mode_ w) public_key true in
  let uncompressed_addr :=
    public_key_to_address (testnet_mode_ w) public_key false in
  let key_info :=
    {| address := compressed_addr;
       private_key_hex := hex_of_bytes private_key_bytes;
       private_key_wif :=
         private_key_to_wif (testnet_mode_ w) private_key_bytes true;
       public_key_hex := hex_of_bytes public_key;
       compressed := true;
       label := StdMap.at_default compressed_addr (key_labels_ w) EmptyString;
       balance_satoshis := 0;
       transaction_count := 0;
       has_balance := false |} in
  if String.eqb compressed_addr uncompressed_addr then [key_info]
  else
    [key_info;
     {| address := uncompressed_addr;
        private_key_hex := private_key_hex key_info;
        private_key_wif :=
          private_key_to_wif (testnet_mode_ w) private_key_bytes false;
        public_key_hex := public_key_hex key_info;
        compressed := false;
        label :=
          StdMap.at_default uncompressed_addr (key_labels_ w) (label key_info);
        balance_satoshis := 0;
        transaction_count := 0;
        has_balance := false |}].

(** The second loop of [extract_private_keys], over [crypted_keys_]. *)
Fixpoint extract_loop (w : BitcoinCoreWallet) (master_key : list byte)
  (records : list (string * CryptedKey)) : list PrivateKeyInfo :=
  match records with
  | [] => []
  | ck_pair :: rest =>
      match decrypt_private_key master_key (snd ck_pair) with
      | Some private_key_bytes =>
          key_infos w private_key_bytes ++ extract_loop w master_key rest
      | None => extract_loop w master_key rest
      end
  end.

(** [BitcoinCoreWallet::extract_private_keys] *)
Definition extract_private_keys (fs : FileSystem) (password : string)
  (w : BitcoinCoreWallet) : list PrivateKeyInfo * BitcoinCoreWallet :=
  let (ready, w1) := if loaded_ w then (true, w) else load fs w in
  if negb ready then ([], w1)
  else
    match first_master_key password (master_keys_ w1) with
    | None =>
        ([], set_error "Failed to decrypt master key with provided password" w1)
    | Some master_key => (extract_loop w1 master_key (crypted_keys_ w1), w1)
    end.

End Oracle.

(** ** Balance lookups *)

Section Balances.

Context {json : JsonCpp} {net : Network}.

(** The endpoint read with [api_endpoints_[name]]; the constructor
    installs every name read here. *)
Definition endpoint (w : BitcoinCoreWallet) (name : string) : string :=
  StdMap.at_default name (api_endpoints_ w) EmptyString.

(** The part the three provider functions share: the transfer, the test
    [res != CURLE_OK || response_code != 200], the parse. [None] is the
    [return false] of one of these steps. *)
Definition fetch_json (url : string) (world : World)
  : option Json_Value * World :=
  match curl_transfer url world with
  | (None, world') => (None, world')
  | (Some r, world') =>
      if negb (res_ok r) || negb (response_code r =? 200) then (None, world')
      else (Json_parse (response_body r), world')
  end.

(** The URLs the three provider functions build. *)
Definition blockstream_url (w : BitcoinCoreWallet) (address : string) : string :=
  (endpoint w (if testnet_mode_ w then "blockstream_testnet" else "blockstream")
   ++ "/address/" ++ address)%string.

Definition blockchair_url (w : BitcoinCoreWallet) (address : string) : string :=
  (endpoint w "blockchair" ++ "/dashboards/address/" ++ address)%string.

Definition blockcypher_url (w : BitcoinCoreWallet) (address : string) : string :=
  let url :=
    (endpoint w (if testnet_mode_ w then "blockcypher_testnet" else "blockcypher")
     ++ "/addrs/" ++ address ++ "/balance")%string in
  match StdMap.find "blockcypher" (api_keys_ w) with
  | Some api_key => (url ++ "?token=" ++ api_key)%string
  | None => url
  end.

(** A provider function: from the address and the current values of the
    two reference parameters to the way the call ends and the values the
    parameters have then. *)
Definition provider : Type :=
  BitcoinCoreWallet -> string -> Z * Z -> World
  -> (exit bool * (Z * Z)) * World.

(** The statement [if (obj.isMember(key)) x = obj[key].conv();]: the
    value of [x] after it, [None] when one of the three calls throws. *)
Definition read_member (obj : Json_Value) (key : string)
  (conv : Json_Value -> option Z) (x : Z) : option Z :=
  match Json_isMember obj key with
  | None => None
  | Some false => Some x
  | Some true =>
      match Json_get obj key with
      | None => None
      | Some v => conv v
      end
  end.

(** The end of the three provider functions: the statement above for
    [balance] with [asUInt64], then for [tx_count] with [asInt], then
    [return true]. *)
Definition read_balance (obj : Json_Value) (balance_key count_key : string)
  (refs : Z * Z) : exit bool * (Z * Z) :=
  let (balance, tx_count) := refs in
  match read_member obj balance_key Json_asUInt64 balance with
  | None => (Thrown, (balance, tx_count))
  | Some balance' =>
      match read_member obj count_key Json_asInt tx_count with
      | None => (Thrown, (balance', tx_count))
      | Some tx_count' => (Returned true, (balance', tx_count'))
      end
  end.

(** [BitcoinCoreWallet::query_blockstream_api] *)
Definition query_blockstream_api : provider :=
  fun w address refs world =>
    match fetch_json (blockstream_url w address) world with
    | (None, world') => ((Returned false, refs), world')
    | (Some root, world') =>
        match Json_isMember root "chain_stats" with
        | None => ((Thrown, refs), world')
        | Some false => ((Returned false, refs), world')
        | Some true =>
            match Json_get root "chain_stats" with
            | None => ((Thrown, refs), world')
            | Some stats =>
                (read_balance stats "funded_txo_sum" "tx_count" refs, world')
            end
        end
    end.

(** [BitcoinCoreWallet::query_blockchair_api] *)
Definition query_blockchair_api : provider :=
  fun w address refs world =>
    match fetch_json (blockchair_url w address) world with
    | (None, world') => ((Returned false, refs), world')
    | (Some root, world') =>
        match Json_isMember root "data" with
        | None => ((Thrown, refs), world')
        | Some false => ((Returned false, refs), world')
        | Some true =>
            match Json_get root "data" with
            | None => ((Thrown, refs), world')
            | Some data =>
                match Json_isMember data address with
                | None => ((Thrown, refs), world')
                | Some false => ((Returned false, refs), world')
                | Some true =>
                    match Json_get data address with
                    | None => ((Thrown, refs), world')
                    | Some entry =>
                        match Json_get entry "address" with
                        | None => ((Thrown, refs), world')
                        | Some addr_data =>
                            (read_balance addr_data "balance"
                               "transaction_count" refs, world')
                        end
                    end
                end
            end
        end
    end.

(** [BitcoinCoreWallet::query_blockcypher_api] *)
Definition query_blockcypher_api : provider :=
  fun w address refs world =>
    match fetch_json (blockcypher_url w address) world with
    | (None, world') => ((Returned false, refs), world')
    | (Some root, world') => (read_balance root "balance" "n_tx" refs, world')
    end.

(** [BitcoinCoreWallet::query_address_balance] *)
Definition query_address_balance (w : BitcoinCoreWallet) (address : string)
  (world : World) : (exit bool * (Z * Z)) * World :=
  let balance := 0 in
  let tx_count := 0 in
  match query_blockstream_api w address (balance, tx_count) world with
  | ((Returned true, refs1), world1) => ((Returned true, refs1), world1)
  | ((Thrown, refs1), world1) => ((Thrown, refs1), world1)
  | ((Returned false, refs1), world1) =>
      match query_blockchair_api w address refs1 world1 with
      | ((Returned true, refs2), world2) => ((Returned true, refs2), world2)
      | ((Thrown, refs2), world2) => ((Thrown, refs2), world2)
      | ((Returned false, refs2), world2) =>
          query_blockcypher_api w address refs2 world2
      end
  end.

(** What the body of the loop of [check_balances] does to one entry. *)
Definition update_balance (key_info : PrivateKeyInfo) (balance tx_count : Z)
  : PrivateKeyInfo :=
  {| address := address key_info;
     private_key_hex := private_key_hex key_info;
     private_key_wif := private_key_wif key_info;
     public_key_hex := public_key_hex key_info;
     compressed := compressed key_info;
     label := label key_info;
     balance_satoshis := balance;
     transaction_count := tx_count;
     has_balance := 0 <? balance |}.

(** The state of the loop of [check_balances]: the entries already
    passed, the two counters, the world, and whether an exception has
    ended the loop. The entries after the one at which it was thrown are
    passed as they are. *)
Record BalanceLoop : Type := {
  visited : list PrivateKeyInfo;
  successful_queries : Z;
  failed_queries : Z;
  world_now : World;
  thrown : bool
}.

Definition check_balances_step (w : BitcoinCoreWallet) (st : BalanceLoop)
  (key_info : PrivateKeyInfo) : BalanceLoop :=
  if thrown st
  then {| visited := visited st ++ [key_info];
          successful_queries := successful_queries st;
          failed_queries := failed_queries st;
          world_now := world_now st;
          thrown := true |}
  else
    match query_address_balance w (address key_info) (world_now st) with
    | ((Returned true, (balance, tx_count)), world') =>
        {| visited := visited st ++ [update_balance key_info balance tx_count];
           successful_queries := to_int (successful_queries st + 1);
           failed_queries := failed_queries st;
           world_now := sleep_for_milliseconds 100 world';
           thrown := false |}
    | ((Returned false, _), world') =>
        {| visited := visited st ++ [key_info];
           successful_queries := successful_queries st;
           failed_queries := to_int (failed_queries st + 1);
           world_now := sleep_for_milliseconds 100 world';
           thrown := false |}
    | ((Thrown, _), world') =>
        {| visited := visited st ++ [key_info];
           successful_queries := successful_queries st;
           failed_queries := failed_queries st;
           world_now := world';
           thrown := true |}
    end.

Definition check_balances_loop (w : BitcoinCoreWallet)
  (private_keys : list PrivateKeyInfo) (world : World) : BalanceLoop :=
  fold_left (check_balances_step w) private_keys
    {| visited := []; successful_queries := 0; failed_queries := 0;
       world_now := world; thrown := false |}.

(** [BitcoinCoreWallet::check_balances]: the way the call ends, the
    vector after it, the world after it. *)
Definition check_balances (w : BitcoinCoreWallet)
  (private_keys : list PrivateKeyInfo) (world : World)
  : exit bool * list PrivateKeyInfo * World :=
  match private_keys with
  | [] => (Returned false, [], world)
  | _ :: _ =>
      let st := check_balances_loop w private_keys world in
      (if thrown st then Thrown else Returned (0 <? successful_queries st),
       visited st, world_now st)
  end.

(** *** Well-formed responses, as the specification words them *)












End Balances.

(** ** The rest of the handler *)

(** The value a [uint64_t] holds after [z] is stored in it. *)
Definition to_uint64 (z : Z) : Z := z mod 2 ^ 64.

(** The enumerations of [wallet_base.h]. *)
Inductive EncryptionType : Type :=
| ENC_UNKNOWN | AES_256_CBC | AES_256_CTR | SCRYPT | PBKDF2 | BIP38.

Inductive WalletFormat : Type :=
| FMT_UNKNOWN | BITCOIN_CORE | ELECTRUM | MULTIBIT | ARMORY | BIP38_KEY.

Module Metadata.

(** [struct WalletMetadata] *)
Record t : Type := {
  format : WalletFormat;
  encryption : EncryptionType;
  version : string;
  iterations : Z;
  salt : list byte;
  encrypted_data : list byte;
  checksum : list byte;
  key_length : Z;
  iv_length : Z
}.

End Metadata.

(** [BitcoinCoreWallet::get_metadata]: the iteration count and the salt
    are those of the first master-key record, when there is one. *)
Definition get_metadata (w : BitcoinCoreWallet) : Metadata.t :=
  {| Metadata.format := BITCOIN_CORE;
     Metadata.encryption := AES_256_CBC;
     Metadata.version := "Bitcoin Core";
     Metadata.iterations :=
       match master_keys_ w with
       | [] => 25000
       | (_, first_master_key) :: _ => derive_iterations first_master_key
       end;
     Metadata.salt :=
       match master_keys_ w with
       | [] => []
       | (_, first_master_key) :: _ => salt first_master_key
       end;
     Metadata.encrypted_data := [];
     Metadata.checksum := [];
     Metadata.key_length := 32;
     Metadata.iv_length := 16 |}.

(** [BitcoinCoreWallet::set_api_key] *)
Definition set_api_key (service api_key : string) (w : BitcoinCoreWallet)
  : BitcoinCoreWallet :=
  {| wallet_file_ := wallet_file_ w; last_error_ := last_error_ w;
     wallet_data_ := wallet_data_ w; master_keys_ := master_keys_ w;
     crypted_keys_ := crypted_keys_ w; key_labels_ := key_labels_ w;
     api_keys_ := StdMap.assign service api_key (api_keys_ w);
     api_endpoints_ := api_endpoints_ w;
     testnet_mode_ := testnet_mode_ w; loaded_ := loaded_ w |}.

(** [BitcoinCoreWallet::set_api_endpoint] *)
Definition set_api_endpoint (service endpoint : string) (w : BitcoinCoreWallet)
  : BitcoinCoreWallet :=
  {| wallet_file_ := wallet_file_ w; last_error_ := last_error_ w;
     wallet_data_ := wallet_data_ w; master_keys_ := master_keys_ w;
     crypted_keys_ := crypted_keys_ w; key_labels_ := key_labels_ w;
     api_keys_ := api_keys_ w;
     api_endpoints_ := StdMap.assign service endpoint (api_endpoints_ w);
     testnet_mode_ := testnet_mode_ w; loaded_ := loaded_ w |}.

(** [BitcoinCoreWallet::enable_testnet] *)
Definition enable_testnet (testnet : bool) (w : BitcoinCoreWallet)
  : BitcoinCoreWallet :=
  {| wallet_file_ := wallet_file_ w; last_error_ := last_error_ w;
     wallet_data_ := wallet_data_ w; master_keys_ := master_keys_ w;
     crypted_keys_ := crypted_keys_ w; key_labels_ := key_labels_ w;
     api_keys_ := api_keys_ w; api_endpoints_ := api_endpoints_ w;
     testnet_mode_ := testnet; loaded_ := loaded_ w |}.

(** [struct BitcoinCoreWallet::WalletStats] *)
Record WalletStats : Type := {
  total_keys : Z;
  compressed_keys : Z;
  uncompressed_keys : Z;
  stats_funded_addresses : Z;
  total_balance : Z;
  creation_time : string;
  last_transaction : string
}.

(** The body of the loop of [get_wallet_stats]. *)
Definition wallet_stats_step (stats : WalletStats) (key : PrivateKeyInfo)
  : WalletStats :=
  {| total_keys := total_keys stats;
     compressed_keys :=
       if compressed key then to_int (compressed_keys stats + 1)
       else compressed_keys stats;
     uncompressed_keys :=
       if compressed key then uncompressed_keys stats
       else to_int (uncompressed_keys stats + 1);
     stats_funded_addresses :=
       if has_balance key then to_int (stats_funded_addresses stats + 1)
       else stats_funded_addresses stats;
     total_balance := to_uint64 (total_balance stats + balance_satoshis key);
     creation_time := creation_time stats;
     last_transaction := last_transaction stats |}.

(** [BitcoinCoreWallet::get_wallet_stats] *)
Definition get_wallet_stats (keys : list PrivateKeyInfo) : WalletStats :=
  fold_left wallet_stats_step keys
    {| total_keys := to_int (to_size_t (Z.of_nat (length keys)));
       compressed_keys := 0;
       uncompressed_keys := 0;
       stats_funded_addresses := 0;
       total_balance := 0;
       creation_time := "Unknown";
       last_transaction := "Unknown" |}.

(** [struct WalletRecoveryResult] *)
Record WalletRecoveryResult : Type := {
  success : bool;
  password : string;
  private_keys : list PrivateKeyInfo;
  master_key_hex : string;
  total_balance_satoshis : Z;
  total_addresses : Z;
  funded_addresses : Z;
  recovery_timestamp : string;
  wallet_version : string
}.

(** The loop of [recover_wallet] that adds up the balances: the new
    [total_balance_satoshis] and [funded_addresses]. *)
Definition recovery_totals (keys : list PrivateKeyInfo) : Z * Z :=
  fold_left
    (fun '(total, funded) key_info =>
       (to_uint64 (total + balance_satoshis key_info),
        if has_balance key_info then to_int (funded + 1) else funded))
    keys (0, 0).

Section Recovery.

Context {ssl : OpenSSL} {json : JsonCpp} {net : Network}.

(** [BitcoinCoreWallet::recover_wallet]. [timestamp] is what
    [get_current_timestamp()] returns at the start of the call. An
    exception that leaves [check_balances] leaves this function too. *)
Definition recover_wallet (fs : FileSystem) (timestamp : string)
  (password : string) (w : BitcoinCoreWallet) (world : World)
  : exit WalletRecoveryResult * BitcoinCoreWallet * World :=
  let result keys ok total count funded :=
    {| success := ok; password := password; private_keys := keys;
       master_key_hex := EmptyString;
       total_balance_satoshis := total; total_addresses := count;
       funded_addresses := funded;
       recovery_timestamp := timestamp; wallet_version := EmptyString |} in
  let (verified, w1) := test_password fs password w in
  if negb verified
  then (Returned (result [] false 0 0 0),
        set_error "Invalid password provided" w1, world)
  else
    let (keys, w2) := extract_private_keys fs password w1 in
    match keys with
    | [] =>
        (Returned (result [] false 0 0 0),
         set_error "No private keys could be extracted" w2, world)
    | _ :: _ =>
        let count := to_int (to_size_t (Z.of_nat (length keys))) in
        let '(checked, keys', world') := check_balances w2 keys world in
        match checked with
        | Returned true =>
            let (total, funded) := recovery_totals keys' in
            (Returned (result keys' true total count funded), w2, world')
        | Returned false =>
            (Returned (result keys' true 0 count 0), w2, world')
        | Thrown => (Thrown, w2, world')
        end
    end.

End Recovery.


(** ** Small inputs for the examples *)

(** A file system with one content for every path. *)
Definition one_file (data : list byte) : FileSystem :=
  {| verify_file_access := fun _ => true; read_file := fun _ => data |}.

Definition magic_bytes : list byte := [x61; x15; x06; x00].

Definition mkey_bytes : list byte :=
  map byte_of_ascii ["m"; "k"; "e"; "y"]%char.

Definition ckey_bytes : list byte :=
  map byte_of_ascii ["c"; "k"; "e"; "y"]%char.

(** One page: the magic number, a master-key marker, nothing else. *)
Definition buffer_master_only : list byte :=
  magic_bytes ++ mkey_bytes ++ repeat x00 1016.

(** One page: the magic number, a master-key marker and, further on, an
    encrypted-key marker. *)
Definition buffer_both : list byte :=
  magic_bytes ++ mkey_bytes ++ repeat x00 100 ++ ckey_bytes ++ repeat x00 912.

(** One page with two master-key markers, the records of which differ in
    their first salt byte. *)
Definition buffer_two_masters : list byte :=
  magic_bytes ++ mkey_bytes ++ [x01] ++ repeat x00 99
  ++ mkey_bytes ++ [x02] ++ repeat x00 911.

(** [l] cut or padded with zero bytes to [n] bytes. *)
Definition fit (n : nat) (l : list byte) : list byte :=
  firstn n (l ++ repeat x00 n).

Lemma fit_length (n : nat) (l : list byte) : length (fit n l) = n.
Proof.
  unfold fit. rewrite length_firstn, length_app, repeat_length. lia.
Qed.

Lemma fit_some_length (n keylen : nat) (l out : list byte) :
  Some (fit keylen l) = Some out -> length out = keylen.
Proof. intros H. injection H as <-. apply fit_length. Qed.

(** Stand-ins with the right sizes for the OpenSSL calls: enough to run
    the embedding on small inputs. The "cipher" xors a block with the
    start of the key. *)
Definition toy_openssl : OpenSSL :=
  {| SHA256 := fit 32;
     SHA256_length := fit_length 32;
     RIPEMD160 := fit 20;
     RIPEMD160_length := fit_length 20;
     PKCS5_PBKDF2_HMAC_SHA512 :=
       fun pass salt _ keylen =>
         Some (fit keylen (list_byte_of_string pass ++ salt));
     PKCS5_PBKDF2_HMAC_length :=
       fun pass salt _ keylen out =>
         fit_some_length keylen keylen (list_byte_of_string pass ++ salt) out;
     AES_256_decrypt_block := fun key block => fit 16 (xor_bytes block key);
     AES_256_decrypt_block_length :=
       fun key block => fit_length 16 (xor_bytes block key);
     EC_secp256k1_public_key := fun key => Some (x04 :: key ++ key) |}.

(** A master-key record that, with the stand-ins, decrypts under the
    password ["correct"] to 32 zero bytes: salt [0102030405060708], a
    zero IV, two blocks that decrypt to zeros and one that decrypts to
    sixteen padding bytes. *)
Definition toy_salt : list byte := [x01; x02; x03; x04; x05; x06; x07; x08].

Definition toy_master_key : MasterKey :=
  let k := fit 16 (list_byte_of_string "correct" ++ toy_salt) in
  {| encrypted_key :=
       repeat x00 16 ++ k ++ repeat x00 16 ++ xor_bytes k (repeat x10 16);
     salt := toy_salt;
     derive_iterations := 2;
     derive_method := 0;
     other_params := [] |}.

(** With the stand-in cipher and a zero master key, a blob that decrypts
    to the 32 bytes [11..11 22..22] followed by a block of padding. *)
Definition toy_crypted_key : CryptedKey :=
  {| public_key := repeat x02 33;
     encrypted_private_key :=
       repeat x00 16 ++ repeat x11 16 ++ repeat x33 16 ++ repeat x23 16 |}.

(** A record whose blob is too short to hold an IV. *)
Definition toy_short_crypted_key : CryptedKey :=
  {| public_key := repeat x02 33; encrypted_private_key := repeat x00 15 |}.

(** A loaded object holding that master-key record and three
    encrypted-key records, the second of them too short. *)
Definition toy_wallet : BitcoinCoreWallet :=
  set_loaded true
    (set_crypted_keys
       [("0"%string, toy_crypted_key);
        ("1"%string, toy_short_crypted_key);
        ("2"%string, toy_crypted_key)]
       (set_master_keys [("default"%string, toy_master_key)]
          (new_BitcoinCoreWallet "wallet.dat"))).

(** A stand-in for jsoncpp with four documents: ["{}"] parses to the
    empty object, ["funded"] to an object with a balance of 7 and 2
    transactions, ["stats"] to an object whose ["chain_stats"] member
    holds a funded sum of 5 and 1 transaction, ["[]"] to the empty array;
    nothing else parses. *)
#[warnings="-register-all"] Inductive toy_json_value : Type :=
| TNull
| TNum (z : Z)
| TArr (items : list toy_json_value)
| TObj (fields : list (string * toy_json_value)).

Definition toy_type (v : toy_json_value) : ValueType :=
  match v with
  | TNull => nullValue
  | TNum _ => intValue
  | TArr _ => arrayValue
  | TObj _ => objectValue
  end.

Definition toy_parse (body : string) : option toy_json_value :=
  if String.eqb body "{}" then Some (TObj [])
  else if String.eqb body "funded"
  then Some (TObj [("balance"%string, TNum 7); ("n_tx"%string, TNum 2)])
  else if String.eqb body "stats"
  then Some (TObj [("chain_stats"%string,
                    TObj [("funded_txo_sum"%string, TNum 5);
                          ("tx_count"%string, TNum 1)])])
  else if String.eqb body "[]" then Some (TArr [])
  else None.

Definition toy_isMember (v : toy_json_value) (key : string) : option bool :=
  match v with
  | TNull => Some false
  | TObj fields =>
      Some match StdMap.find key fields with
           | Some _ => true
           | None => false
           end
  | _ => None
  end.

Definition toy_get (v : toy_json_value) (key : string)
  : option toy_json_value :=
  match v with
  | TNull => Some TNull
  | TObj fields => Some (StdMap.at_default key fields TNull)
  | _ => None
  end.

(** A number converts when it is in the range [lo <= z < hi]; null
    converts to 0. *)
Definition toy_number (lo hi : Z) (v : toy_json_value) : option Z :=
  match v with
  | TNull => Some 0
  | TNum z => if (lo <=? z) && (z <? hi) then Some z else None
  | _ => None
  end.

Lemma toy_isMember_keyed (v : toy_json_value) (key : string) :
  toy_isMember v key = None <-> keyed (toy_type v) = false.
Proof. destruct v; cbn; split; congruence. Qed.

Lemma toy_get_keyed (v : toy_json_value) (key : string) :
  toy_get v key = None <-> keyed (toy_type v) = false.
Proof. destruct v; cbn; split; congruence. Qed.

Definition toy_jsoncpp : JsonCpp :=
  {| Json_Value := toy_json_value;
     Json_type := toy_type;
     Json_parse := toy_parse;
     Json_isMember := toy_isMember;
     Json_get := toy_get;
     Json_asUInt64 := toy_number 0 (2 ^ 64);
     Json_asInt := toy_number (- 2 ^ 31) (2 ^ 31);
     Json_isMember_keyed := toy_isMember_keyed;
     Json_get_keyed := toy_get_keyed |}.

(** A stand-in for the network: the world is the list of the results the
    coming transfers will have. *)
Definition toy_network : Network :=
  {| World := list (option HttpResult);
     curl_transfer :=
       fun _ world =>
         match world with
         | [] => (None, [])
         | r :: rest => (r, rest)
         end;
     sleep_for_milliseconds := fun _ world => world |}.

Definition http_ok (body : string) : option HttpResult :=
  Some {| res_ok := true; response_code := 200; response_body := body |}.

Definition http_status (code : Z) : option HttpResult :=
  Some {| res_ok := true; response_code := code; response_body := EmptyString |}.

Definition http_timeout : option HttpResult :=
  Some {| res_ok := false; response_code := 0; response_body := EmptyString |}.

Definition toy_key_info (address : string) : PrivateKeyInfo :=
  {| address := address; private_key_hex := EmptyString;
     private_key_wif := EmptyString; public_key_hex := EmptyString;
     compressed := true; label := EmptyString;
     balance_satoshis := 0; transaction_count := 0; has_balance := false |}.

(** Six transfers: all three providers fail for a first address; for a
    second one the first two fail and the third answers ["{}"]. *)
Definition toy_world : list (option HttpResult) :=
  [http_timeout; http_status 404; http_ok "oops";
   http_ok "oops"; http_timeout; http_ok "{}"].


(** One page: the magic number and an encrypted-key marker, no master-key
    marker. *)
Definition buffer_crypted_only : list byte :=
  magic_bytes ++ ckey_bytes ++ repeat x00 1016.

(** One page with a master-key marker and an encrypted-key marker, the
    latter followed by a 33-byte public key, a zero IV and two blocks
    that, with the stand-in cipher and a zero master key, decrypt to
    sixteen bytes [11] and a block of padding. *)
Definition buffer_record : list byte :=
  magic_bytes ++ mkey_bytes ++ repeat x00 100
  ++ ckey_bytes ++ repeat x02 33
  ++ repeat x00 16 ++ repeat x11 16 ++ repeat x01 16 ++ repeat x00 831.


(** Two entries that differ at most in the three balance fields, the
    second of which is either the first unchanged or one whose
    [has_balance] says whether its balance is positive. *)
Definition same_key (k k' : PrivateKeyInfo) : Prop :=
  address k' = address k
  /\ private_key_hex k' = private_key_hex k
  /\ private_key_wif k' = private_key_wif k
  /\ public_key_hex k' = public_key_hex k
  /\ compressed k' = compressed k
  /\ label k' = label k
  /\ (k' = k \/ has_balance k' = (0 <? balance_satoshis k')).

(* ===================================================================== *)
(** * Part II: proofs *)
(* ===================================================================== *)

(** ** Machine integers *)

Lemma to_int_small (z : Z) : - 2 ^ 31 <= z < 2 ^ 31 -> to_int z = z.
Proof.
  intros Hz. unfold to_int.
  rewrite Z.mod_small by lia. lia.
Qed.

Lemma to_uint8_small (z : Z) : 0 <= z < 256 -> to_uint8 z = z.
Proof. intros Hz. unfold to_uint8. now apply Z.mod_small. Qed.

Lemma byte_to_Z_range (b : byte) : 0 <= byte_to_Z b < 256.
Proof.
  unfold byte_to_Z. pose proof (Byte.to_N_bounded b) as Hb.
  lia.
Qed.

Lemma byte_of_to_Z (b : byte) : byte_of_Z (byte_to_Z b) = b.
Proof.
  unfold byte_of_Z. rewrite Z.mod_small by apply byte_to_Z_range.
  unfold byte_to_Z. rewrite N2Z.id, Byte.of_to_N. reflexivity.
Qed.

Lemma byte_to_of_Z (z : Z) : 0 <= z < 256 -> byte_to_Z (byte_of_Z z) = z.
Proof.
  intros Hz. unfold byte_of_Z, byte_to_Z. rewrite Z.mod_small by assumption.
  destruct (Byte.of_N (Z.to_N z)) as [b|] eqn:E.
  - apply Byte.to_of_N in E. rewrite E. lia.
  - apply Byte.of_N_None_iff in E. lia.
Qed.

Lemma byte_to_Z_inj (a b : byte) : byte_to_Z a = byte_to_Z b -> a = b.
Proof.
  intros H. rewrite <- (byte_of_to_Z a), <- (byte_of_to_Z b). now rewrite H.
Qed.

Lemma byte_to_Z_zero (b : byte) : byte_to_Z b = 0 <-> b = x00.
Proof.
  split; intros H.
  - apply byte_to_Z_inj. rewrite H. reflexivity.
  - subst b. reflexivity.
Qed.

(** ** Positional numerals *)

Section RadixFacts.

Variable B : Z.
Hypothesis B_gt_1 : 1 < B.

Lemma value_le_app (a b : list Z) :
  value_le B (a ++ b) = value_le B a + B ^ Z.of_nat (length a) * value_le B b.
Proof.
  induction a as [|d a IH]; simpl length; simpl app; simpl value_le.
  - rewrite Z.pow_0_r. lia.
  - rewrite IH, Nat2Z.inj_succ, Z.pow_succ_r by lia. ring.
Qed.

Lemma value_be_snoc (ds : list Z) (d : Z) :
  value_be B (ds ++ [d]) = value_be B ds * B + d.
Proof. unfold value_be. rewrite fold_left_app. reflexivity. Qed.

Lemma value_be_rev (ds : list Z) : value_be B (rev ds) = value_le B ds.
Proof.
  induction ds as [|d ds IH]; [reflexivity|].
  simpl rev. rewrite value_be_snoc, IH. simpl. ring.
Qed.

Lemma value_le_nonneg (ds : list Z) :
  Forall (is_digit B) ds -> 0 <= value_le B ds.
Proof.
  induction 1 as [|d ds Hd _ IH]; simpl; [lia|].
  unfold is_digit in Hd. nia.
Qed.

Lemma canonical_le_cons (d : Z) (ds : list Z) :
  ds <> [] -> canonical_le (d :: ds) <-> canonical_le ds.
Proof.
  intros Hne. unfold canonical_le. destruct ds; [contradiction|]. reflexivity.
Qed.

Lemma canonical_value_pos (ds : list Z) :
  Forall (is_digit B) ds -> canonical_le ds -> ds <> [] -> 0 < value_le B ds.
Proof.
  induction 1 as [|d ds Hd Hds IH]; intros Hc Hne; [contradiction|].
  simpl. unfold is_digit in Hd.
  destruct ds as [|e ds].
  - unfold canonical_le in Hc. simpl in *. lia.
  - assert (0 < value_le B (e :: ds)).
    { apply IH; [|discriminate]. now apply canonical_le_cons in Hc. }
    nia.
Qed.

(** Canonical numerals are unique. *)
Lemma canonical_le_unique (a b : list Z) :
  Forall (is_digit B) a -> Forall (is_digit B) b ->
  canonical_le a -> canonical_le b ->
  value_le B a = value_le B b -> a = b.
Proof.
  intros Ha. revert b.
  induction Ha as [|d a Hd Ha IH]; intros b Hb Hca Hcb Hv.
  - destruct b as [|e b]; [reflexivity|].
    pose proof (canonical_value_pos (e :: b) Hb Hcb ltac:(discriminate)).
    simpl in Hv. simpl in H. lia.
  - destruct b as [|e b].
    + pose proof (canonical_value_pos (d :: a) (Forall_cons _ Hd Ha) Hca
                    ltac:(discriminate)) as Hp.
      simpl in Hv, Hp. lia.
    + inversion Hb as [|? ? He Hb']; subst.
      simpl in Hv. unfold is_digit in Hd, He.
      assert (d = e /\ value_le B a = value_le B b) as [-> Hv'].
      { assert (d = (d + B * value_le B a) mod B) as Hd1.
        { apply (Z.mod_unique _ _ (value_le B a)); [left; lia | lia]. }
        assert (e = (e + B * value_le B b) mod B) as He1.
        { apply (Z.mod_unique _ _ (value_le B b)); [left; lia | lia]. }
        assert (d = e) by congruence. split; [assumption|]. nia. }
      f_equal. apply IH; try assumption.
      * destruct a as [|x a]; [exact (fun H => Z.neq_succ_diag_l 0 H) |].
        now apply canonical_le_cons in Hca.
      * destruct b as [|x b]; [exact (fun H => Z.neq_succ_diag_l 0 H) |].
        now apply canonical_le_cons in Hcb.
Qed.

(** [digits_le] writes the canonical numeral of [n] when the fuel covers
    it. *)
Lemma digits_le_spec (fuel : nat) (n : Z) :
  0 <= n < B ^ Z.of_nat fuel ->
  Forall (is_digit B) (digits_le B fuel n)
  /\ value_le B (digits_le B fuel n) = n
  /\ canonical_le (digits_le B fuel n)
  /\ (0 < n -> digits_le B fuel n <> []).
Proof.
  revert n. induction fuel as [|fuel IH]; intros n Hn.
  - rewrite Z.pow_0_r in Hn. assert (n = 0) by lia. subst.
    cbn [digits_le value_le]. unfold canonical_le. cbn [last].
    repeat split; try constructor; lia.
  - cbn [digits_le]. destruct (0 <? n) eqn:E.
    + apply Z.ltb_lt in E.
      pose proof (Z.mod_pos_bound n B ltac:(lia)) as Hm.
      pose proof (Z.div_mod n B ltac:(lia)) as Hdm.
      assert (Hq : 0 <= n / B < B ^ Z.of_nat fuel).
      { split; [apply Z.div_pos; lia|].
        apply Z.div_lt_upper_bound; [lia|].
        rewrite Nat2Z.inj_succ, Z.pow_succ_r in Hn; lia. }
      destruct (IH _ Hq) as (Hf & Hv & Hcan & Hne).
      repeat split.
      * constructor; assumption.
      * cbn [value_le]. rewrite Hv. lia.
      * destruct (Z.eq_dec (n / B) 0) as [Hz|Hnz].
        -- rewrite Hz. assert (digits_le B fuel 0 = []) as ->.
           { destruct fuel; reflexivity. }
           unfold canonical_le. cbn [last]. lia.
        -- apply canonical_le_cons; [apply Hne; lia | exact Hcan].
      * discriminate.
    + apply Z.ltb_ge in E. assert (n = 0) by lia. subst.
      cbn [value_le]. unfold canonical_le. cbn [last].
      repeat split; try constructor; lia.
Qed.

Lemma digits_fuel_enough (n : Z) : 0 <= n -> n < B ^ Z.of_nat (digits_fuel n).
Proof.
  intros Hn. unfold digits_fuel.
  destruct (Z.eq_dec n 0) as [->|Hnz].
  - apply Z.pow_pos_nonneg; lia.
  - rewrite Nat2Z.inj_succ, Z2Nat.id by apply Z.log2_nonneg.
    pose proof (Z.log2_spec n ltac:(lia)) as [_ Hlt].
    eapply Z.lt_le_trans; [exact Hlt|].
    apply Z.pow_le_mono_l. lia.
Qed.

End RadixFacts.

(** ** Base58 *)

Lemma base58_round (d c : Z) :
  0 <= d < 58 -> 0 <= c <= 255 ->
  to_int (c + to_int (d * 256)) = c + d * 256.
Proof.
  intros Hd Hc. rewrite (to_int_small (d * 256)) by lia.
  apply to_int_small. lia.
Qed.

Lemma base58_carry_loop_spec (digits : list Z) (carry : Z) :
  Forall (is_digit 58) digits -> 0 <= carry <= 255 ->
  let (digits', carry') := base58_carry_loop digits carry in
  Forall (is_digit 58) digits'
  /\ length digits' = length digits
  /\ 0 <= carry' <= 255
  /\ value_le 58 digits' + 58 ^ Z.of_nat (length digits) * carry'
     = carry + 256 * value_le 58 digits
  /\ (digits <> [] -> canonical_le digits -> 0 < carry').
Proof.
  intros Hds. revert carry.
  induction Hds as [|d digits Hd Hds IH]; intros carry Hc.
  - cbn [base58_carry_loop value_le length].
    split; [constructor|]. split; [reflexivity|].
    split; [lia|]. split; [change (Z.of_nat 0) with 0; lia|].
    intros H; now elim H.
  - cbn [base58_carry_loop]. unfold is_digit in Hd.
    rewrite base58_round by assumption.
    rewrite Z.rem_mod_nonneg, Z.quot_div_nonneg by lia.
    assert (Hq : 0 <= (carry + d * 256) / 58 <= 255).
    { split; [apply Z.div_pos; lia|].
      apply Z.lt_succ_r, Z.div_lt_upper_bound; lia. }
    pose proof (Z.mod_pos_bound (carry + d * 256) 58 ltac:(lia)) as Hm.
    specialize (IH _ Hq).
    destruct (base58_carry_loop digits ((carry + d * 256) / 58))
      as [rest' carry3].
    destruct IH as (Hf & Hlen & Hc3 & Hval & Hpos).
    rewrite to_uint8_small by lia.
    repeat split; try lia.
    + constructor; [exact Hm | exact Hf].
    + simpl. now rewrite Hlen.
    + simpl length. rewrite Nat2Z.inj_succ, Z.pow_succ_r by lia.
      cbn [value_le]. rewrite <- Z.mul_assoc.
      pose proof (Z.div_mod (carry + d * 256) 58 ltac:(lia)) as Hdm.
      lia.
    + intros _ Hcan. destruct digits as [|e digits].
      * unfold canonical_le in Hcan. cbn [last] in Hcan.
        assert (4 <= (carry + d * 256) / 58).
        { apply Z.div_le_lower_bound; lia. }
        destruct rest'; [|discriminate].
        cbn [value_le length] in Hval. change (Z.of_nat 0) with 0 in Hval.
        lia.
      * apply Hpos; [discriminate|]. now apply canonical_le_cons in Hcan.
Qed.

Lemma base58_push_loop_digits (fuel : nat) (carry : Z) :
  0 <= carry -> base58_push_loop fuel carry = digits_le 58 fuel carry.
Proof.
  revert carry. induction fuel as [|fuel IH]; intros carry Hc; [reflexivity|].
  cbn [base58_push_loop digits_le]. destruct (0 <? carry) eqn:E; [|reflexivity].
  apply Z.ltb_lt in E.
  rewrite Z.rem_mod_nonneg, Z.quot_div_nonneg by lia.
  pose proof (Z.mod_pos_bound carry 58 ltac:(lia)) as Hm.
  rewrite to_uint8_small by lia.
  f_equal. apply IH. apply Z.div_pos; lia.
Qed.

(** Six rounds of the push loop are enough for any [int]. *)
Lemma base58_push_loop_fuel (carry : Z) :
  0 <= carry <= INT_MAX -> carry < 58 ^ Z.of_nat 6.
Proof.
  unfold INT_MAX. intros H. change (58 ^ Z.of_nat 6) with 38068692544. lia.
Qed.

Lemma last_app_nonempty {A} (a b : list A) (d : A) :
  b <> [] -> last (a ++ b) d = last b d.
Proof.
  intros Hb. induction a as [|x a IH]; [reflexivity|].
  cbn [app last]. destruct (a ++ b) eqn:E; [|exact IH].
  apply app_eq_nil in E. destruct E; contradiction.
Qed.

Lemma base58_step_spec (digits : list Z) (b : byte) :
  Forall (is_digit 58) digits -> canonical_le digits ->
  (digits = [] -> b <> x00) ->
  Forall (is_digit 58) (base58_step digits b)
  /\ canonical_le (base58_step digits b)
  /\ base58_step digits b <> []
  /\ value_le 58 (base58_step digits b)
     = byte_to_Z b + 256 * value_le 58 digits.
Proof.
  intros Hds Hcan Hfirst. unfold base58_step.
  pose proof (byte_to_Z_range b) as Hb.
  pose proof (base58_carry_loop_spec digits (byte_to_Z b) Hds ltac:(lia)) as H.
  destruct (base58_carry_loop digits (byte_to_Z b)) as [digits' carry].
  destruct H as (Hf & Hlen & Hc & Hval & Hpos).
  assert (Hcpos : 0 < carry).
  { destruct digits as [|d digits].
    - destruct digits'; [|discriminate].
      cbn [value_le length] in Hval. change (Z.of_nat 0) with 0 in Hval.
      assert (byte_to_Z b <> 0).
      { intros Hz. apply byte_to_Z_zero in Hz. now apply Hfirst. }
      lia.
    - apply Hpos; [discriminate | assumption]. }
  rewrite base58_push_loop_digits by lia.
  assert (Hfuel : 0 <= carry < 58 ^ Z.of_nat 6).
  { split; [lia|]. apply base58_push_loop_fuel. unfold INT_MAX. lia. }
  destruct (digits_le_spec 58 ltac:(lia) 6 carry Hfuel)
    as (Hpf & Hpv & Hpc & Hpne).
  specialize (Hpne Hcpos).
  repeat split.
  - apply Forall_app. split; assumption.
  - unfold canonical_le. rewrite last_app_nonempty by assumption. exact Hpc.
  - intros E. apply app_eq_nil in E. destruct E; contradiction.
  - rewrite value_le_app, Hpv, Hlen. lia.
Qed.

Lemma base58_fold_spec (rest : list byte) (digits : list Z) :
  Forall (is_digit 58) digits -> canonical_le digits -> digits <> [] ->
  Forall (is_digit 58) (fold_left base58_step rest digits)
  /\ canonical_le (fold_left base58_step rest digits)
  /\ fold_left base58_step rest digits <> []
  /\ value_le 58 (fold_left base58_step rest digits)
     = fold_left (fun acc d => acc * 256 + d) (map byte_to_Z rest)
         (value_le 58 digits).
Proof.
  revert digits. induction rest as [|b rest IH]; intros digits Hf Hc Hne.
  - cbn [fold_left map]. auto.
  - cbn [fold_left map].
    destruct (base58_step_spec digits b Hf Hc ltac:(intros; contradiction))
      as (Hf' & Hc' & Hne' & Hv').
    destruct (IH _ Hf' Hc' Hne') as (H1 & H2 & H3 & H4).
    repeat split; try assumption.
    rewrite H4, Hv'. f_equal. lia.
Qed.

Lemma leading_zeros_skipn (data : list byte) :
  match skipn (leading_zeros data) data with
  | [] => True
  | b :: _ => b <> x00
  end.
Proof.
  induction data as [|b data IH]; [exact I|].
  destruct (Byte.byte_eq_dec b x00) as [->|Hne].
  - exact IH.
  - assert (leading_zeros (b :: data) = O) as ->.
    { destruct b; try reflexivity. now elim Hne. }
    exact Hne.
Qed.

Lemma leading_zeros_firstn (data : list byte) :
  firstn (leading_zeros data) data = repeat x00 (leading_zeros data).
Proof.
  induction data as [|b data IH]; [reflexivity|].
  destruct (Byte.byte_eq_dec b x00) as [->|Hne].
  - cbn [leading_zeros firstn repeat]. now rewrite IH.
  - assert (leading_zeros (b :: data) = O) as ->.
    { destruct b; try reflexivity. now elim Hne. }
    reflexivity.
Qed.

(** What the conversion loop leaves in [digits]: the canonical base-58
    numeral of the bytes after the leading zeros. *)
Lemma base58_digits_spec (data : list byte) :
  Forall (is_digit 58) (base58_digits data)
  /\ canonical_le (base58_digits data)
  /\ value_le 58 (base58_digits data)
     = value_be 256 (map byte_to_Z (skipn (leading_zeros data) data)).
Proof.
  unfold base58_digits. pose proof (leading_zeros_skipn data) as Hhd.
  destruct (skipn (leading_zeros data) data) as [|b rest].
  - cbn. repeat split; [constructor | unfold canonical_le; cbn; lia].
  - cbn [fold_left map].
    destruct (base58_step_spec [] b ltac:(constructor)
                ltac:(unfold canonical_le; cbn; lia) ltac:(auto))
      as (Hf & Hc & Hne & Hv).
    destruct (base58_fold_spec rest _ Hf Hc Hne) as (H1 & H2 & _ & H4).
    repeat split; try assumption.
    rewrite H4, Hv. unfold value_be. cbn [fold_left value_le]. f_equal. lia.
Qed.

Lemma base58_index_char (d : Z) :
  0 <= d < 58 -> base58_index (base58_char d) = Some d.
Proof.
  intros Hd. rewrite <- (Z2Nat.id d) by lia.
  assert (Hn : (Z.to_nat d < 58)%nat) by lia.
  generalize dependent (Z.to_nat d). clear d Hd. intros n Hn.
  do 58 (destruct n as [|n]; [vm_compute; reflexivity|]).
  lia.
Qed.

Lemma base58_char_not_one (d : Z) :
  0 < d < 58 -> base58_char d <> "1"%char.
Proof.
  intros Hd E. pose proof (base58_index_char d ltac:(lia)) as H.
  rewrite E in H. vm_compute in H. injection H as H. lia.
Qed.

Lemma count_leading_repeat (c : ascii) (n : nat) (s : list ascii) :
  count_leading c (repeat c n ++ s) = (n + count_leading c s)%nat.
Proof.
  induction n as [|n IH]; [reflexivity|].
  cbn [repeat app count_leading]. rewrite Ascii.eqb_refl, IH. reflexivity.
Qed.

Lemma hd_rev_last {A} (l : list A) (d : A) : hd d (rev l) = last l d.
Proof.
  destruct l as [|x l _] using rev_ind; [reflexivity|].
  rewrite rev_app_distr, last_last. reflexivity.
Qed.

Lemma base58_encode_chars (data : list byte) :
  list_ascii_of_string (base58_encode data)
  = repeat "1"%char (leading_zeros data)
    ++ map base58_char (rev (base58_digits data)).
Proof. unfold base58_encode. apply list_ascii_of_string_of_list_ascii. Qed.

Lemma base58_digits_rev_hd (data : list byte) :
  Forall (is_digit 58) (rev (base58_digits data))
  /\ hd 1 (rev (base58_digits data)) <> 0.
Proof.
  destruct (base58_digits_spec data) as (Hf & Hc & _). split.
  - apply Forall_rev. exact Hf.
  - rewrite hd_rev_last. exact Hc.
Qed.

Lemma count_leading_digits (ds : list Z) :
  Forall (is_digit 58) ds -> hd 1 ds <> 0 ->
  count_leading "1"%char (map base58_char ds) = O.
Proof.
  intros Hf Hhd. destruct ds as [|d ds]; [reflexivity|].
  cbn [map count_leading hd] in *.
  inversion Hf as [|? ? Hd _]; subst. unfold is_digit in Hd.
  destruct (Ascii.eqb (base58_char d) "1") eqn:E; [|reflexivity].
  apply Ascii.eqb_eq in E. apply base58_char_not_one in E; [easy | lia].
Qed.

Lemma base58_encode_count_leading (data : list byte) :
  count_leading "1"%char (list_ascii_of_string (base58_encode data))
  = leading_zeros data.
Proof.
  rewrite base58_encode_chars, count_leading_repeat.
  destruct (base58_digits_rev_hd data) as [Hf Hhd].
  rewrite count_leading_digits by assumption. lia.
Qed.




(** *** Decoding what the encoder wrote *)

Lemma base58_indices_chars (ds : list Z) :
  Forall (is_digit 58) ds -> base58_indices (map base58_char ds) = Some ds.
Proof.
  induction 1 as [|d ds Hd _ IH]; [reflexivity|].
  cbn [map base58_indices]. rewrite base58_index_char by exact Hd.
  rewrite IH. reflexivity.
Qed.

Lemma skipn_repeat_app {A} (x : A) (n : nat) (l : list A) :
  skipn n (repeat x n ++ l) = l.
Proof. induction n as [|n IH]; [reflexivity | exact IH]. Qed.

Lemma map_byte_of_to_Z (l : list byte) : map byte_of_Z (map byte_to_Z l) = l.
Proof.
  induction l as [|b l IH]; [reflexivity|].
  cbn [map]. now rewrite byte_of_to_Z, IH.
Qed.

Lemma Forall_byte_digit (l : list byte) :
  Forall (is_digit 256) (map byte_to_Z l).
Proof.
  induction l as [|b l IH]; constructor; [apply byte_to_Z_range | exact IH].
Qed.

(** The bytes after the leading zeros are the canonical base-256 numeral
    of their value. *)
Lemma bytes_canonical (data : list byte) :
  let tail := skipn (leading_zeros data) data in
  rev (digits_le 256 (digits_fuel (value_be 256 (map byte_to_Z tail)))
         (value_be 256 (map byte_to_Z tail)))
  = map byte_to_Z tail.
Proof.
  intros tail. set (n := value_be 256 (map byte_to_Z tail)).
  assert (Hle : value_le 256 (rev (map byte_to_Z tail)) = n).
  { rewrite <- value_be_rev, rev_involutive. reflexivity. }
  assert (Hn : 0 <= n).
  { rewrite <- Hle. apply value_le_nonneg; [lia|].
    apply Forall_rev, Forall_byte_digit. }
  destruct (digits_le_spec 256 ltac:(lia) (digits_fuel n) n) as (Hf & Hv & Hc & _).
  { split; [exact Hn | apply digits_fuel_enough; lia]. }
  rewrite <- (rev_involutive (map byte_to_Z tail)). f_equal.
  apply (canonical_le_unique 256 ltac:(lia)); try assumption.
  - apply Forall_rev, Forall_byte_digit.
  - unfold canonical_le. rewrite <- hd_rev_last, rev_involutive.
    pose proof (leading_zeros_skipn data) as Hhd. fold tail in Hhd.
    destruct tail as [|b rest]; [cbn; lia|].
    cbn [map hd]. intros Hz. apply byte_to_Z_zero in Hz. contradiction.
  - now rewrite Hv, Hle.
Qed.

Lemma base58_decode_encode (data : list byte) :
  base58_decode (base58_encode data) = Some data.
Proof.
  unfold base58_decode. cbv zeta.
  rewrite base58_encode_count_leading.
  rewrite base58_encode_chars, skipn_repeat_app.
  destruct (base58_digits_rev_hd data) as [Hf _].
  rewrite base58_indices_chars by exact Hf.
  destruct (base58_digits_spec data) as (_ & _ & Hv).
  rewrite value_be_rev, Hv.
  rewrite (bytes_canonical data), map_byte_of_to_Z.
  rewrite <- leading_zeros_firstn. now rewrite firstn_skipn.
Qed.

Example base58_encode_ex1 :
  base58_encode [x00; x00; x01; x02] = "115T"%string.
Proof. reflexivity. Qed.

(** ** [std::map] *)

Lemma string_compare_refl (s : string) : String.compare s s = Eq.
Proof.
  pose proof (String.compare_antisym s s) as H.
  destruct (String.compare s s); cbn in H; congruence.
Qed.

Lemma string_compare_eqb (a b : string) :
  String.eqb a b = match String.compare a b with Eq => true | _ => false end.
Proof.
  destruct (String.eqb_spec a b) as [->|Hne].
  - now rewrite string_compare_refl.
  - destruct (String.compare a b) eqn:E; try reflexivity.
    apply String.compare_eq_iff in E. contradiction.
Qed.

(** Reading back what was assigned. *)
Lemma find_assign_same {V} (k : string) (v : V) (m : StdMap.t V) :
  StdMap.find k (StdMap.assign k v m) = Some v.
Proof.
  induction m as [|[k' v'] m IH]; cbn [StdMap.assign StdMap.find].
  - now rewrite String.eqb_refl.
  - pose proof (string_compare_eqb k k') as He.
    destruct (String.compare k k'); cbn [StdMap.find].
    + now rewrite String.eqb_refl.
    + now rewrite String.eqb_refl.
    + now rewrite He.
Qed.

(** An assignment leaves the other keys as they were. *)
Lemma find_assign_other {V} (k k0 : string) (v : V) (m : StdMap.t V) :
  k0 <> k -> StdMap.find k0 (StdMap.assign k v m) = StdMap.find k0 m.
Proof.
  intros Hne. induction m as [|[k' v'] m IH]; cbn [StdMap.assign StdMap.find].
  - now rewrite (proj2 (String.eqb_neq k0 k) Hne).
  - destruct (String.compare k k') eqn:E; cbn [StdMap.find].
    + apply String.compare_eq_iff in E. subst k'.
      now rewrite (proj2 (String.eqb_neq k0 k) Hne).
    + now rewrite (proj2 (String.eqb_neq k0 k) Hne).
    + now rewrite IH.
Qed.

(** Assigning to a key that is not there adds one entry. *)
Lemma size_assign_fresh {V} (k : string) (v : V) (m : StdMap.t V) :
  StdMap.find k m = None ->
  StdMap.size (StdMap.assign k v m) = S (StdMap.size m).
Proof.
  unfold StdMap.size.
  induction m as [|[k' v'] m IH]; cbn [StdMap.assign StdMap.find length];
    [reflexivity|].
  rewrite string_compare_eqb.
  destruct (String.compare k k'); [discriminate | reflexivity |].
  intros H. cbn [length]. now rewrite IH.
Qed.

(** The container stays in ascending key order. *)
Lemma assign_sorted {V} (k : string) (v : V) (m : StdMap.t V) :
  keys_sorted m -> keys_sorted (StdMap.assign k v m).
Proof.
  unfold keys_sorted. induction 1 as [|[k' v'] m Hs IH Hhd];
    cbn [StdMap.assign].
  - repeat constructor.
  - destruct (String.compare k k') eqn:E.
    + apply String.compare_eq_iff in E. subst k'.
      constructor; [exact Hs|]. destruct Hhd; constructor; assumption.
    + constructor; [now constructor|]. constructor. exact E.
    + constructor; [exact IH|].
      assert (Hlt : String.compare k' k = Lt).
      { rewrite String.compare_antisym, E. reflexivity. }
      destruct m as [|[k2 v2] m]; cbn [StdMap.assign].
      * constructor. exact Hlt.
      * inversion Hhd as [|? ? Hk2]; subst. cbn [fst] in Hk2.
        destruct (String.compare k k2); constructor; cbn [fst]; assumption.
Qed.

Lemma to_string_inj (a b : nat) : to_string a = to_string b -> a = b.
Proof.
  unfold to_string. intros H.
  assert (Hnn : forall n, Nat.to_uint n <> Decimal.Nil).
  { intros n. rewrite <- (DecimalNat.Unsigned.of_to n) at 1.
    rewrite DecimalNat.Unsigned.to_of. apply DecimalFacts.unorm_nonnil. }
  apply (f_equal NilZero.uint_of_string) in H.
  rewrite !NilZero.usu in H by apply Hnn.
  injection H as H. now apply DecimalNat.Unsigned.to_uint_inj.
Qed.

(** ** WIF *)

Section KeyFormats.

Context {ssl : OpenSSL}.

Lemma forallb2_eq_refl (l : list byte) : forallb2_eq l l = true.
Proof.
  induction l as [|b l IH]; [reflexivity|].
  cbn [forallb2_eq]. rewrite IH, (Byte.byte_dec_lb eq_refl). reflexivity.
Qed.

Lemma checksum_length (m : list byte) : length (firstn 4 (SHA256 m)) = 4%nat.
Proof. rewrite length_firstn, SHA256_length. reflexivity. Qed.

(** [base58check_decode] undoes the payload-plus-checksum encoding both
    key formats use. *)
Lemma base58check_decode_encode (payload : list byte) :
  base58check_decode
    (base58_encode (payload ++ firstn 4 (SHA256 (SHA256 payload))))
  = Some payload.
Proof.
  unfold base58check_decode. rewrite base58_decode_encode. cbv zeta.
  rewrite length_app, checksum_length.
  replace (length payload + 4 - 4)%nat with (length payload) by lia.
  rewrite firstn_app, firstn_all, Nat.sub_diag, firstn_O, app_nil_r.
  rewrite skipn_app, skipn_all, Nat.sub_diag, skipn_O.
  cbn [app]. rewrite forallb2_eq_refl.
  destruct (4 <=? length payload + 4)%nat eqn:E; [reflexivity|].
  apply Nat.leb_gt in E. lia.
Qed.

(** C6: the WIF string written for a 32-byte private key is the base58
    encoding of the version byte (0x80 mainnet, 0xEF testnet), the key
    bytes, a byte 0x01 exactly when compressed, and the first four bytes of
    the double SHA-256 of these; decoding it gives back the version byte,
    the key bytes and the compression flag. *)
Theorem wif_round_trip (testnet_mode : bool) (private_key : list byte)
  (compressed : bool) :
  length private_key = 32%nat ->
  (let payload :=
     (if testnet_mode then xef else x80)
     :: private_key ++ (if compressed then [x01] else []) in
   private_key_to_wif testnet_mode private_key compressed
   = base58_encode (payload ++ firstn 4 (SHA256 (SHA256 payload))))
  /\ wif_decode (private_key_to_wif testnet_mode private_key compressed)
     = Some (if testnet_mode then xef else x80, private_key, compressed).
Proof.
  intros Hlen. split.
  { unfold private_key_to_wif. rewrite Hlen. reflexivity. }
  unfold private_key_to_wif, wif_decode.
  rewrite Hlen. cbn [Nat.eqb negb]. cbv zeta.
  rewrite base58check_decode_encode. cbn [app].
  rewrite length_app, Hlen.
  destruct compressed; cbn [length Nat.add Nat.eqb andb].
  - rewrite app_nth2 by lia. rewrite Hlen, Nat.sub_diag. cbn [nth Byte.eqb].
    rewrite firstn_app, Hlen, Nat.sub_diag, firstn_O, app_nil_r.
    rewrite <- Hlen, firstn_all. reflexivity.
  - rewrite app_nil_r. reflexivity.
Qed.

End KeyFormats.

(** ** Loading *)

Lemma load_true_loaded (fs : FileSystem) (w w' : BitcoinCoreWallet) :
  load fs w = (true, w') -> loaded_ w' = true.
Proof.
  unfold load. destruct (loaded_ w) eqn:Hl.
  - intros H. injection H as <-. exact Hl.
  - destruct (negb (verify_file_access fs (wallet_file_ w))); [discriminate|].
    destruct (wallet_data_ _); [discriminate|].
    destruct (parse_bdb_file _) as [ok w2].
    destruct ok; cbn [negb]; [|discriminate].
    intros H. injection H as <-. reflexivity.
Qed.

Lemma load_loaded (fs : FileSystem) (w : BitcoinCoreWallet) :
  loaded_ w = true -> load fs w = (true, w).
Proof. intros H. unfold load. now rewrite H. Qed.

(** C8: after a call of [load] that returned true, a further call (with
    the file system in any state) returns true and leaves the object, and
    so both record counts, as they were. *)
Theorem load_idempotent (fs fs' : FileSystem) (w w' : BitcoinCoreWallet) :
  load fs w = (true, w') ->
  load fs' w' = (true, w')
  /\ StdMap.size (master_keys_ (snd (load fs' w')))
     = StdMap.size (master_keys_ w')
  /\ StdMap.size (crypted_keys_ (snd (load fs' w')))
     = StdMap.size (crypted_keys_ w').
Proof.
  intros H. apply load_true_loaded in H.
  rewrite (load_loaded fs' w' H). cbn [snd]. auto.
Qed.

(** ** The scan *)

Lemma scan_segments (len k : nat) :
  (1024 * (k + 1) <= len)%nat ->
  seq (1024 * k) (Nat.min (1024 * (len / 1024)) (len - 32) - 1024 * k)
  = seq (1024 * k) (Nat.min (1024 * (k + 1)) (len - 32) - 1024 * k)
    ++ seq (1024 * (k + 1))
         (Nat.min (1024 * (len / 1024)) (len - 32) - 1024 * (k + 1)).
Proof.
  intros Hk.
  assert (Hp : (k + 1 <= len / 1024)%nat).
  { apply Nat.div_le_lower_bound; lia. }
  destruct (Nat.le_gt_cases (1024 * (k + 1)) (len - 32)) as [Hle|Hgt].
  - rewrite (Nat.min_l (1024 * (k + 1))) by exact Hle.
    replace (1024 * (k + 1) - 1024 * k)%nat with 1024%nat by lia.
    replace (1024 * (k + 1))%nat with (1024 * k + 1024)%nat by lia.
    rewrite <- seq_app. f_equal. lia.
  - rewrite (Nat.min_r (1024 * (k + 1))) by lia.
    rewrite (Nat.min_r (1024 * (len / 1024))) by lia.
    replace (len - 32 - 1024 * (k + 1))%nat with O by lia.
    cbn [seq]. now rewrite app_nil_r.
Qed.

(** The page loop visits the positions [0 .. scan_end data - 1] in
    order, whatever fuel it is given beyond what it needs. *)
Lemma parse_pages_scan (data : list byte) (fuel k : nat) (w : BitcoinCoreWallet) :
  (k <= length data / 1024)%nat ->
  (length data / 1024 < fuel + k)%nat ->
  parse_pages fuel data (1024 * k) w
  = fold_left (scan_at data)
      (seq (1024 * k) (scan_end data - 1024 * k)) w.
Proof.
  revert k w. induction fuel as [|fuel IH]; intros k w Hk Hfuel; [lia|].
  pose proof (Nat.div_mod_eq (length data) 1024) as Hdm.
  pose proof (Nat.mod_upper_bound (length data) 1024 ltac:(lia)) as Hm.
  cbn [parse_pages]. unfold parse_bdb_page, scan_end.
  destruct (1024 * k <? length data)%nat eqn:E1.
  - apply Nat.ltb_lt in E1.
    destruct (length data <? 1024 * k + 1024)%nat eqn:E2.
    + apply Nat.ltb_lt in E2.
      replace (Nat.min (1024 * (length data / 1024)) (length data - 32)
               - 1024 * k)%nat with O by lia.
      reflexivity.
    + apply Nat.ltb_ge in E2.
      replace (1024 * k + 1024)%nat with (1024 * (k + 1))%nat by lia.
      assert (Hp : (k + 1 <= length data / 1024)%nat).
      { apply Nat.div_le_lower_bound; lia. }
      rewrite IH by lia. unfold scan_end.
      rewrite (scan_segments (length data) k) by lia.
      now rewrite fold_left_app.
  - apply Nat.ltb_ge in E1.
    replace (Nat.min (1024 * (length data / 1024)) (length data - 32)
             - 1024 * k)%nat with O by lia.
    reflexivity.
Qed.

(** The fuel [parse_bdb_file] gives the loop is enough: more fuel does
    not change the result. *)
Lemma parse_pages_fuel_enough (data : list byte) (fuel : nat) (w : BitcoinCoreWallet) :
  (parse_pages_fuel data <= fuel)%nat ->
  parse_pages fuel data 0 w = parse_pages (parse_pages_fuel data) data 0 w.
Proof.
  intros H. unfold parse_pages_fuel in *.
  pose proof (parse_pages_scan data fuel 0 w) as H1.
  pose proof (parse_pages_scan data (S (length data / 1024)) 0 w) as H2.
  rewrite Nat.mul_0_r in H1, H2.
  rewrite H1, H2 by lia. reflexivity.
Qed.

Lemma parse_pages_scan_all (data : list byte) (w : BitcoinCoreWallet) :
  parse_pages (parse_pages_fuel data) data 0 w
  = fold_left (scan_at data) (seq 0 (scan_end data)) w.
Proof.
  pose proof (parse_pages_scan data (parse_pages_fuel data) 0 w) as H.
  rewrite Nat.mul_0_r, Nat.sub_0_r in H.
  apply H; unfold parse_pages_fuel; lia.
Qed.

(** What one position does to each of the two registries. *)
Lemma scan_at_master_keys (data : list byte) (w : BitcoinCoreWallet) (i : nat) :
  master_keys_ (scan_at data w i)
  = if mkey_hit data i
    then StdMap.assign "default" (master_key_at data (i + 4)) (master_keys_ w)
    else master_keys_ w.
Proof.
  unfold scan_at, mkey_hit.
  destruct (marker_at data i "m" "k" "e" "y");
    destruct (marker_at data i "c" "k" "e" "y");
    cbn [andb];
    repeat match goal with
           | |- context [(?a <? ?b)%nat] => destruct (a <? b)%nat
           end; reflexivity.
Qed.

Lemma scan_at_crypted_keys (data : list byte) (w : BitcoinCoreWallet) (i : nat) :
  crypted_keys_ (scan_at data w i)
  = if ckey_hit data i
    then StdMap.assign (to_string (StdMap.size (crypted_keys_ w)))
           (crypted_key_at data (i + 4)) (crypted_keys_ w)
    else crypted_keys_ w.
Proof.
  unfold scan_at, ckey_hit.
  destruct (marker_at data i "m" "k" "e" "y");
    destruct (marker_at data i "c" "k" "e" "y");
    cbn [andb];
    repeat match goal with
           | |- context [(?a <? ?b)%nat] => destruct (a <? b)%nat
           end; reflexivity.
Qed.

(** The two registries after a run of positions, as folds over the
    records the scan meets. *)
Lemma scan_fold_master_keys (data : list byte) (l : list nat) (w : BitcoinCoreWallet) :
  master_keys_ (fold_left (scan_at data) l w)
  = fold_left (fun m mk => StdMap.assign "default" mk m)
      (map (fun i => master_key_at data (i + 4)) (filter (mkey_hit data) l))
      (master_keys_ w).
Proof.
  revert w. induction l as [|i l IH]; intros w; [reflexivity|].
  cbn [fold_left filter]. rewrite IH, scan_at_master_keys.
  destruct (mkey_hit data i); reflexivity.
Qed.

Lemma scan_fold_crypted_keys (data : list byte) (l : list nat) (w : BitcoinCoreWallet) :
  crypted_keys_ (fold_left (scan_at data) l w)
  = fold_left (fun m ck => StdMap.assign (to_string (StdMap.size m)) ck m)
      (map (fun i => crypted_key_at data (i + 4)) (filter (ckey_hit data) l))
      (crypted_keys_ w).
Proof.
  revert w. induction l as [|i l IH]; intros w; [reflexivity|].
  cbn [fold_left filter]. rewrite IH, scan_at_crypted_keys.
  destruct (ckey_hit data i); reflexivity.
Qed.

(** ** The registries after a parse *)

Lemma assign_not_empty {V} (k : string) (v : V) (m : StdMap.t V) :
  StdMap.is_empty (StdMap.assign k v m) = false.
Proof.
  destruct m as [|[k' v'] m]; [reflexivity|].
  cbn [StdMap.assign]. destruct (String.compare k k'); reflexivity.
Qed.

Lemma is_empty_size {V} (m : StdMap.t V) :
  StdMap.is_empty m = true <-> StdMap.size m = O.
Proof. destruct m; cbn; split; intros; (reflexivity || discriminate). Qed.

Lemma assign_default (mk : MasterKey) (m : StdMap.t MasterKey) :
  only_default m -> StdMap.assign "default" mk m = [("default"%string, mk)].
Proof. intros [-> | [mk' ->]]; reflexivity. Qed.

Lemma fold_assign_default (mks : list MasterKey) (m : StdMap.t MasterKey) :
  only_default m ->
  fold_left (fun m mk => StdMap.assign "default" mk m) mks m
  = match rev mks with
    | [] => m
    | mk :: _ => [("default"%string, mk)]
    end.
Proof.
  revert m. induction mks as [|mk mks IH]; intros m Hm; [reflexivity|].
  cbn [fold_left rev]. rewrite assign_default by exact Hm.
  rewrite IH by (right; eauto).
  destruct (rev mks); reflexivity.
Qed.

Lemma parse_bdb_file_scan (w : BitcoinCoreWallet) :
  header_ok (wallet_data_ w) = true ->
  parse_bdb_file w
  = let w' :=
      fold_left (scan_at (wallet_data_ w))
        (seq 0 (scan_end (wallet_data_ w))) w in
    (negb (StdMap.is_empty (master_keys_ w'))
     && negb (StdMap.is_empty (crypted_keys_ w')), w').
Proof.
  unfold header_ok, parse_bdb_file. intros H.
  apply andb_true_iff in H. destruct H as [H1 H2].
  apply negb_true_iff in H1. rewrite H1, H2. cbn [negb].
  now rewrite parse_pages_scan_all.
Qed.

Lemma parse_bdb_file_no_scan (w : BitcoinCoreWallet) :
  header_ok (wallet_data_ w) = false ->
  fst (parse_bdb_file w) = false
  /\ master_keys_ (snd (parse_bdb_file w)) = master_keys_ w
  /\ crypted_keys_ (snd (parse_bdb_file w)) = crypted_keys_ w.
Proof.
  unfold header_ok, parse_bdb_file. intros H.
  destruct (length (wallet_data_ w) <? sizeof_BDBHeader)%nat; [now cbn|].
  cbn [negb andb] in H. rewrite H. now cbn.
Qed.

Lemma parse_bdb_file_master_keys (w : BitcoinCoreWallet) :
  only_default (master_keys_ w) ->
  master_keys_ (snd (parse_bdb_file w))
  = if header_ok (wallet_data_ w)
    then match last_scanned_master_key (wallet_data_ w) with
         | Some mk => [("default"%string, mk)]
         | None => master_keys_ w
         end
    else master_keys_ w.
Proof.
  intros Hm. destruct (header_ok (wallet_data_ w)) eqn:Hh.
  - rewrite parse_bdb_file_scan by exact Hh. cbn [snd].
    rewrite scan_fold_master_keys, fold_assign_default by exact Hm.
    unfold last_scanned_master_key, scanned_master_keys.
    destruct (rev _); reflexivity.
  - now destruct (parse_bdb_file_no_scan w Hh) as (_ & -> & _).
Qed.

(** C4: a parse leaves at most one master-key record in the registry. It
    is stored under ["default"], and when the scan met master-key
    markers it is the record of the last one met, the earlier ones
    having been overwritten. *)
Theorem master_keys_at_most_one (w : BitcoinCoreWallet) :
  only_default (master_keys_ w) ->
  only_default (master_keys_ (snd (parse_bdb_file w)))
  /\ (StdMap.size (master_keys_ (snd (parse_bdb_file w))) <= 1)%nat
  /\ (header_ok (wallet_data_ w) = true ->
      forall mk, last_scanned_master_key (wallet_data_ w) = Some mk ->
      master_keys_ (snd (parse_bdb_file w)) = [("default"%string, mk)]).
Proof.
  intros Hm. rewrite parse_bdb_file_master_keys by exact Hm.
  assert (Hsize : forall m, only_default m -> (StdMap.size m <= 1)%nat).
  { intros m [-> | [mk ->]]; cbn; lia. }
  destruct (header_ok (wallet_data_ w)).
  - destruct (last_scanned_master_key (wallet_data_ w)) as [mk|].
    + assert (Ho : only_default [("default"%string, mk)]) by (right; eauto).
      repeat split; [exact Ho | apply Hsize, Ho |].
      intros _ mk' E. now injection E as ->.
    + repeat split; [exact Hm | apply Hsize, Hm | discriminate].
  - repeat split; [exact Hm | apply Hsize, Hm | discriminate].
Qed.

(** The encrypted-key registry numbers its records: every marker adds
    an entry. *)
Lemma fold_assign_numbered (cks : list CryptedKey) (m : StdMap.t CryptedKey) :
  numbered m ->
  numbered
    (fold_left (fun m ck => StdMap.assign (to_string (StdMap.size m)) ck m)
       cks m)
  /\ StdMap.size
       (fold_left (fun m ck => StdMap.assign (to_string (StdMap.size m)) ck m)
          cks m)
     = (StdMap.size m + length cks)%nat.
Proof.
  revert m. induction cks as [|ck cks IH]; intros m Hm.
  - cbn [fold_left length]. split; [exact Hm | lia].
  - cbn [fold_left length].
    assert (Hfresh : StdMap.find (to_string (StdMap.size m)) m = None).
    { destruct (StdMap.find (to_string (StdMap.size m)) m) eqn:E;
        [|reflexivity].
      destruct (Hm (to_string (StdMap.size m))) as (i & Hi & Heq);
        [congruence|].
      apply to_string_inj in Heq. lia. }
    pose proof (size_assign_fresh _ ck m Hfresh) as Hsize.
    destruct (IH (StdMap.assign (to_string (StdMap.size m)) ck m)) as [H1 H2].
    + intros k Hk. rewrite Hsize.
      destruct (String.eqb_spec k (to_string (StdMap.size m))) as [->|Hne].
      * exists (StdMap.size m). split; [lia | reflexivity].
      * rewrite find_assign_other in Hk by exact Hne.
        destruct (Hm k Hk) as (i & Hi & Heq). exists i. split; [lia|exact Heq].
    + split; [exact H1|]. rewrite H2, Hsize. lia.
Qed.

Lemma numbered_empty {V} : numbered (@StdMap.empty V).
Proof. intros k H. now elim H. Qed.

(** The registries [load] leaves in a new object, from what the scan
    meets in the buffer. *)
Lemma load_new_registries (fs : FileSystem) (file : string) :
  verify_file_access fs file = true ->
  valid_magic (read_file fs file) = true ->
  let data := read_file fs file in
  let r := load fs (new_BitcoinCoreWallet file) in
  fst r = negb (StdMap.is_empty (master_keys_ (snd r)))
          && negb (StdMap.is_empty (crypted_keys_ (snd r)))
  /\ master_keys_ (snd r)
     = match last_scanned_master_key data with
       | Some mk => [("default"%string, mk)]
       | None => []
       end
  /\ crypted_keys_ (snd r)
     = fold_left (fun m ck => StdMap.assign (to_string (StdMap.size m)) ck m)
         (scanned_crypted_keys data) [].
Proof.
  intros Hacc Hmagic data r. subst r. unfold load.
  cbn [loaded_ new_BitcoinCoreWallet wallet_file_]. rewrite Hacc. cbn [negb].
  fold data. fold data in Hmagic. clearbody data.
  set (w1 := set_wallet_data data (new_BitcoinCoreWallet file)).
  assert (Hne : match wallet_data_ w1 with [] => False | _ :: _ => True end).
  { change (wallet_data_ w1) with data.
    destruct data; [discriminate Hmagic | exact I]. }
  destruct (wallet_data_ w1) as [|b rest] eqn:Hw; [contradiction|].
  clear Hne Hw b rest.
  assert (Hd : wallet_data_ w1 = data) by reflexivity.
  destruct (header_ok data) eqn:Hh.
  - rewrite parse_bdb_file_scan by (rewrite Hd; exact Hh). cbv zeta.
    rewrite Hd.
    set (w2 := fold_left (scan_at data) (seq 0 (scan_end data)) w1).
    assert (Hmk : master_keys_ w2
                  = match last_scanned_master_key data with
                    | Some mk => [("default"%string, mk)]
                    | None => []
                    end).
    { unfold w2. rewrite scan_fold_master_keys.
      fold (scanned_master_keys data).
      rewrite fold_assign_default by (left; reflexivity).
      unfold last_scanned_master_key.
      destruct (rev (scanned_master_keys data)); reflexivity. }
    assert (Hck : crypted_keys_ w2
                  = fold_left
                      (fun m ck => StdMap.assign (to_string (StdMap.size m)) ck m)
                      (scanned_crypted_keys data) []).
    { unfold w2. rewrite scan_fold_crypted_keys. reflexivity. }
    destruct (negb (StdMap.is_empty (master_keys_ w2))
              && negb (StdMap.is_empty (crypted_keys_ w2))) eqn:Hok;
      cbn [negb fst snd master_keys_ crypted_keys_ set_loaded set_error];
      auto.
  - destruct (parse_bdb_file_no_scan w1) as (Hf & Hm & Hc).
    { rewrite Hd. exact Hh. }
    destruct (parse_bdb_file w1) as [ok w2]. cbn [fst snd] in *. subst ok.
    cbn [negb fst snd master_keys_ crypted_keys_ set_error].
    rewrite Hm, Hc. cbn [master_keys_ crypted_keys_ w1 set_wallet_data
                           new_BitcoinCoreWallet StdMap.is_empty StdMap.empty
                           negb andb].
    unfold header_ok in Hh. rewrite Hmagic, andb_true_r in Hh.
    apply negb_false_iff, Nat.ltb_lt in Hh.
    assert (Hse : scan_end data = O).
    { unfold scan_end, sizeof_BDBHeader in *.
      rewrite Nat.div_small by lia. lia. }
    unfold last_scanned_master_key, scanned_master_keys, scanned_crypted_keys.
    rewrite Hse. repeat split.
Qed.

(** The record counts after [load] on a new object: one master-key
    record at most, one encrypted-key record for each marker met. *)
Lemma load_new_counts (fs : FileSystem) (file : string) :
  verify_file_access fs file = true ->
  valid_magic (read_file fs file) = true ->
  let r := load fs (new_BitcoinCoreWallet file) in
  StdMap.size (master_keys_ (snd r))
  = Nat.min 1 (length (scanned_master_keys (read_file fs file)))
  /\ StdMap.size (crypted_keys_ (snd r))
     = length (scanned_crypted_keys (read_file fs file))
  /\ keys_sorted (crypted_keys_ (snd r)).
Proof.
  intros Hacc Hmagic r.
  destruct (load_new_registries fs file Hacc Hmagic) as (_ & Hmk & Hck).
  fold r in Hmk, Hck. rewrite Hmk, Hck. split; [|split].
  - unfold last_scanned_master_key.
    destruct (scanned_master_keys (read_file fs file)) as [|mk mks];
      [reflexivity|].
    cbn [rev length]. destruct (rev mks); reflexivity.
  - now destruct (fold_assign_numbered
                    (scanned_crypted_keys (read_file fs file)) []
                    numbered_empty) as [_ ->].
  - generalize (scanned_crypted_keys (read_file fs file)).
    assert (H0 : keys_sorted (@nil (string * CryptedKey))) by constructor.
    revert H0. generalize (@nil (string * CryptedKey)).
    intros m Hm cks. revert m Hm.
    induction cks as [|ck cks IH]; intros m Hm; [exact Hm|].
    cbn [fold_left]. apply IH. now apply assign_sorted.
Qed.

(** [load] keeps the master-key registry within the one key. *)
Lemma load_only_default (fs : FileSystem) (w : BitcoinCoreWallet) :
  only_default (master_keys_ w) ->
  only_default (master_keys_ (snd (load fs w))).
Proof.
  intros Hm. unfold load. destruct (loaded_ w); [exact Hm|].
  destruct (negb (verify_file_access fs (wallet_file_ w))); [exact Hm|].
  set (w1 := set_wallet_data _ w).
  destruct (wallet_data_ w1); [exact Hm|].
  pose proof (parse_bdb_file_master_keys w1 Hm) as H.
  destruct (parse_bdb_file w1) as [ok w2]. cbn [snd] in H.
  assert (Ho : only_default (master_keys_ w2)).
  { rewrite H. destruct (header_ok (wallet_data_ w1)); [|exact Hm].
    destruct (last_scanned_master_key (wallet_data_ w1)); [|exact Hm].
    right. eauto. }
  destruct ok; exact Ho.
Qed.

(** C1, as the code has it: with a valid magic number, [load] on a new
    object fails exactly when one of the two registries is empty at the
    end, and a buffer in which the scan finds a record of each kind loads
    successfully. *)
Theorem load_fails_iff_a_registry_empty (fs : FileSystem) (file : string) :
  verify_file_access fs file = true ->
  valid_magic (read_file fs file) = true ->
  let r := load fs (new_BitcoinCoreWallet file) in
  (fst r = false <->
   StdMap.size (master_keys_ (snd r)) = O
   \/ StdMap.size (crypted_keys_ (snd r)) = O)
  /\ (scanned_master_keys (read_file fs file) <> [] ->
      scanned_crypted_keys (read_file fs file) <> [] ->
      fst r = true).
Proof.
  intros Hacc Hmagic r.
  destruct (load_new_registries fs file Hacc Hmagic) as (Hr & _).
  destruct (load_new_counts fs file Hacc Hmagic) as (Hmk & Hck & _).
  fold r in Hr, Hmk, Hck. split.
  - rewrite <- !is_empty_size. rewrite Hr.
    destruct (StdMap.is_empty (master_keys_ (snd r)));
      destruct (StdMap.is_empty (crypted_keys_ (snd r)));
      cbn; intuition discriminate.
  - intros H1 H2. rewrite Hr.
    destruct (StdMap.is_empty (master_keys_ (snd r))) eqn:E1.
    { apply is_empty_size in E1. rewrite Hmk in E1.
      destruct (scanned_master_keys (read_file fs file));
        [contradiction | discriminate]. }
    destruct (StdMap.is_empty (crypted_keys_ (snd r))) eqn:E2.
    { apply is_empty_size in E2. rewrite Hck in E2.
      destruct (scanned_crypted_keys (read_file fs file));
        [contradiction | discriminate]. }
    reflexivity.
Qed.

Lemma load_fails_iff_a_registry_empty_witness :
  let r := load (one_file buffer_both) (new_BitcoinCoreWallet "wallet.dat") in
  fst r = true
  /\ StdMap.size (master_keys_ (snd r)) = 1%nat
  /\ StdMap.size (crypted_keys_ (snd r)) = 1%nat.
Proof.
  pose proof (load_fails_iff_a_registry_empty (one_file buffer_both)
                "wallet.dat" eq_refl ltac:(vm_compute; reflexivity)) as [_ H].
  split; [apply H; vm_compute; discriminate|].
  vm_compute. split; reflexivity.
Defined.

(** C1 as stated does not hold: a buffer with a valid magic number and a
    master-key record but no encrypted-key record fails to load, although
    the registry is not empty. *)
Lemma load_fails_with_a_master_key :
  ~ (forall (fs : FileSystem) (file : string),
        verify_file_access fs file = true ->
        valid_magic (read_file fs file) = true ->
        let r := load fs (new_BitcoinCoreWallet file) in
        fst r = false ->
        StdMap.size (master_keys_ (snd r)) = O
        /\ StdMap.size (crypted_keys_ (snd r)) = O).
Proof.
  intros H.
  specialize (H (one_file buffer_master_only) "wallet.dat"%string eq_refl
                ltac:(vm_compute; reflexivity) ltac:(vm_compute; reflexivity)).
  destruct H as [H _]. vm_compute in H. discriminate H.
Qed.

Lemma master_keys_at_most_one_witness :
  let w := set_wallet_data buffer_two_masters
             (new_BitcoinCoreWallet "wallet.dat") in
  map (fun p => (fst p, salt (snd p))) (master_keys_ (snd (parse_bdb_file w)))
  = [("default"%string, [x02; x00; x00; x00; x00; x00; x00; x00])].
Proof.
  intros w.
  destruct (master_keys_at_most_one w (or_introl eq_refl)) as (_ & _ & H).
  rewrite (H ltac:(vm_compute; reflexivity) _ ltac:(vm_compute; reflexivity)).
  vm_compute. reflexivity.
Defined.

(** ** The password test *)

Section OracleFacts.

Context {ssl : OpenSSL}.

Lemma any_master_key_decrypts_iff (password : string)
  (records : list (string * MasterKey)) :
  any_master_key_decrypts password records = true
  <-> exists id mk,
        In (id, mk) records
        /\ exists key, decrypt_master_key password mk = Some key.
Proof.
  induction records as [|[id mk] records IH]; cbn [any_master_key_decrypts snd].
  - split; [discriminate | intros (? & ? & [] & _)].
  - destruct (decrypt_master_key password mk) as [key|] eqn:E.
    + split; [|reflexivity]. intros _. exists id, mk. split; [now left|eauto].
    + rewrite IH. split.
      * intros (id' & mk' & Hin & Hk). exists id', mk'. split; [now right|easy].
      * intros (id' & mk' & [Heq|Hin] & key & Hk).
        -- injection Heq as -> ->. congruence.
        -- exists id', mk'. eauto.
Qed.

Lemma is_valid_inv (w : BitcoinCoreWallet) :
  is_valid w = true ->
  loaded_ w = true
  /\ StdMap.is_empty (master_keys_ w) = false
  /\ StdMap.is_empty (crypted_keys_ w) = false.
Proof.
  unfold is_valid. intros H.
  apply andb_true_iff in H. destruct H as [H H3].
  apply andb_true_iff in H. destruct H as [H1 H2].
  apply negb_true_iff in H2, H3. auto.
Qed.

Lemma load_true_is_valid (fs : FileSystem) (w w' : BitcoinCoreWallet) :
  loaded_ w = false -> load fs w = (true, w') -> is_valid w' = true.
Proof.
  unfold load. intros ->.
  destruct (negb (verify_file_access fs (wallet_file_ w))); [discriminate|].
  destruct (wallet_data_ _); [discriminate|].
  set (w1 := set_wallet_data _ w).
  unfold parse_bdb_file.
  destruct (length (wallet_data_ w1) <? sizeof_BDBHeader)%nat; [discriminate|].
  destruct (negb (valid_magic (wallet_data_ w1))); [discriminate|].
  set (w2 := parse_pages _ _ _ _).
  destruct (negb (StdMap.is_empty (master_keys_ w2))
            && negb (StdMap.is_empty (crypted_keys_ w2))) eqn:E;
    cbn [negb]; [|discriminate].
  intros H. injection H as <-. unfold is_valid.
  cbn [loaded_ master_keys_ crypted_keys_ set_loaded]. exact E.
Qed.

(** C2: on a loaded container, [test_password] returns true exactly when
    [decrypt_master_key] succeeds for some record of the master-key
    registry; when the registry holds a record (as it does after a
    successful [load]), the call leaves the object as it was whatever the
    password, so a wrong password shows as the returned [false] and
    nothing else (no error is recorded). *)
Theorem test_password_iff_a_master_key_decrypts (fs : FileSystem)
  (password : string) (w : BitcoinCoreWallet) :
  loaded_ w = true ->
  (fst (test_password fs password w) = true
   <-> exists id mk,
         In (id, mk) (master_keys_ w)
         /\ exists key, decrypt_master_key password mk = Some key)
  /\ (master_keys_ w <> [] -> snd (test_password fs password w) = w)
  /\ (is_valid w = true -> snd (test_password fs password w) = w).
Proof.
  intros Hl. unfold test_password. rewrite Hl. cbn [negb].
  destruct (master_keys_ w) as [|p m] eqn:Hm; cbn [StdMap.is_empty fst snd].
  - split; [|split].
    + split; [discriminate | intros (? & ? & [] & _)].
    + intros H. now elim H.
    + intros Hv. apply is_valid_inv in Hv. destruct Hv as (_ & He & _).
      rewrite Hm in He. discriminate He.
  - split; [apply any_master_key_decrypts_iff | split; reflexivity].
Qed.

End OracleFacts.

Lemma test_password_iff_a_master_key_decrypts_witness :
  fst (test_password (ssl := toy_openssl) (one_file []) "correct" toy_wallet) = true
  /\ fst (test_password (ssl := toy_openssl) (one_file []) "wrong" toy_wallet) = false
  /\ snd (test_password (ssl := toy_openssl) (one_file []) "wrong" toy_wallet)
     = toy_wallet.
Proof.
  pose proof (test_password_iff_a_master_key_decrypts (ssl := toy_openssl)
                (one_file []) "wrong" toy_wallet eq_refl) as (_ & _ & H).
  split; [vm_compute; reflexivity|].
  split; [vm_compute; reflexivity | exact (H eq_refl)].
Defined.

(** ** Private-key extraction *)

Section ExtractionFacts.

Context {ssl : OpenSSL}.

Lemma decrypt_private_key_guard (master_key : list byte) (crypted_key : CryptedKey) :
  length master_key <> 32%nat
  \/ (length (encrypted_private_key crypted_key) < 16)%nat ->
  decrypt_private_key master_key crypted_key = None.
Proof.
  intros H. unfold decrypt_private_key.
  destruct H as [H|H].
  - apply Nat.eqb_neq in H. rewrite H. reflexivity.
  - apply Nat.ltb_lt in H. rewrite H. now rewrite orb_true_r.
Qed.

Lemma extract_loop_app (w : BitcoinCoreWallet) (master_key : list byte)
  (a b : list (string * CryptedKey)) :
  extract_loop w master_key (a ++ b)
  = extract_loop w master_key a ++ extract_loop w master_key b.
Proof.
  induction a as [|p a IH]; [reflexivity|].
  cbn [app extract_loop]. rewrite IH.
  destruct (decrypt_private_key master_key (snd p)); [|reflexivity].
  now rewrite app_assoc.
Qed.

(** With the object loaded, [extract_private_keys] runs that loop over
    the registry under the first master key that decrypts. *)
Lemma extract_private_keys_loaded (fs : FileSystem) (password : string)
  (w : BitcoinCoreWallet) (master_key : list byte) :
  loaded_ w = true ->
  first_master_key password (master_keys_ w) = Some master_key ->
  extract_private_keys fs password w
  = (extract_loop w master_key (crypted_keys_ w), w).
Proof.
  intros Hl Hk. unfold extract_private_keys. rewrite Hl. cbn [negb].
  now rewrite Hk.
Qed.

(** C5: an encrypted-key record whose blob is shorter than 16 bytes, or
    that is processed with a master key that is not 32 bytes long, is
    not decrypted and adds no entry to the result; the records before and
    after it in the registry are extracted as they are without it, in the
    loop and so in what [extract_private_keys] returns. *)
Theorem malformed_record_is_skipped (w : BitcoinCoreWallet)
  (master_key : list byte) (id : string) (crypted_key : CryptedKey)
  (before after : list (string * CryptedKey)) :
  length master_key <> 32%nat
  \/ (length (encrypted_private_key crypted_key) < 16)%nat ->
  decrypt_private_key master_key crypted_key = None
  /\ extract_loop w master_key [(id, crypted_key)] = []
  /\ extract_loop w master_key (before ++ (id, crypted_key) :: after)
     = extract_loop w master_key before ++ extract_loop w master_key after
  /\ (forall fs password,
        loaded_ w = true ->
        first_master_key password (master_keys_ w) = Some master_key ->
        crypted_keys_ w = before ++ (id, crypted_key) :: after ->
        fst (extract_private_keys fs password w)
        = extract_loop w master_key before
          ++ extract_loop w master_key after).
Proof.
  intros H. pose proof (decrypt_private_key_guard _ _ H) as Hd.
  assert (Hloop : extract_loop w master_key (before ++ (id, crypted_key) :: after)
                  = extract_loop w master_key before
                    ++ extract_loop w master_key after).
  { rewrite extract_loop_app. cbn [extract_loop snd]. now rewrite Hd. }
  split; [exact Hd|]. split; [|split; [exact Hloop|]].
  - cbn [extract_loop snd]. now rewrite Hd.
  - intros fs password Hl Hk Hreg.
    rewrite (extract_private_keys_loaded fs password w master_key Hl Hk).
    cbn [fst]. now rewrite Hreg.
Qed.

End ExtractionFacts.

(** ** The master-key decryption *)

Lemma to_int_to_size_t (z : Z) : to_int (to_size_t z) = to_int z.
Proof.
  unfold to_int, to_size_t. f_equal.
  pose proof (Z.div_mod z (2 ^ 64) ltac:(lia)) as H.
  replace (z mod 2 ^ 64 + 2 ^ 31)
    with (z + 2 ^ 31 + (- (z / 2 ^ 64) * 2 ^ 32) * 2 ^ 32) by lia.
  apply Z_mod_plus_full.
Qed.

Lemma xor_bytes_length (a b : list byte) :
  length (xor_bytes a b) = Nat.min (length a) (length b).
Proof.
  revert b. induction a as [|x a IH]; intros [|y b]; cbn [xor_bytes length];
    try reflexivity.
  rewrite IH. reflexivity.
Qed.

Section DecryptionFacts.

Context {ssl : OpenSSL}.

Lemma cbc_decrypt_blocks_length (n : nat) (key iv data : list byte) :
  length iv = 16%nat -> (16 * n <= length data)%nat ->
  length (fst (cbc_decrypt_blocks n key iv data)) = (16 * n)%nat.
Proof.
  revert iv data. induction n as [|n IH]; intros iv data Hiv Hdata.
  - reflexivity.
  - cbn [cbc_decrypt_blocks].
    specialize (IH (firstn 16 data) (skipn 16 data)).
    destruct (cbc_decrypt_blocks n key (firstn 16 data) (skipn 16 data))
      as [ps iv'].
    cbn [fst] in *. rewrite length_app, xor_bytes_length.
    rewrite AES_256_decrypt_block_length, Hiv, IH.
    + lia.
    + rewrite length_firstn. lia.
    + rewrite length_skipn. lia.
Qed.

Lemma forallb_ext_in {A} (f g : A -> bool) (l : list A) :
  (forall x, f x = g x) -> forallb f l = forallb g l.
Proof.
  intros H. induction l as [|x l IH]; [reflexivity|].
  cbn [forallb]. now rewrite H, IH.
Qed.

Lemma byte_eqb_to_Z (x y : byte) :
  Byte.eqb x y = (byte_to_Z x =? byte_to_Z y).
Proof.
  destruct (Byte.eqb x y) eqn:E.
  - apply Byte.byte_dec_bl in E. subst. now rewrite Z.eqb_refl.
  - symmetry. apply Z.eqb_neq. intros H. apply byte_to_Z_inj in H.
    subst. rewrite (Byte.byte_dec_lb eq_refl) in E. discriminate.
Qed.

Lemma last_nth_16 (F : list byte) :
  length F = 16%nat -> last F x00 = nth 15 F x00.
Proof.
  intros H.
  do 16 (destruct F as [|? F]; [discriminate|]).
  destruct F; [reflexivity | discriminate].
Qed.

(** The padding check of [EVP_DecryptFinal_ex] on the held block is the
    padding removal on the whole plaintext. *)
Lemma final_is_remove_padding (key iv out F : list byte) :
  length F = 16%nat -> (length out mod 16 = 0)%nat ->
  match EVP_DecryptFinal_ex
          {| ctx_key := key; ctx_iv := iv; ctx_buf := [];
             ctx_final := Some F |} with
  | Some out_final => Some (out ++ out_final)
  | None => None
  end
  = remove_padding (Some (out ++ F)).
Proof.
  intros HF Hout. unfold EVP_DecryptFinal_ex, remove_padding.
  cbn [ctx_buf ctx_final]. cbv zeta.
  rewrite length_app, HF.
  assert (HFne : F <> []) by (intros ->; discriminate).
  rewrite last_app_nonempty by exact HFne.
  rewrite (last_nth_16 F HF).
  set (b := nth 15 F x00).
  pose proof (byte_to_Z_range b) as Hb.
  assert (E0 : (length out + 16 =? 0)%nat = false) by (apply Nat.eqb_neq; lia).
  assert (E1 : ((length out + 16) mod 16 =? 0)%nat = true).
  { apply Nat.eqb_eq.
    rewrite <- Nat.Div0.add_mod_idemp_l, Hout. reflexivity. }
  rewrite E0, E1. cbn [negb orb].
  assert (E2 : (Z.to_nat (byte_to_Z b) =? 0)%nat = (byte_to_Z b =? 0)).
  { destruct (byte_to_Z b =? 0) eqn:E.
    - apply Z.eqb_eq in E. rewrite E. reflexivity.
    - apply Z.eqb_neq in E. apply Nat.eqb_neq. lia. }
  assert (E3 : (16 <? Z.to_nat (byte_to_Z b))%nat = (16 <? byte_to_Z b)).
  { destruct (16 <? byte_to_Z b) eqn:E.
    - apply Z.ltb_lt in E. apply Nat.ltb_lt. lia.
    - apply Z.ltb_ge in E. apply Nat.ltb_ge. lia. }
  rewrite E2, E3.
  destruct ((byte_to_Z b =? 0) || (16 <? byte_to_Z b)) eqn:Eg; [reflexivity|].
  apply orb_false_iff in Eg. destruct Eg as [Eg1 Eg2].
  apply Z.eqb_neq in Eg1. apply Z.ltb_ge in Eg2.
  replace (length out + 16 - Z.to_nat (byte_to_Z b))%nat
    with (length out + (16 - Z.to_nat (byte_to_Z b)))%nat by lia.
  rewrite skipn_app, firstn_app.
  replace (length out + (16 - Z.to_nat (byte_to_Z b)) - length out)%nat
    with (16 - Z.to_nat (byte_to_Z b))%nat by lia.
  rewrite (@skipn_all2 _ _ out) by lia.
  rewrite (@firstn_all2 _ _ out) by lia. cbn [app].
  rewrite (forallb_ext_in (fun x => Byte.eqb x b)
             (fun x => byte_to_Z x =? byte_to_Z b))
    by (intros; apply byte_eqb_to_Z).
  destruct (forallb _ _); reflexivity.
Qed.

(** The three EVP calls, as both decryption functions make them, compute
    the CBC decryption of what follows the first 16 bytes and remove its
    padding. *)
Lemma evp_decrypt_is_remove_padding (key enc : list byte) :
  length key = 32%nat -> (16 < length enc)%nat ->
  Z.of_nat (length enc) - 16 <= INT_MAX ->
  match EVP_DecryptUpdate (EVP_DecryptInit_ex key enc) (skipn 16 enc)
          (to_int (to_size_t (Z.of_nat (length enc) - 16))) with
  | Some (ctx', out) =>
      match EVP_DecryptFinal_ex ctx' with
      | Some out_final => Some (out ++ out_final)
      | None => None
      end
  | None => None
  end
  = remove_padding (cbc_decrypt key (firstn 16 enc) (skipn 16 enc)).
Proof.
  intros Hkey Hlen Hmax. unfold INT_MAX in Hmax.
  rewrite to_int_to_size_t, to_int_small by lia.
  unfold EVP_DecryptUpdate, EVP_DecryptInit_ex.
  cbn [ctx_key ctx_iv ctx_buf ctx_final app].
  assert (E1 : (Z.of_nat (length enc) - 16 <? 0) = false)
    by (apply Z.ltb_ge; lia).
  assert (E2 : (Z.of_nat (length enc) - 16 =? 0) = false)
    by (apply Z.eqb_neq; lia).
  rewrite E1, E2.
  rewrite (@firstn_all2 _ _ (skipn 16 enc)) by (rewrite length_skipn; lia).
  rewrite (@firstn_all2 _ _ key) by lia.
  set (ct := skipn 16 enc). set (iv := firstn 16 enc).
  assert (Hct : length ct = (length enc - 16)%nat) by apply length_skipn.
  assert (Hiv : length iv = 16%nat).
  { unfold iv. rewrite length_firstn. lia. }
  set (n := (length ct / 16)%nat).
  pose proof (Nat.div_mod_eq (length ct) 16) as Hdm. fold n in Hdm.
  pose proof (cbc_decrypt_blocks_length n key iv ct Hiv ltac:(lia)) as Hpl.
  unfold cbc_decrypt. fold n.
  destruct (cbc_decrypt_blocks n key iv ct) as [plain iv'].
  cbn [fst] in *.
  destruct (Nat.eq_dec (length ct mod 16) 0) as [Hz|Hnz].
  - rewrite (@skipn_all2 _ _ ct) by lia.
    rewrite (proj2 (Nat.eqb_eq _ _) Hz).
    assert (Hn : (1 <= n)%nat) by lia.
    rewrite (final_is_remove_padding key iv').
    + now rewrite firstn_skipn.
    + rewrite length_skipn. lia.
    + rewrite length_firstn, Nat.min_l by lia.
      rewrite Nat.mul_comm. apply Nat.Div0.mod_mul.
  - rewrite (proj2 (Nat.eqb_neq _ _) Hnz).
    destruct (skipn (16 * n) ct) as [|x rest] eqn:Hs.
    + apply (f_equal (@length byte)) in Hs.
      rewrite length_skipn in Hs. cbn [length] in Hs. lia.
    + reflexivity.
Qed.

Lemma decrypt_master_key_is_spec_eq (password : string) (master_key : MasterKey) :
  Z.of_nat (length (encrypted_key master_key)) - 16 <= INT_MAX ->
  0 <= derive_iterations master_key <= INT_MAX ->
  decrypt_master_key password master_key
  = decrypt_master_key_spec password master_key.
Proof.
  intros Hmax Hiter. unfold INT_MAX in Hiter.
  assert (Hit : to_int (derive_iterations master_key)
                = derive_iterations master_key) by (apply to_int_small; lia).
  unfold decrypt_master_key, decrypt_master_key_spec, derive_key.
  rewrite Hit.
  destruct (PKCS5_PBKDF2_HMAC_SHA512 password (salt master_key)
              (derive_iterations master_key) 32) as [key|] eqn:Ek;
    [|reflexivity].
  apply PKCS5_PBKDF2_HMAC_length in Ek. rewrite Ek. cbn [Nat.eqb negb].
  cbv zeta.
  destruct (Nat.le_gt_cases (length (encrypted_key master_key)) 16)
    as [Hle|Hgt].
  - rewrite to_int_to_size_t, to_int_small by (unfold INT_MAX in Hmax; lia).
    rewrite (@skipn_all2 _ _ (encrypted_key master_key)) by exact Hle.
    unfold EVP_DecryptUpdate.
    destruct (Z.ltb_spec
                (Z.of_nat (length (encrypted_key master_key)) - 16) 0);
      [reflexivity|].
    destruct (Z.eqb_spec
                (Z.of_nat (length (encrypted_key master_key)) - 16) 0);
      [reflexivity | lia].
  - now apply evp_decrypt_is_remove_padding.
Qed.

(** C3: [decrypt_master_key] derives the key from the password with the
    record's salt and iteration count, the key has 32 bytes, and the
    function returns what is left of the CBC decryption, under that key
    and with the first 16 bytes of the blob as IV, of the remaining bytes
    of the blob once the padding is removed; it fails exactly when the
    derivation fails or the padding cannot be removed. The blob length
    and the iteration count are taken to fit the [int] parameters of the
    library calls. *)
Theorem decrypt_master_key_is_spec (password : string) (master_key : MasterKey) :
  Z.of_nat (length (encrypted_key master_key)) - 16 <= INT_MAX ->
  0 <= derive_iterations master_key <= INT_MAX ->
  decrypt_master_key password master_key
  = decrypt_master_key_spec password master_key
  /\ (forall key,
        PKCS5_PBKDF2_HMAC_SHA512 password (salt master_key)
          (derive_iterations master_key) 32 = Some key ->
        derive_key password (salt master_key) (derive_iterations master_key)
        = key
        /\ length key = 32%nat).
Proof.
  intros Hmax Hiter. unfold INT_MAX in Hiter.
  assert (Hit : to_int (derive_iterations master_key)
                = derive_iterations master_key) by (apply to_int_small; lia).
  split.
  - apply decrypt_master_key_is_spec_eq; [exact Hmax | unfold INT_MAX; lia].
  - intros key Ek. unfold derive_key. rewrite Hit, Ek.
    split; [reflexivity|]. now apply PKCS5_PBKDF2_HMAC_length in Ek.
Qed.

(** *** The records the parser builds *)

Lemma slice_length (data : list byte) (from to : nat) :
  (to <= length data)%nat -> length (slice data from to) = (to - from)%nat.
Proof.
  intros H. unfold slice. rewrite length_firstn, length_skipn. lia.
Qed.

Lemma slice_length_le (data : list byte) (from to : nat) :
  (length (slice data from to) <= to - from)%nat.
Proof. unfold slice. rewrite length_firstn. lia. Qed.

(** A record read where the parser reads one has an 8-byte salt and a
    48-byte blob, and meets the side conditions of
    [decrypt_master_key_is_spec]. *)
Lemma master_key_at_shape (data : list byte) (key_start : nat) :
  (key_start + 64 < length data)%nat ->
  length (salt (master_key_at data key_start)) = 8%nat
  /\ length (encrypted_key (master_key_at data key_start)) = 48%nat
  /\ derive_iterations (master_key_at data key_start) = 25000.
Proof.
  intros H. cbn [master_key_at salt encrypted_key derive_iterations].
  rewrite !slice_length by lia. repeat split; lia.
Qed.

Lemma crypted_key_at_shape (data : list byte) (key_start : nat) :
  (key_start + 80 < length data)%nat ->
  length (public_key (crypted_key_at data key_start)) = 33%nat
  /\ length (encrypted_private_key (crypted_key_at data key_start)) = 48%nat.
Proof.
  intros H. cbn [crypted_key_at public_key encrypted_private_key].
  rewrite !slice_length by lia. split; lia.
Qed.

Lemma master_key_at_fits (data : list byte) (key_start : nat) :
  Z.of_nat (length (encrypted_key (master_key_at data key_start))) - 16
  <= INT_MAX
  /\ 0 <= derive_iterations (master_key_at data key_start) <= INT_MAX.
Proof.
  cbn [master_key_at encrypted_key derive_iterations].
  pose proof (slice_length_le data (key_start + 8) (key_start + 56)).
  unfold INT_MAX. lia.
Qed.

(** Padding removal takes at least one byte off. *)
Lemma remove_padding_shorter (plain out : list byte) :
  remove_padding (Some plain) = Some out -> (length out < length plain)%nat.
Proof.
  unfold remove_padding.
  destruct ((length plain =? 0)%nat
            || negb (length plain mod 16 =? 0)%nat) eqn:E; [discriminate|].
  apply orb_false_iff in E. destruct E as [E _]. apply Nat.eqb_neq in E.
  set (n := Z.to_nat (byte_to_Z (last plain x00))).
  destruct ((n =? 0)%nat || (16 <? n)%nat) eqn:En; [discriminate|].
  apply orb_false_iff in En. destruct En as [En _]. apply Nat.eqb_neq in En.
  destruct (forallb _ _); [|discriminate].
  intros H. injection H as <-. rewrite length_firstn. lia.
Qed.

(** What [decrypt_master_key] returns is shorter than the ciphertext. *)
Lemma decrypt_master_key_shorter (password : string) (master_key : MasterKey)
  (decrypted_key : list byte) :
  Z.of_nat (length (encrypted_key master_key)) - 16 <= INT_MAX ->
  0 <= derive_iterations master_key <= INT_MAX ->
  decrypt_master_key password master_key = Some decrypted_key ->
  (length decrypted_key + 16 < length (encrypted_key master_key))%nat.
Proof.
  intros Hmax Hiter H.
  rewrite (decrypt_master_key_is_spec_eq password master_key Hmax Hiter) in H.
  unfold decrypt_master_key_spec in H.
  destruct (PKCS5_PBKDF2_HMAC_SHA512 password (salt master_key)
              (derive_iterations master_key) 32) as [key|] eqn:Ek;
    [|discriminate].
  apply PKCS5_PBKDF2_HMAC_length in Ek.
  unfold cbc_decrypt in H.
  destruct (length (skipn 16 (encrypted_key master_key)) mod 16 =? 0)%nat
    eqn:Em; [|discriminate].
  apply Nat.eqb_eq in Em. apply remove_padding_shorter in H.
  pose proof (Nat.div_mod_eq (length (skipn 16 (encrypted_key master_key))) 16)
    as Hdm.
  destruct (Nat.le_gt_cases (length (encrypted_key master_key)) 16) as [Hle|Hgt].
  - rewrite (@skipn_all2 _ _ (encrypted_key master_key)) in H by exact Hle.
    cbn in H. lia.
  - rewrite cbc_decrypt_blocks_length in H.
    + rewrite length_skipn in *. lia.
    + rewrite length_firstn. lia.
    + lia.
Qed.

(** A master key decrypted from a record of the parser has fewer than
    32 bytes, so [decrypt_private_key] turns every record down under it
    and the extraction loop returns nothing. *)
Lemma parsed_master_key_extracts_nothing (data : list byte) (key_start : nat)
  (password : string) (decrypted_key : list byte) (w : BitcoinCoreWallet)
  (records : list (string * CryptedKey)) :
  decrypt_master_key password (master_key_at data key_start)
  = Some decrypted_key ->
  (length decrypted_key < 32)%nat
  /\ extract_loop w decrypted_key records = [].
Proof.
  intros H.
  destruct (master_key_at_fits data key_start) as [Hmax Hiter].
  apply decrypt_master_key_shorter in H; [|exact Hmax|exact Hiter].
  pose proof (slice_length_le data (key_start + 8) (key_start + 56)) as Hs.
  cbn [master_key_at encrypted_key] in H.
  assert (Hlen : (length decrypted_key < 32)%nat) by lia.
  split; [exact Hlen|].
  induction records as [|p records IH]; [reflexivity|].
  cbn [extract_loop]. unfold decrypt_private_key.
  destruct (Nat.eqb_spec (length decrypted_key) 32) as [E|E]; [lia|].
  exact IH.
Qed.

End DecryptionFacts.

(** ** Balance lookups *)

Section BalanceFacts.

Context {json : JsonCpp} {net : Network}.






Lemma check_balances_loop_snoc (w : BitcoinCoreWallet)
  (keys : list PrivateKeyInfo) (key_info : PrivateKeyInfo) (world : World) :
  check_balances_loop w (keys ++ [key_info]) world
  = check_balances_step w (check_balances_loop w keys world) key_info.
Proof. unfold check_balances_loop. now rewrite fold_left_app. Qed.








End BalanceFacts.

(** ** The theorems at work on small inputs *)

Lemma wif_round_trip_witness :
  wif_decode (ssl := toy_openssl)
    (private_key_to_wif (ssl := toy_openssl) false (repeat x11 32) true)
  = Some (x80, repeat x11 32, true).
Proof.
  apply (wif_round_trip (ssl := toy_openssl) false (repeat x11 32) true).
  reflexivity.
Defined.

Lemma decrypt_master_key_is_spec_witness :
  decrypt_master_key (ssl := toy_openssl) "correct" toy_master_key
  = Some (repeat x00 32)
  /\ decrypt_master_key_spec (ssl := toy_openssl) "correct" toy_master_key
     = Some (repeat x00 32).
Proof.
  destruct (decrypt_master_key_is_spec (ssl := toy_openssl) "correct" toy_master_key)
    as [H _].
  - vm_compute. intros H; discriminate H.
  - split; vm_compute; intros H; discriminate H.
  - rewrite <- H. vm_compute. split; reflexivity.
Defined.

Lemma malformed_record_is_skipped_witness :
  map address
    (fst (extract_private_keys (ssl := toy_openssl) (one_file []) "correct"
            toy_wallet))
  = map address
      (extract_loop (ssl := toy_openssl) toy_wallet (repeat x00 32)
         [("0"%string, toy_crypted_key)]
       ++ extract_loop (ssl := toy_openssl) toy_wallet (repeat x00 32)
            [("2"%string, toy_crypted_key)])
  /\ length
       (extract_loop (ssl := toy_openssl) toy_wallet (repeat x00 32)
          [("0"%string, toy_crypted_key)]) = 2%nat.
Proof.
  destruct (malformed_record_is_skipped (ssl := toy_openssl) toy_wallet
              (repeat x00 32) "1" toy_short_crypted_key
              [("0"%string, toy_crypted_key)] [("2"%string, toy_crypted_key)])
    as (_ & _ & _ & H).
  - right. vm_compute. lia.
  - rewrite (H (one_file []) "correct"%string eq_refl
               ltac:(vm_compute; reflexivity) eq_refl).
    split; [reflexivity | vm_compute; reflexivity].
Defined.






Lemma load_idempotent_witness :
  let w := snd (load (one_file buffer_both) (new_BitcoinCoreWallet "wallet.dat")) in
  load (one_file []) w = (true, w).
Proof.
  intros w.
  apply (load_idempotent (one_file buffer_both) (one_file [])
           (new_BitcoinCoreWallet "wallet.dat") w).
  vm_compute. reflexivity.
Defined.

(* ===================================================================== *)
(** * Part III: further properties of the code *)
(* ===================================================================== *)

(** ** Base58 *)

(** The encoder never writes two inputs to the same string. *)
Theorem base58_encode_injective (a b : list byte) :
  base58_encode a = base58_encode b -> a = b.
Proof.
  intros H. apply (f_equal base58_decode) in H.
  rewrite !base58_decode_encode in H. now injection H.
Qed.

Lemma base58_char_in_alphabet (d : Z) :
  0 <= d < 58 -> In (base58_char d) (list_ascii_of_string base58_alphabet).
Proof.
  intros Hd. unfold base58_char. apply nth_In.
  change (length (list_ascii_of_string base58_alphabet)) with 58%nat. lia.
Qed.

(** Every character written is one of the 58 of the alphabet; the
    characters [0], [O], [I] and [l] never appear. *)
Theorem base58_encode_alphabet (data : list byte) (c : ascii) :
  In c (list_ascii_of_string (base58_encode data)) ->
  In c (list_ascii_of_string base58_alphabet)
  /\ c <> "0"%char /\ c <> "O"%char /\ c <> "I"%char /\ c <> "l"%char.
Proof.
  intros Hin.
  assert (Ha : In c (list_ascii_of_string base58_alphabet)).
  { rewrite base58_encode_chars in Hin. apply in_app_or in Hin.
    destruct Hin as [Hin|Hin].
    - apply repeat_spec in Hin. subst c. vm_compute. now left.
    - apply in_map_iff in Hin. destruct Hin as (d & <- & Hd).
      destruct (base58_digits_rev_hd data) as [Hf _].
      rewrite Forall_forall in Hf. apply base58_char_in_alphabet.
      exact (Hf d Hd). }
  split; [exact Ha|].
  assert (Hforall : Forall (fun x => x <> "0"%char /\ x <> "O"%char
                                     /\ x <> "I"%char /\ x <> "l"%char)
                      (list_ascii_of_string base58_alphabet)).
  { vm_compute. repeat constructor; discriminate. }
  rewrite Forall_forall in Hforall. exact (Hforall c Ha).
Qed.

Lemma leading_zeros_repeat (n : nat) : leading_zeros (repeat x00 n) = n.
Proof. induction n as [|n IH]; [reflexivity|]. cbn. now rewrite IH. Qed.

Lemma string_of_list_ascii_nil (l : list ascii) :
  string_of_list_ascii l = EmptyString -> l = [].
Proof. destruct l; [reflexivity | discriminate]. Qed.

(** The empty string is written for the empty input only, and an input
    of [n] zero bytes is written as [n] characters ['1']. *)
Theorem base58_encode_empty_and_zeros (data : list byte) (n : nat) :
  (base58_encode data = EmptyString <-> data = [])
  /\ base58_encode (repeat x00 n) = string_of_list_ascii (repeat "1"%char n).
Proof.
  split.
  - split; [|intros ->; reflexivity].
    intros H. apply (f_equal base58_decode) in H.
    rewrite base58_decode_encode in H.
    change (base58_decode EmptyString) with (Some (@nil byte)) in H.
    now injection H.
  - unfold base58_encode, base58_digits.
    rewrite leading_zeros_repeat.
    replace (skipn n (repeat x00 n)) with (@nil byte).
    + cbn [fold_left rev map]. now rewrite app_nil_r.
    + symmetry. apply skipn_all2. now rewrite repeat_length.
Qed.

(** *** The first character and the length of an encoding *)

Section LeadingDigit.

Variable B : Z.
Hypothesis B_gt_1 : 1 < B.

Lemma value_le_upper (ds : list Z) :
  Forall (is_digit B) ds -> value_le B ds < B ^ Z.of_nat (length ds).
Proof.
  induction 1 as [|d ds Hd _ IH]; cbn [length value_le].
  - rewrite Z.pow_0_r. lia.
  - rewrite Nat2Z.inj_succ, Z.pow_succ_r by lia.
    unfold is_digit in Hd. nia.
Qed.

Lemma value_be_cons (d : Z) (ds : list Z) :
  value_be B (d :: ds) = d * B ^ Z.of_nat (length ds) + value_be B ds.
Proof.
  rewrite <- (rev_involutive (d :: ds)), value_be_rev.
  cbn [rev]. rewrite value_le_app, length_rev. cbn [value_le].
  rewrite <- (value_be_rev B (rev ds)), rev_involutive. ring.
Qed.

Lemma value_be_range (ds : list Z) :
  Forall (is_digit B) ds -> 0 <= value_be B ds < B ^ Z.of_nat (length ds).
Proof.
  intros H. pose proof (value_be_rev B (rev ds)) as E.
  rewrite rev_involutive in E. rewrite E, <- (length_rev ds).
  apply Forall_rev in H. split.
  - now apply value_le_nonneg.
  - now apply value_le_upper.
Qed.

(** A canonical numeral whose value lies in [[lo * B^k, hi * B^k)] has
    [k + 1] digits, the most significant of which lies in [[lo, hi)]. *)
Lemma canonical_leading_digit (ds : list Z) (k : nat) (lo hi : Z) :
  Forall (is_digit B) ds -> canonical_le ds ->
  1 <= lo -> hi <= B ->
  lo * B ^ Z.of_nat k <= value_le B ds < hi * B ^ Z.of_nat k ->
  length ds = S k /\ lo <= last ds 1 < hi.
Proof.
  intros Hf Hc Hlo Hhi Hv.
  assert (Hk : 0 < B ^ Z.of_nat k) by (apply Z.pow_pos_nonneg; lia).
  destruct ds as [|d0 ds0] using rev_ind.
  { cbn [value_le] in Hv. nia. }
  clear IHds0.
  apply Forall_app in Hf. destruct Hf as [Hf Hd].
  inversion Hd as [|? ? Hd0 _]; subst. unfold is_digit in Hd0.
  unfold canonical_le in Hc. rewrite last_last in *.
  rewrite value_le_app in Hv. cbn [value_le] in Hv.
  pose proof (value_le_nonneg B ltac:(lia) ds0 Hf) as Hlow0.
  pose proof (value_le_upper ds0 Hf) as Hlow1.
  set (n := length ds0) in *.
  assert (Hn : 0 < B ^ Z.of_nat n) by (apply Z.pow_pos_nonneg; lia).
  assert (Hnk : n = k).
  { destruct (Nat.lt_trichotomy n k) as [Hlt|[Heq|Hgt]]; [|exact Heq|].
    - assert (B ^ Z.of_nat (S n) <= B ^ Z.of_nat k)
        by (apply Z.pow_le_mono_r; lia).
      rewrite Nat2Z.inj_succ, Z.pow_succ_r in H by lia. nia.
    - assert (B ^ Z.of_nat (S k) <= B ^ Z.of_nat n)
        by (apply Z.pow_le_mono_r; lia).
      rewrite Nat2Z.inj_succ, Z.pow_succ_r in H by lia. nia. }
  rewrite length_app. cbn [length]. fold n. split; [lia|].
  subst n. rewrite Hnk in *. nia.
Qed.

End LeadingDigit.

Lemma string_length_list (s : string) :
  String.length s = length (list_ascii_of_string s).
Proof. induction s as [|c s IH]; [reflexivity|]. cbn. now rewrite IH. Qed.

Lemma string_get_0 (s : string) :
  String.get 0 s = hd_error (list_ascii_of_string s).
Proof. destruct s; reflexivity. Qed.

(** An input that starts with the non-zero byte [b], followed by [m]
    bytes, is written as [k + 1] characters, the first of which is the
    character of a digit in [[lo, hi)], when [b * 256^m] and
    [(b + 1) * 256^m] lie between [lo * 58^k] and [hi * 58^k]. *)
Lemma base58_encode_leading (b : byte) (rest : list byte) (k : nat) (lo hi : Z) :
  b <> x00 -> 1 <= lo -> hi <= 58 ->
  lo * 58 ^ Z.of_nat k <= byte_to_Z b * 256 ^ Z.of_nat (length rest) ->
  (byte_to_Z b + 1) * 256 ^ Z.of_nat (length rest) <= hi * 58 ^ Z.of_nat k ->
  String.length (base58_encode (b :: rest)) = S k
  /\ exists d, lo <= d < hi
               /\ String.get 0 (base58_encode (b :: rest))
                  = Some (base58_char d).
Proof.
  intros Hb Hlo Hhi H1 H2.
  assert (Hlz : leading_zeros (b :: rest) = O).
  { destruct b; try reflexivity. now elim Hb. }
  destruct (base58_digits_spec (b :: rest)) as (Hf & Hc & Hv).
  rewrite Hlz in Hv. cbn [skipn map] in Hv.
  rewrite (value_be_cons 256), length_map in Hv.
  pose proof (value_be_range 256 ltac:(lia) _ (Forall_byte_digit rest)) as Hr.
  rewrite length_map in Hr.
  destruct (canonical_leading_digit 58 ltac:(lia) (base58_digits (b :: rest))
              k lo hi Hf Hc Hlo Hhi) as [Hlen Hlast].
  { rewrite Hv. lia. }
  rewrite string_length_list, string_get_0, base58_encode_chars, Hlz.
  cbn [repeat app]. rewrite length_map, length_rev. split; [exact Hlen|].
  exists (last (base58_digits (b :: rest)) 1). split; [exact Hlast|].
  rewrite <- hd_rev_last.
  destruct (rev (base58_digits (b :: rest))) as [|d ds] eqn:E.
  - apply (f_equal (@length Z)) in E. rewrite length_rev, Hlen in E.
    discriminate.
  - reflexivity.
Qed.

(** The same with the bounds as a test that can be run. *)
Lemma base58_encode_leading_test (b : byte) (rest : list byte) (m k : nat)
  (lo hi : Z) :
  length rest = m -> b <> x00 ->
  (1 <=? lo) && (hi <=? 58)
  && (lo * 58 ^ Z.of_nat k <=? byte_to_Z b * 256 ^ Z.of_nat m)
  && ((byte_to_Z b + 1) * 256 ^ Z.of_nat m <=? hi * 58 ^ Z.of_nat k) = true ->
  String.length (base58_encode (b :: rest)) = S k
  /\ exists d, lo <= d < hi
               /\ String.get 0 (base58_encode (b :: rest))
                  = Some (base58_char d).
Proof.
  intros Hm Hb Ht.
  apply andb_true_iff in Ht. destruct Ht as [Ht H4].
  apply andb_true_iff in Ht. destruct Ht as [Ht H3].
  apply andb_true_iff in Ht. destruct Ht as [H1 H2].
  apply Z.leb_le in H1, H2, H3, H4. subst m.
  now apply base58_encode_leading.
Qed.

(** ** Key formats *)

Lemma app_inv_tail_length {A} (a b c d : list A) :
  length b = length d -> a ++ b = c ++ d -> a = c /\ b = d.
Proof.
  intros Hlen H.
  assert (Hac : length a = length c).
  { apply (f_equal (@length A)) in H. rewrite !length_app in H. lia. }
  split.
  - apply (f_equal (firstn (length a))) in H.
    rewrite firstn_app, firstn_all, Nat.sub_diag, firstn_O, app_nil_r in H.
    rewrite Hac, firstn_app, firstn_all, Nat.sub_diag, firstn_O, app_nil_r in H.
    exact H.
  - apply (f_equal (skipn (length a))) in H.
    rewrite skipn_app, skipn_all, Nat.sub_diag, skipn_O in H.
    rewrite Hac, skipn_app, skipn_all, Nat.sub_diag, skipn_O in H.
    exact H.
Qed.

Section KeyFormatFacts.

Context {ssl : OpenSSL}.

(** [private_key_to_wif] returns the empty string exactly for a key
    that is not 32 bytes long. For a 32-byte key the string has 51
    characters, or 52 when compressed, and starts with [5] (mainnet),
    [K] or [L] (mainnet, compressed), [9] (testnet) or [c] (testnet,
    compressed). *)
Theorem private_key_to_wif_format (testnet_mode : bool)
  (private_key : list byte) (compressed : bool) :
  (private_key_to_wif testnet_mode private_key compressed = EmptyString
   <-> length private_key <> 32%nat)
  /\ (length private_key = 32%nat ->
      String.length (private_key_to_wif testnet_mode private_key compressed)
      = (if compressed then 52%nat else 51%nat)
      /\ exists c,
           String.get 0 (private_key_to_wif testnet_mode private_key compressed)
           = Some c
           /\ match testnet_mode, compressed with
              | false, false => c = "5"%char
              | false, true => c = "K"%char \/ c = "L"%char
              | true, false => c = "9"%char
              | true, true => c = "c"%char
              end).
Proof.
  assert (Hfmt : length private_key = 32%nat ->
      String.length (private_key_to_wif testnet_mode private_key compressed)
      = (if compressed then 52%nat else 51%nat)
      /\ exists c,
           String.get 0 (private_key_to_wif testnet_mode private_key compressed)
           = Some c
           /\ match testnet_mode, compressed with
              | false, false => c = "5"%char
              | false, true => c = "K"%char \/ c = "L"%char
              | true, false => c = "9"%char
              | true, true => c = "c"%char
              end).
  { intros Hlen. unfold private_key_to_wif. rewrite Hlen.
    cbn [Nat.eqb negb]. cbv zeta. cbn [app].
    set (chk := firstn 4 (SHA256 (SHA256 _))).
    assert (Hchk : length chk = 4%nat) by apply checksum_length.
    destruct testnet_mode, compressed.
    - destruct (base58_encode_leading_test xef ((private_key ++ [x01]) ++ chk)
                  37 51 35 36) as [Hl (d & Hd & Hg)];
        [rewrite !length_app, Hlen, Hchk; reflexivity | discriminate
        | vm_compute; reflexivity |].
      split; [exact Hl|]. exists (base58_char d). split; [exact Hg|].
      assert (d = 35) as -> by lia. reflexivity.
    - rewrite app_nil_r.
      destruct (base58_encode_leading_test xef (private_key ++ chk)
                  36 50 8 9) as [Hl (d & Hd & Hg)];
        [rewrite !length_app, Hlen, Hchk; reflexivity | discriminate
        | vm_compute; reflexivity |].
      split; [exact Hl|]. exists (base58_char d). split; [exact Hg|].
      assert (d = 8) as -> by lia. reflexivity.
    - destruct (base58_encode_leading_test x80 ((private_key ++ [x01]) ++ chk)
                  37 51 18 20) as [Hl (d & Hd & Hg)];
        [rewrite !length_app, Hlen, Hchk; reflexivity | discriminate
        | vm_compute; reflexivity |].
      split; [exact Hl|]. exists (base58_char d). split; [exact Hg|].
      assert (d = 18 \/ d = 19) as [-> | ->] by lia; [now left | now right].
    - rewrite app_nil_r.
      destruct (base58_encode_leading_test x80 (private_key ++ chk)
                  36 50 4 5) as [Hl (d & Hd & Hg)];
        [rewrite !length_app, Hlen, Hchk; reflexivity | discriminate
        | vm_compute; reflexivity |].
      split; [exact Hl|]. exists (base58_char d). split; [exact Hg|].
      assert (d = 4) as -> by lia. reflexivity. }
  split; [|exact Hfmt].
  split.
  - intros He Hlen. destruct (Hfmt Hlen) as [Hl _]. rewrite He in Hl.
    destruct compressed; discriminate Hl.
  - intros Hne. unfold private_key_to_wif.
    apply Nat.eqb_neq in Hne. now rewrite Hne.
Qed.

(** Two WIF strings written for 32-byte keys are equal only when the
    network, the key and the compression flag are. *)
Theorem private_key_to_wif_injective (t1 t2 : bool) (k1 k2 : list byte)
  (c1 c2 : bool) :
  length k1 = 32%nat -> length k2 = 32%nat ->
  private_key_to_wif t1 k1 c1 = private_key_to_wif t2 k2 c2 ->
  t1 = t2 /\ k1 = k2 /\ c1 = c2.
Proof.
  intros H1 H2. unfold private_key_to_wif. rewrite H1, H2.
  cbn [Nat.eqb negb]. cbv zeta. intros H.
  apply (f_equal base58_decode) in H.
  rewrite !base58_decode_encode in H.
  assert (Hs : forall x y : list byte, Some x = Some y -> x = y)
    by (intros x y E; now injection E).
  apply Hs in H. clear Hs.
  apply app_inv_tail_length in H; [|now rewrite !checksum_length].
  destruct H as [H _]. cbn [app] in H. injection H as Hv Hk.
  assert (Hf : length (if c1 then [x01] else [])
               = length (if c2 then [x01] else @nil byte)).
  { apply (f_equal (@length byte)) in Hk. rewrite !length_app in Hk. lia. }
  apply app_inv_tail_length in Hk; [|exact Hf].
  destruct Hk as [Hk _]. repeat split; [|exact Hk|].
  - destruct t1, t2; (reflexivity || discriminate Hv).
  - destruct c1, c2; (reflexivity || discriminate Hf).
Qed.

End KeyFormatFacts.

Section AddressFacts.

Context {ssl : OpenSSL}.

(** [public_key_to_address] returns the empty string exactly for the
    empty public key. Otherwise a mainnet address starts with [1], and a
    testnet address has 34 characters and starts with [m] or [n]. *)
Theorem public_key_to_address_format (testnet_mode : bool)
  (public_key : list byte) (compressed : bool) :
  (public_key_to_address testnet_mode public_key compressed = EmptyString
   <-> public_key = [])
  /\ (public_key <> [] -> testnet_mode = false ->
      String.get 0 (public_key_to_address testnet_mode public_key compressed)
      = Some "1"%char)
  /\ (public_key <> [] -> testnet_mode = true ->
      String.length (public_key_to_address testnet_mode public_key compressed)
      = 34%nat
      /\ exists c,
           String.get 0
             (public_key_to_address testnet_mode public_key compressed)
           = Some c
           /\ (c = "m"%char \/ c = "n"%char)).
Proof.
  assert (Hmain : public_key <> [] -> testnet_mode = false ->
      String.get 0 (public_key_to_address testnet_mode public_key compressed)
      = Some "1"%char).
  { intros Hne ->. unfold public_key_to_address.
    destruct public_key as [|p pk]; [now elim Hne|]. cbv zeta. cbn [app].
    rewrite string_get_0, base58_encode_chars. reflexivity. }
  assert (Htest : public_key <> [] -> testnet_mode = true ->
      String.length (public_key_to_address testnet_mode public_key compressed)
      = 34%nat
      /\ exists c,
           String.get 0
             (public_key_to_address testnet_mode public_key compressed)
           = Some c
           /\ (c = "m"%char \/ c = "n"%char)).
  { intros Hne ->. unfold public_key_to_address.
    destruct public_key as [|p pk]; [now elim Hne|]. cbv zeta. cbn [app].
    match goal with
    | |- context [RIPEMD160 (SHA256 ?p)] => set (pub_key := p)
    end.
    set (chk := firstn 4 (SHA256 (SHA256 _))).
    destruct (base58_encode_leading_test x6f
                (firstn 20 (RIPEMD160 (SHA256 pub_key)) ++ chk)
                24 33 44 46) as [Hl (d & Hd & Hg)];
      [| discriminate | vm_compute; reflexivity |].
    - rewrite length_app, length_firstn, RIPEMD160_length.
      unfold chk. rewrite checksum_length. reflexivity.
    - split; [exact Hl|]. exists (base58_char d). split; [exact Hg|].
      assert (d = 44 \/ d = 45) as [-> | ->] by lia; [now left | now right]. }
  split; [|split; assumption].
  split.
  - intros He. destruct public_key as [|p pk]; [reflexivity|].
    exfalso. destruct testnet_mode.
    + destruct (Htest ltac:(discriminate) eq_refl) as [Hl _].
      rewrite He in Hl. discriminate Hl.
    + pose proof (Hmain ltac:(discriminate) eq_refl) as Hg.
      rewrite He in Hg. discriminate Hg.
  - intros ->. reflexivity.
Qed.

End AddressFacts.

(** ** Hexadecimal strings *)

Lemma list_ascii_of_string_app (a b : string) :
  list_ascii_of_string (a ++ b)
  = list_ascii_of_string a ++ list_ascii_of_string b.
Proof. induction a as [|c a IH]; [reflexivity|]. cbn. now rewrite IH. Qed.

Lemma hex_of_bytes_chars (bs : list byte) :
  list_ascii_of_string (hex_of_bytes bs)
  = flat_map (fun b => [hex_digit (byte_to_Z b / 16);
                        hex_digit (byte_to_Z b mod 16)]) bs.
Proof.
  unfold hex_of_bytes.
  assert (H : forall acc,
             list_ascii_of_string
               (fold_left (fun acc b => (acc ++ hex_of_byte b)%string) bs acc)
             = list_ascii_of_string acc
               ++ flat_map (fun b => [hex_digit (byte_to_Z b / 16);
                                      hex_digit (byte_to_Z b mod 16)]) bs).
  { induction bs as [|b bs IH]; intros acc; cbn [fold_left flat_map].
    - now rewrite app_nil_r.
    - rewrite IH, list_ascii_of_string_app, <- app_assoc. reflexivity. }
  apply (H EmptyString).
Qed.

Lemma hex_digit_index (d : Z) :
  0 <= d < 16 -> index_of (hex_digit d) hex_alphabet 0 = Some d.
Proof.
  intros Hd. rewrite <- (Z2Nat.id d) by lia.
  assert (Hn : (Z.to_nat d < 16)%nat) by lia.
  generalize dependent (Z.to_nat d). clear d Hd. intros n Hn.
  do 16 (destruct n as [|n]; [vm_compute; reflexivity|]).
  lia.
Qed.

Lemma hex_nibbles (b : byte) :
  0 <= byte_to_Z b / 16 < 16 /\ 0 <= byte_to_Z b mod 16 < 16.
Proof.
  pose proof (byte_to_Z_range b) as Hb. split.
  - split; [apply Z.div_pos; lia | apply Z.div_lt_upper_bound; lia].
  - apply Z.mod_pos_bound. lia.
Qed.

(** The hexadecimal form has two characters per byte, all of them digits
    or lower-case letters [a] to [f], and two byte strings with the same
    form are equal. *)
Theorem hex_of_bytes_format (bs : list byte) :
  String.length (hex_of_bytes bs) = (2 * length bs)%nat
  /\ (forall c, In c (list_ascii_of_string (hex_of_bytes bs)) ->
                In c hex_alphabet)
  /\ (forall bs', hex_of_bytes bs = hex_of_bytes bs' -> bs = bs').
Proof.
  split; [|split].
  - rewrite string_length_list, hex_of_bytes_chars.
    induction bs as [|b bs IH]; [reflexivity|].
    cbn [flat_map app length]. rewrite IH. lia.
  - intros c. rewrite hex_of_bytes_chars. intros Hin.
    apply in_flat_map in Hin. destruct Hin as (b & _ & Hc).
    destruct (hex_nibbles b) as [Hhi Hlo].
    assert (Hd : forall d, 0 <= d < 16 -> In (hex_digit d) hex_alphabet).
    { intros d Hd. unfold hex_digit, hex_alphabet. apply nth_In.
      change (length (list_ascii_of_string "0123456789abcdef")) with 16%nat.
      lia. }
    destruct Hc as [<- | [<- | []]]; now apply Hd.
  - intros bs' H. apply (f_equal list_ascii_of_string) in H.
    rewrite !hex_of_bytes_chars in H. revert bs' H.
    induction bs as [|b bs IH]; intros [|b' bs'] H; cbn [flat_map app] in H;
      try discriminate; [reflexivity|].
    injection H as Hhi Hlo Hrest.
    destruct (hex_nibbles b) as [Hb1 Hb2]. destruct (hex_nibbles b') as [Hb3 Hb4].
    apply (f_equal (fun c => index_of c hex_alphabet 0)) in Hhi, Hlo.
    rewrite !hex_digit_index in Hhi, Hlo by assumption.
    injection Hhi as Hhi. injection Hlo as Hlo.
    f_equal; [|now apply IH].
    apply byte_to_Z_inj.
    rewrite (Z.div_mod (byte_to_Z b) 16), (Z.div_mod (byte_to_Z b') 16) by lia.
    now rewrite Hhi, Hlo.
Qed.

(** ** Private keys *)

Section PrivateKeyFacts.

Context {ssl : OpenSSL}.

Lemma remove_padding_length (plain out : list byte) :
  remove_padding (Some plain) = Some out ->
  (length plain mod 16 = 0)%nat
  /\ (16 <= length plain)%nat
  /\ (length plain - 16 <= length out < length plain)%nat.
Proof.
  unfold remove_padding.
  destruct ((length plain =? 0)%nat
            || negb (length plain mod 16 =? 0)%nat) eqn:E; [discriminate|].
  apply orb_false_iff in E. destruct E as [E0 E1].
  apply Nat.eqb_neq in E0. apply negb_false_iff, Nat.eqb_eq in E1.
  set (n := Z.to_nat (byte_to_Z (last plain x00))).
  destruct ((n =? 0)%nat || (16 <? n)%nat) eqn:En; [discriminate|].
  apply orb_false_iff in En. destruct En as [En0 En1].
  apply Nat.eqb_neq in En0. apply Nat.ltb_ge in En1.
  destruct (forallb _ _); [|discriminate].
  intros H. injection H as <-. rewrite length_firstn.
  pose proof (Nat.div_mod_eq (length plain) 16). lia.
Qed.

Lemma decrypt_private_key_plain (master_key : list byte)
  (crypted_key : CryptedKey) (private_key : list byte) :
  Z.of_nat (length (encrypted_private_key crypted_key)) - 16 <= INT_MAX ->
  decrypt_private_key master_key crypted_key = Some private_key ->
  length master_key = 32%nat
  /\ exists plain,
       length plain = (length (encrypted_private_key crypted_key) - 16)%nat
       /\ remove_padding (Some plain) = Some private_key.
Proof.
  intros Hmax. unfold decrypt_private_key.
  set (enc := encrypted_private_key crypted_key) in *.
  destruct (Nat.eqb_spec (length master_key) 32) as [Hk|Hk];
    cbn [negb orb]; [|discriminate].
  destruct (Nat.ltb_spec (length enc) 16) as [Hs|Hs]; [discriminate|].
  cbv zeta.
  destruct (Nat.eq_dec (length enc) 16) as [H16|H16].
  - rewrite H16. cbn [Z.of_nat].
    change (to_int (to_size_t (Z.pos 16 - 16))) with 0.
    unfold EVP_DecryptUpdate, EVP_DecryptInit_ex, EVP_DecryptFinal_ex.
    cbn. discriminate.
  - rewrite evp_decrypt_is_remove_padding by (try lia; assumption).
    unfold cbc_decrypt.
    destruct (Nat.eqb_spec (length (skipn 16 enc) mod 16) 0) as [Hm|Hm];
      [|discriminate].
    intros H. split; [exact Hk|].
    eexists. split; [|exact H].
    pose proof (Nat.div_mod_eq (length (skipn 16 enc)) 16) as Hdm.
    rewrite cbc_decrypt_blocks_length.
    + rewrite length_skipn in *. lia.
    + rewrite length_firstn. lia.
    + lia.
Qed.

(** [decrypt_private_key] succeeds only with a 32-byte master key on a
    blob of at least two whole blocks, and what it returns has between
    1 and 16 bytes fewer than the blob without its first 16 bytes. *)
Theorem decrypt_private_key_length (master_key : list byte)
  (crypted_key : CryptedKey) (private_key : list byte) :
  Z.of_nat (length (encrypted_private_key crypted_key)) - 16 <= INT_MAX ->
  decrypt_private_key master_key crypted_key = Some private_key ->
  length master_key = 32%nat
  /\ (length (encrypted_private_key crypted_key) mod 16 = 0)%nat
  /\ (32 <= length (encrypted_private_key crypted_key))%nat
  /\ (length (encrypted_private_key crypted_key) - 32 <= length private_key
      < length (encrypted_private_key crypted_key) - 16)%nat.
Proof.
  intros Hmax H.
  destruct (decrypt_private_key_plain _ _ _ Hmax H)
    as (Hk & plain & Hlen & Hpad).
  apply remove_padding_length in Hpad. rewrite Hlen in Hpad.
  destruct Hpad as (Hm & H16 & Hb).
  set (n := length (encrypted_private_key crypted_key)) in *.
  assert (Hn : (n mod 16 = 0)%nat).
  { replace n with (n - 16 + 1 * 16)%nat by lia.
    rewrite Nat.Div0.mod_add. exact Hm. }
  repeat split; try assumption; lia.
Qed.

(** A private key that is not 32 bytes long still gives an entry: a
    single one, with the empty string as address, WIF and public key. *)
Lemma key_infos_wrong_length (w : BitcoinCoreWallet) (private_key : list byte) :
  length private_key <> 32%nat ->
  exists key_info,
    key_infos w private_key = [key_info]
    /\ address key_info = EmptyString
    /\ private_key_wif key_info = EmptyString
    /\ public_key_hex key_info = EmptyString
    /\ private_key_hex key_info = hex_of_bytes private_key.
Proof.
  intros Hne. unfold key_infos, private_key_to_public_key, private_key_to_wif.
  apply Nat.eqb_neq in Hne. rewrite Hne. cbn [negb].
  cbn [public_key_to_address String.eqb].
  eexists. split; [reflexivity|]. repeat split.
Qed.

(** The blobs the parser reads have 48 bytes, so what
    [decrypt_private_key] returns for one of its records, under any
    master key, has fewer than 32 bytes: the entry added for it has no
    address and no WIF. *)
Theorem parsed_crypted_key_gives_no_address (data : list byte) (key_start : nat)
  (master_key private_key : list byte) (w : BitcoinCoreWallet) :
  decrypt_private_key master_key (crypted_key_at data key_start)
  = Some private_key ->
  (length private_key < 32)%nat
  /\ exists key_info,
       key_infos w private_key = [key_info]
       /\ address key_info = EmptyString
       /\ private_key_wif key_info = EmptyString.
Proof.
  intros H.
  pose proof (slice_length_le data (key_start + 33) (key_start + 81)) as Hs.
  apply decrypt_private_key_plain in H.
  - destruct H as (_ & plain & Hp & H).
    apply remove_padding_length in H.
    cbn [crypted_key_at encrypted_private_key] in Hp.
    assert (Hlen : (length private_key < 32)%nat) by lia.
    split; [exact Hlen|].
    destruct (key_infos_wrong_length w private_key ltac:(lia))
      as (k & Hk & Ha & Hw & _).
    exists k. auto.
  - cbn [crypted_key_at encrypted_private_key]. unfold INT_MAX. lia.
Qed.

Lemma key_infos_zero_balances (w : BitcoinCoreWallet) (private_key : list byte) :
  Forall (fun k => balance_satoshis k = 0 /\ transaction_count k = 0
                   /\ has_balance k = false
                   /\ private_key_hex k = hex_of_bytes private_key)
    (key_infos w private_key).
Proof.
  unfold key_infos. cbv zeta.
  destruct (String.eqb _ _); repeat constructor.
Qed.

Lemma extract_loop_zero_balances (w : BitcoinCoreWallet) (master_key : list byte)
  (records : list (string * CryptedKey)) :
  Forall (fun k => balance_satoshis k = 0 /\ transaction_count k = 0
                   /\ has_balance k = false)
    (extract_loop w master_key records).
Proof.
  induction records as [|p records IH]; [constructor|].
  cbn [extract_loop].
  destruct (decrypt_private_key master_key (snd p)) as [pk|]; [|exact IH].
  apply Forall_app. split; [|exact IH].
  eapply Forall_impl; [|apply key_infos_zero_balances].
  intros k (H1 & H2 & H3 & _). auto.
Qed.

Lemma first_master_key_none (password : string)
  (records : list (string * MasterKey)) :
  any_master_key_decrypts password records = false <->
  first_master_key password records = None.
Proof.
  induction records as [|p records IH];
    cbn [any_master_key_decrypts first_master_key]; [tauto|].
  destruct (decrypt_master_key password (snd p)); [|exact IH].
  split; discriminate.
Qed.

(** [extract_private_keys] returns entries whose balance fields are 0
    and false. On a loaded object, a password that [test_password]
    turns down gives no entry, and the call changes nothing of the object
    but the error message. *)
Theorem extract_private_keys_result (fs : FileSystem) (password : string)
  (w : BitcoinCoreWallet) :
  Forall (fun k => balance_satoshis k = 0 /\ transaction_count k = 0
                   /\ has_balance k = false)
    (fst (extract_private_keys fs password w))
  /\ (loaded_ w = true ->
      fst (test_password fs password w) = false ->
      extract_private_keys fs password w
      = ([], set_error "Failed to decrypt master key with provided password" w)).
Proof.
  split.
  - unfold extract_private_keys.
    destruct (if loaded_ w then (true, w) else load fs w) as [ready w1].
    destruct ready; cbn [negb fst]; [|constructor].
    destruct (first_master_key password (master_keys_ w1)); cbn [fst];
      [apply extract_loop_zero_balances | constructor].
  - intros Hl. unfold test_password, extract_private_keys. rewrite Hl.
    cbn [negb]. intros Ht.
    assert (Hk : first_master_key password (master_keys_ w) = None).
    { destruct (master_keys_ w) as [|p m] eqn:Hm; [reflexivity|].
      cbn [StdMap.is_empty fst] in Ht. now apply first_master_key_none. }
    now rewrite Hk.
Qed.

End PrivateKeyFacts.

(** ** Loading, again *)

Lemma scan_end_small (data : list byte) :
  (length data < 1024)%nat -> scan_end data = O.
Proof.
  intros H. unfold scan_end. rewrite Nat.div_small by exact H. lia.
Qed.

(** [load] on an object that is not loaded, when the file can be read
    and is not empty. *)
Lemma load_unloaded (fs : FileSystem) (w : BitcoinCoreWallet) :
  loaded_ w = false ->
  verify_file_access fs (wallet_file_ w) = true ->
  read_file fs (wallet_file_ w) <> [] ->
  load fs w
  = (if fst (parse_bdb_file
               (set_wallet_data (read_file fs (wallet_file_ w)) w))
     then (true,
           set_loaded true
             (snd (parse_bdb_file
                     (set_wallet_data (read_file fs (wallet_file_ w)) w))))
     else (false,
           set_error "Failed to parse wallet.dat file - invalid format"
             (snd (parse_bdb_file
                     (set_wallet_data (read_file fs (wallet_file_ w)) w))))).
Proof.
  intros Hl Hacc Hne. unfold load. rewrite Hl, Hacc. cbn [negb].
  assert (E : wallet_data_ (set_wallet_data (read_file fs (wallet_file_ w)) w)
              = read_file fs (wallet_file_ w)) by reflexivity.
  destruct (wallet_data_ (set_wallet_data (read_file fs (wallet_file_ w)) w))
    as [|b rest]; [now elim Hne|].
  destruct (parse_bdb_file _) as [[|] w2]; reflexivity.
Qed.

(** A buffer shorter than one page of 1024 bytes is not scanned at all:
    [load] on a new object fails for it, whatever it holds. *)
Theorem load_fails_below_one_page (fs : FileSystem) (file : string) :
  (length (read_file fs file) < 1024)%nat ->
  fst (load fs (new_BitcoinCoreWallet file)) = false
  /\ master_keys_ (snd (load fs (new_BitcoinCoreWallet file))) = []
  /\ crypted_keys_ (snd (load fs (new_BitcoinCoreWallet file))) = [].
Proof.
  intros Hlen.
  destruct (verify_file_access fs file) eqn:Hacc.
  2:{ unfold load. cbn [loaded_ new_BitcoinCoreWallet wallet_file_].
      rewrite Hacc. repeat split. }
  destruct (read_file fs file) as [|b rest] eqn:Hd.
  { unfold load. cbn [loaded_ new_BitcoinCoreWallet wallet_file_].
    rewrite Hacc, Hd. repeat split. }
  rewrite load_unloaded;
    [| reflexivity | exact Hacc
     | cbn [wallet_file_ new_BitcoinCoreWallet]; rewrite Hd; discriminate].
  cbn [wallet_file_ new_BitcoinCoreWallet]. rewrite Hd. rewrite <- Hd in *.
  set (data := read_file fs file) in *.
  set (w1 := set_wallet_data data _).
  assert (Hw : wallet_data_ w1 = data) by reflexivity.
  destruct (header_ok data) eqn:Hh.
  - rewrite parse_bdb_file_scan by (rewrite Hw; exact Hh). cbv zeta.
    rewrite Hw, scan_end_small by exact Hlen. cbn [seq fold_left].
    cbn. repeat split.
  - destruct (parse_bdb_file_no_scan w1) as (Hf & Hm & Hc);
      [rewrite Hw; exact Hh|].
    rewrite Hf. cbn [snd master_keys_ crypted_keys_ set_error fst].
    rewrite Hm, Hc. repeat split.
Qed.

(** The scan touches the two registries only. *)
Lemma scan_fold_loaded (data : list byte) (positions : list nat)
  (w : BitcoinCoreWallet) :
  loaded_ (fold_left (scan_at data) positions w) = loaded_ w.
Proof.
  revert w. induction positions as [|i positions IH]; intros w;
    [reflexivity|].
  cbn [fold_left]. rewrite IH. unfold scan_at.
  repeat match goal with
         | |- context [if ?c then _ else _] => destruct c
         end; reflexivity.
Qed.

(** On an object that is not loaded yet, what [load] returns is what
    [is_valid] says afterwards; a failed [load] leaves the object
    unloaded with an error message. *)
Theorem load_result_is_valid (fs : FileSystem) (w : BitcoinCoreWallet) :
  loaded_ w = false ->
  fst (load fs w) = is_valid (snd (load fs w))
  /\ (fst (load fs w) = false ->
      loaded_ (snd (load fs w)) = false
      /\ last_error_ (snd (load fs w)) <> EmptyString).
Proof.
  intros Hl. unfold load. rewrite Hl.
  destruct (negb (verify_file_access fs (wallet_file_ w))).
  { cbn [fst snd]. unfold is_valid. cbn [loaded_ set_error]. rewrite Hl.
    split; [reflexivity|]. intros _. split; [reflexivity|].
    cbn [last_error_]. discriminate. }
  set (w1 := set_wallet_data _ w).
  assert (Hl1 : loaded_ w1 = false) by exact Hl.
  destruct (wallet_data_ w1).
  { cbn [fst snd]. unfold is_valid. cbn [loaded_ set_error]. rewrite Hl1.
    split; [reflexivity|]. intros _. split; [reflexivity | discriminate]. }
  unfold parse_bdb_file.
  destruct (length (wallet_data_ w1) <? sizeof_BDBHeader)%nat.
  { cbn [negb fst snd]. unfold is_valid. cbn [loaded_ set_error].
    rewrite Hl1. split; [reflexivity|]. intros _.
    split; [reflexivity | discriminate]. }
  destruct (negb (valid_magic (wallet_data_ w1))).
  { cbn [negb fst snd]. unfold is_valid. cbn [loaded_ set_error].
    rewrite Hl1. split; [reflexivity|]. intros _.
    split; [reflexivity | discriminate]. }
  set (w2 := parse_pages _ _ _ _).
  assert (Hl2 : loaded_ w2 = false).
  { unfold w2. rewrite parse_pages_scan_all, scan_fold_loaded. exact Hl1. }
  destruct (negb (StdMap.is_empty (master_keys_ w2))
            && negb (StdMap.is_empty (crypted_keys_ w2))) eqn:E;
    cbn [negb fst snd]; unfold is_valid;
    cbn [loaded_ master_keys_ crypted_keys_ set_loaded set_error].
  - apply andb_true_iff in E. destruct E as [E1 E2]. rewrite E1, E2.
    split; [reflexivity | discriminate].
  - rewrite Hl2. split; [reflexivity|]. intros _.
    split; [reflexivity | discriminate].
Qed.

(** A [load] that fails after the scan keeps what the scan stored: when
    it is called again, the encrypted-key records of the buffer are
    added once more, under new numbers. *)
Theorem load_again_adds_records (fs : FileSystem) (w : BitcoinCoreWallet) :
  loaded_ w = false ->
  verify_file_access fs (wallet_file_ w) = true ->
  header_ok (read_file fs (wallet_file_ w)) = true ->
  numbered (crypted_keys_ w) ->
  numbered (crypted_keys_ (snd (load fs w)))
  /\ StdMap.size (crypted_keys_ (snd (load fs w)))
     = (StdMap.size (crypted_keys_ w)
        + length (scanned_crypted_keys (read_file fs (wallet_file_ w))))%nat.
Proof.
  intros Hl Hacc Hh Hnum.
  rewrite load_unloaded; [| exact Hl | exact Hacc |].
  2:{ intros E. rewrite E in Hh. discriminate Hh. }
  set (data := read_file fs (wallet_file_ w)) in *.
  set (w1 := set_wallet_data data w).
  assert (Hd : wallet_data_ w1 = data) by reflexivity.
  rewrite parse_bdb_file_scan by (rewrite Hd; exact Hh). cbv zeta. rewrite Hd.
  set (w2 := fold_left (scan_at data) (seq 0 (scan_end data)) w1).
  assert (Hck : crypted_keys_ w2
                = fold_left
                    (fun m ck => StdMap.assign (to_string (StdMap.size m)) ck m)
                    (scanned_crypted_keys data) (crypted_keys_ w)).
  { unfold w2. rewrite scan_fold_crypted_keys. reflexivity. }
  destruct (fold_assign_numbered (scanned_crypted_keys data)
              (crypted_keys_ w) Hnum) as [H1 H2].
  cbn [fst snd].
  destruct (negb (StdMap.is_empty (master_keys_ w2))
            && negb (StdMap.is_empty (crypted_keys_ w2)));
    cbn [negb snd crypted_keys_ set_loaded set_error];
    rewrite Hck; auto.
Qed.

(** ** The registries of a loaded container *)

Lemma load_new_true_inv (fs : FileSystem) (file : string) (w : BitcoinCoreWallet) :
  load fs (new_BitcoinCoreWallet file) = (true, w) ->
  verify_file_access fs file = true
  /\ valid_magic (read_file fs file) = true.
Proof.
  unfold load. cbn [loaded_ new_BitcoinCoreWallet wallet_file_].
  destruct (verify_file_access fs file); cbn [negb]; [|discriminate].
  set (w1 := set_wallet_data _ _).
  change (wallet_data_ w1) with (read_file fs file).
  destruct (read_file fs file) as [|b rest] eqn:Hd; [discriminate|].
  unfold parse_bdb_file. change (wallet_data_ w1) with (b :: rest).
  destruct (length (b :: rest) <? sizeof_BDBHeader)%nat; [discriminate|].
  destruct (valid_magic (b :: rest)); [|discriminate].
  intros _. split; reflexivity.
Qed.

Lemma last_scanned_master_key_at (data : list byte) (mk : MasterKey) :
  last_scanned_master_key data = Some mk ->
  exists i, mk = master_key_at data (i + 4)
            /\ (i + 4 + 64 < length data)%nat.
Proof.
  unfold last_scanned_master_key.
  destruct (rev (scanned_master_keys data)) as [|mk' rest] eqn:E;
    [discriminate|].
  intros H. injection H as ->.
  assert (Hin : In mk (scanned_master_keys data)).
  { apply in_rev. rewrite E. now left. }
  unfold scanned_master_keys in Hin. apply in_map_iff in Hin.
  destruct Hin as (i & <- & Hi). apply filter_In in Hi.
  destruct Hi as [_ Hi]. unfold mkey_hit in Hi.
  apply andb_true_iff in Hi. destruct Hi as [_ Hi].
  apply Nat.ltb_lt in Hi. exists i. auto.
Qed.

Lemma scanned_crypted_key_at (data : list byte) (ck : CryptedKey) :
  In ck (scanned_crypted_keys data) ->
  exists i, ck = crypted_key_at data (i + 4)
            /\ (i + 4 + 80 < length data)%nat.
Proof.
  unfold scanned_crypted_keys. intros Hin. apply in_map_iff in Hin.
  destruct Hin as (i & <- & Hi). apply filter_In in Hi.
  destruct Hi as [_ Hi]. unfold ckey_hit in Hi.
  apply andb_true_iff in Hi. destruct Hi as [_ Hi].
  apply Nat.ltb_lt in Hi. exists i. auto.
Qed.

Lemma assign_values {V} (P : V -> Prop) (k : string) (v : V) (m : StdMap.t V) :
  P v -> Forall (fun p => P (snd p)) m ->
  Forall (fun p => P (snd p)) (StdMap.assign k v m).
Proof.
  intros Hv. induction 1 as [|[k' v'] m Hp Hm IH]; cbn [StdMap.assign].
  - repeat constructor. exact Hv.
  - destruct (String.compare k k').
    + constructor; [exact Hv | exact Hm].
    + constructor; [exact Hv|]. constructor; assumption.
    + constructor; [exact Hp | exact IH].
Qed.

Lemma fold_assign_numbered_values (P : CryptedKey -> Prop)
  (cks : list CryptedKey) (m : StdMap.t CryptedKey) :
  Forall P cks -> Forall (fun p => P (snd p)) m ->
  Forall (fun p => P (snd p))
    (fold_left (fun m ck => StdMap.assign (to_string (StdMap.size m)) ck m)
       cks m).
Proof.
  intros Hc. revert m. induction Hc as [|ck cks Hck _ IH]; intros m Hm;
    [exact Hm|].
  cbn [fold_left]. apply IH. now apply assign_values.
Qed.

(** Every record of a container loaded into a new object has the sizes
    the parser cuts: 8-byte salt, 48-byte blob and 25000 iterations for
    the master key, stored under ["default"]; 33-byte public key and
    48-byte blob for the encrypted keys. *)
Theorem loaded_records_shape (fs : FileSystem) (file : string)
  (w : BitcoinCoreWallet) :
  load fs (new_BitcoinCoreWallet file) = (true, w) ->
  Forall (fun p => fst p = "default"%string
                   /\ length (salt (snd p)) = 8%nat
                   /\ length (encrypted_key (snd p)) = 48%nat
                   /\ derive_iterations (snd p) = 25000)
    (master_keys_ w)
  /\ Forall (fun p => length (public_key (snd p)) = 33%nat
                      /\ length (encrypted_private_key (snd p)) = 48%nat)
       (crypted_keys_ w).
Proof.
  intros Hload. destruct (load_new_true_inv fs file w Hload) as [Hacc Hmagic].
  destruct (load_new_registries fs file Hacc Hmagic) as (_ & Hmk & Hck).
  rewrite Hload in Hmk, Hck. cbn [snd] in Hmk, Hck. split.
  - rewrite Hmk.
    destruct (last_scanned_master_key (read_file fs file)) as [mk|] eqn:E;
      [|constructor].
    apply last_scanned_master_key_at in E. destruct E as (i & -> & Hi).
    constructor; [|constructor]. cbn [fst snd].
    destruct (master_key_at_shape (read_file fs file) (i + 4) ltac:(lia))
      as (H1 & H2 & H3).
    auto.
  - rewrite Hck.
    apply (fold_assign_numbered_values
             (fun ck => length (public_key ck) = 33%nat
                        /\ length (encrypted_private_key ck) = 48%nat));
      [|constructor].
    apply Forall_forall. intros ck Hin.
    apply scanned_crypted_key_at in Hin. destruct Hin as (i & -> & Hi).
    apply crypted_key_at_shape. lia.
Qed.

Lemma fold_assign_numbered_lookup (cks : list CryptedKey) (i : nat) :
  StdMap.find (to_string i)
    (fold_left (fun m ck => StdMap.assign (to_string (StdMap.size m)) ck m)
       cks [])
  = nth_error cks i.
Proof.
  revert i. induction cks as [|ck cks IH] using rev_ind; intros i.
  - cbn. now destruct i.
  - rewrite fold_left_app. cbn [fold_left].
    destruct (fold_assign_numbered cks [] numbered_empty) as [_ Hsize].
    rewrite Hsize. cbn [StdMap.size length Nat.add].
    change (StdMap.size (@nil (string * CryptedKey))) with O.
    cbn [Nat.add].
    destruct (Nat.eq_dec i (length cks)) as [->|Hne].
    + rewrite find_assign_same, nth_error_app2 by lia.
      now rewrite Nat.sub_diag.
    + rewrite find_assign_other
        by (intros E; apply to_string_inj in E; contradiction).
      rewrite IH.
      destruct (Nat.lt_ge_cases i (length cks)) as [Hlt|Hge].
      * now rewrite nth_error_app1.
      * rewrite nth_error_app2 by lia.
        destruct (i - length cks)%nat as [|n] eqn:En; [lia|].
        cbn [nth_error]. destruct n; cbn;
          apply nth_error_None; lia.
Qed.

(** In a container loaded into a new object, the encrypted-key record of
    the [i]-th marker the scan met is stored under the decimal form of
    [i], and no other number is a key; there is one entry per marker. *)
Theorem loaded_crypted_keys_lookup (fs : FileSystem) (file : string)
  (w : BitcoinCoreWallet) (i : nat) :
  load fs (new_BitcoinCoreWallet file) = (true, w) ->
  StdMap.find (to_string i) (crypted_keys_ w)
  = nth_error (scanned_crypted_keys (read_file fs file)) i
  /\ StdMap.size (crypted_keys_ w)
     = length (scanned_crypted_keys (read_file fs file)).
Proof.
  intros Hload. destruct (load_new_true_inv fs file w Hload) as [Hacc Hmagic].
  destruct (load_new_registries fs file Hacc Hmagic) as (_ & _ & Hck).
  destruct (load_new_counts fs file Hacc Hmagic) as (_ & Hsize & _).
  rewrite Hload in Hck, Hsize. cbn [snd] in Hck, Hsize.
  split; [|exact Hsize]. rewrite Hck. apply fold_assign_numbered_lookup.
Qed.

(** ** Statistics *)

(** The sum the statistics and the recovery add up, before it is cut to
    64 bits. *)
Lemma to_uint64_add (a b : Z) : to_uint64 (to_uint64 a + b) = to_uint64 (a + b).
Proof. unfold to_uint64. apply Zplus_mod_idemp_l. Qed.

Lemma wallet_stats_fold (keys : list PrivateKeyInfo) (st : WalletStats) :
  0 <= compressed_keys st -> 0 <= uncompressed_keys st ->
  0 <= stats_funded_addresses st ->
  compressed_keys st + Z.of_nat (length keys) <= INT_MAX ->
  uncompressed_keys st + Z.of_nat (length keys) <= INT_MAX ->
  stats_funded_addresses st + Z.of_nat (length keys) <= INT_MAX ->
  let st' := fold_left wallet_stats_step keys st in
  total_keys st' = total_keys st
  /\ compressed_keys st'
     = compressed_keys st + Z.of_nat (length (filter compressed keys))
  /\ uncompressed_keys st'
     = uncompressed_keys st
       + Z.of_nat (length (filter (fun k => negb (compressed k)) keys))
  /\ stats_funded_addresses st'
     = stats_funded_addresses st + Z.of_nat (length (filter has_balance keys))
  /\ to_uint64 (total_balance st')
     = to_uint64 (total_balance st
                  + fold_right (fun k acc => balance_satoshis k + acc) 0 keys).
Proof.
  revert st. induction keys as [|k keys IH]; intros st Hc Hu Hf Hcm Hum Hfm.
  - cbn. rewrite !Z.add_0_r. auto.
  - cbn [fold_left length filter fold_right]. cbn [length] in Hcm, Hum, Hfm.
    rewrite Nat2Z.inj_succ in Hcm, Hum, Hfm. unfold INT_MAX in *.
    pose proof (filter_length_le compressed keys) as L1.
    pose proof (filter_length_le has_balance keys) as L2.
    specialize (IH (wallet_stats_step st k)).
    cbn [wallet_stats_step compressed_keys uncompressed_keys
           stats_funded_addresses total_keys total_balance] in IH.
    destruct (compressed k), (has_balance k); cbn [negb length];
      rewrite ?to_int_small in IH by lia;
      (destruct IH as (H1 & H2 & H3 & H4 & H5); [lia..|]);
      rewrite H1, H2, H3, H4, H5, to_uint64_add;
      repeat split; try lia; f_equal; lia.
Qed.

Lemma wallet_stats_total_range (keys : list PrivateKeyInfo) (st : WalletStats) :
  total_balance st = to_uint64 (total_balance st) ->
  total_balance (fold_left wallet_stats_step keys st)
  = to_uint64 (total_balance (fold_left wallet_stats_step keys st)).
Proof.
  revert st. induction keys as [|k keys IH]; intros st Hst; [exact Hst|].
  cbn [fold_left]. apply IH. cbn [wallet_stats_step total_balance].
  unfold to_uint64. now rewrite Z.mod_mod by lia.
Qed.

(** [get_wallet_stats] on a list whose length fits an [int]: the key
    count is the length, every key is counted as compressed or as
    uncompressed, the funded addresses are the entries with
    [has_balance], and the total is the sum of the balances in 64 bits. *)
Theorem get_wallet_stats_counts (keys : list PrivateKeyInfo) :
  Z.of_nat (length keys) <= INT_MAX ->
  let stats := get_wallet_stats keys in
  total_keys stats = Z.of_nat (length keys)
  /\ compressed_keys stats + uncompressed_keys stats = total_keys stats
  /\ compressed_keys stats = Z.of_nat (length (filter compressed keys))
  /\ stats_funded_addresses stats
     = Z.of_nat (length (filter has_balance keys))
  /\ 0 <= stats_funded_addresses stats <= total_keys stats
  /\ total_balance stats
     = to_uint64 (fold_right (fun k acc => balance_satoshis k + acc) 0 keys).
Proof.
  intros Hlen stats. subst stats. unfold get_wallet_stats.
  set (st0 := {| total_keys := _ |}).
  destruct (wallet_stats_fold keys st0) as (H1 & H2 & H3 & H4 & H5);
    cbn [st0 compressed_keys uncompressed_keys stats_funded_addresses];
    try lia.
  cbn [st0 total_keys compressed_keys uncompressed_keys
         stats_funded_addresses total_balance] in *.
  rewrite to_int_to_size_t, to_int_small in H1
    by (unfold INT_MAX in Hlen; lia).
  rewrite H1, H2, H3, H4.
  pose proof (filter_length_le has_balance keys) as L2.
  assert (Hsplit : (length (filter compressed keys)
                    + length (filter (fun k => negb (compressed k)) keys)
                    = length keys)%nat).
  { clear. induction keys as [|k keys IH]; [reflexivity|].
    cbn [filter]. destruct (compressed k); cbn [negb length]; lia. }
  repeat split; try lia.
  rewrite (wallet_stats_total_range keys st0) by reflexivity.
  rewrite H5. reflexivity.
Qed.

(** ** Balance lookups, again *)

Section BalanceLoopFacts.

Context {json : JsonCpp} {net : Network}.

Lemma same_key_refl (k : PrivateKeyInfo) : same_key k k.
Proof. unfold same_key. repeat split. now left. Qed.

Lemma same_key_update (k : PrivateKeyInfo) (balance tx_count : Z) :
  same_key k (update_balance k balance tx_count).
Proof. unfold same_key. repeat split. now right. Qed.

Lemma check_balances_loop_visited (w : BitcoinCoreWallet)
  (keys : list PrivateKeyInfo) (world : World) :
  Forall2 same_key keys (visited (check_balances_loop w keys world)).
Proof.
  induction keys as [|k keys IH] using rev_ind.
  - constructor.
  - rewrite check_balances_loop_snoc. unfold check_balances_step.
    destruct (thrown _);
      [cbn [visited]; apply Forall2_app; [exact IH|];
       constructor; [apply same_key_refl | constructor]|].
    destruct (query_address_balance w (address k) _)
      as [[[[|]|] [balance tx_count]] world'];
      cbn [visited]; (apply Forall2_app; [exact IH|]).
    + constructor; [apply same_key_update | constructor].
    + constructor; [apply same_key_refl | constructor].
    + constructor; [apply same_key_refl | constructor].
Qed.

(** [check_balances] gives back the entries in the same number and
    order, each with its address, keys, compression flag and label as
    before; an entry is either untouched or has [has_balance] set exactly
    when its new balance is positive. On the empty list it returns false
    without using the network. *)
Theorem check_balances_keeps_keys (w : BitcoinCoreWallet)
  (private_keys : list PrivateKeyInfo) (world : World) :
  Forall2 same_key private_keys (snd (fst (check_balances w private_keys world)))
  /\ length (snd (fst (check_balances w private_keys world)))
     = length private_keys
  /\ (private_keys = [] ->
      check_balances w private_keys world = (Returned false, [], world)).
Proof.
  assert (H : Forall2 same_key private_keys
                (snd (fst (check_balances w private_keys world)))).
  { unfold check_balances. destruct private_keys as [|k keys];
      [constructor|].
    cbn [fst snd]. apply check_balances_loop_visited. }
  split; [exact H|]. split.
  - symmetry. eapply Forall2_length. exact H.
  - intros ->. reflexivity.
Qed.

Lemma check_balances_loop_unchanged (w : BitcoinCoreWallet)
  (keys : list PrivateKeyInfo) (world : World) :
  Z.of_nat (length keys) <= INT_MAX ->
  0 <= successful_queries (check_balances_loop w keys world)
       <= Z.of_nat (length keys)
  /\ (successful_queries (check_balances_loop w keys world) = 0 ->
      visited (check_balances_loop w keys world) = keys).
Proof.
  induction keys as [|k keys IH] using rev_ind; intros Hlen.
  - cbn. split; [lia | reflexivity].
  - rewrite length_app, Nat.add_comm in *. cbn [length Nat.add] in *.
    destruct (IH ltac:(lia)) as [Hr Hv].
    rewrite check_balances_loop_snoc. unfold check_balances_step.
    destruct (thrown _);
      [cbn [successful_queries visited]; split; [lia|];
       intros H; now rewrite Hv|].
    destruct (query_address_balance w (address k) _)
      as [[[[|]|] [balance tx_count]] world'];
      cbn [successful_queries visited].
    + rewrite to_int_small by (unfold INT_MAX in Hlen; lia).
      split; [lia|]. intros H. lia.
    + split; [lia|]. intros H. now rewrite Hv.
    + split; [lia|]. intros H. now rewrite Hv.
Qed.

(** When [check_balances] returns false (no query succeeded) on a list
    whose length fits an [int], it gives the list back as it was. *)
Theorem check_balances_false_unchanged (w : BitcoinCoreWallet)
  (private_keys : list PrivateKeyInfo) (world : World) :
  Z.of_nat (length private_keys) <= INT_MAX ->
  fst (fst (check_balances w private_keys world)) = Returned false ->
  snd (fst (check_balances w private_keys world)) = private_keys.
Proof.
  intros Hlen. unfold check_balances.
  destruct private_keys as [|k keys]; [reflexivity|].
  cbn [fst snd]. destruct (thrown _); [discriminate|].
  intros H. injection H as H. apply Z.ltb_ge in H.
  destruct (check_balances_loop_unchanged w (k :: keys) world Hlen)
    as [Hr Hv].
  apply Hv. lia.
Qed.

End BalanceLoopFacts.

(** ** Configuration *)

(** [set_api_endpoint] changes the endpoint of the service it names and
    no other; [set_api_key] for ["blockcypher"] makes the third provider's
    URL end in ["?token="] and the key, and a key for another service
    changes no URL; [enable_testnet] leaves the second provider's URL as
    it is, there being one endpoint for it. *)
Theorem api_configuration (w : BitcoinCoreWallet) (service value : string)
  (address : string) (testnet : bool) :
  endpoint (set_api_endpoint service value w) service = value
  /\ (forall other, other <> service ->
        endpoint (set_api_endpoint service value w) other = endpoint w other)
  /\ blockcypher_url (set_api_key "blockcypher" value w) address
     = ((endpoint w (if testnet_mode_ w then "blockcypher_testnet"
                     else "blockcypher")
         ++ "/addrs/" ++ address ++ "/balance")
        ++ "?token=" ++ value)%string
  /\ (service <> "blockcypher"%string ->
      blockcypher_url (set_api_key service value w) address
      = blockcypher_url w address
      /\ blockstream_url (set_api_key service value w) address
         = blockstream_url w address
      /\ blockchair_url (set_api_key service value w) address
         = blockchair_url w address)
  /\ blockchair_url (enable_testnet testnet w) address
     = blockchair_url w address.
Proof.
  split; [|split; [|split; [|split; [|reflexivity]]]].
  - unfold endpoint, StdMap.at_default, set_api_endpoint.
    cbn [api_endpoints_]. now rewrite find_assign_same.
  - intros other Hne. unfold endpoint, StdMap.at_default, set_api_endpoint.
    cbn [api_endpoints_]. now rewrite find_assign_other.
  - unfold blockcypher_url, set_api_key. cbn [api_keys_ testnet_mode_].
    rewrite find_assign_same. unfold endpoint. cbn [api_endpoints_].
    reflexivity.
  - intros Hne. unfold blockcypher_url, blockstream_url, blockchair_url,
      endpoint, set_api_key.
    cbn [api_keys_ api_endpoints_ testnet_mode_].
    rewrite find_assign_other by (intros E; apply Hne; now symmetry).
    repeat split.
Qed.

(** ** Recovery *)

Lemma recovery_totals_fold (keys : list PrivateKeyInfo) (st : WalletStats) :
  fold_left
    (fun '(total, funded) key_info =>
       (to_uint64 (total + balance_satoshis key_info),
        if has_balance key_info then to_int (funded + 1) else funded))
    keys (total_balance st, stats_funded_addresses st)
  = (total_balance (fold_left wallet_stats_step keys st),
     stats_funded_addresses (fold_left wallet_stats_step keys st)).
Proof.
  revert st. induction keys as [|k keys IH]; intros st; [reflexivity|].
  cbn [fold_left]. rewrite <- IH. reflexivity.
Qed.

Lemma recovery_totals_stats (keys : list PrivateKeyInfo) :
  recovery_totals keys
  = (total_balance (get_wallet_stats keys),
     stats_funded_addresses (get_wallet_stats keys)).
Proof.
  unfold recovery_totals, get_wallet_stats.
  now rewrite <- recovery_totals_fold.
Qed.

Lemma wallet_stats_total_keys (keys : list PrivateKeyInfo) :
  total_keys (get_wallet_stats keys)
  = to_int (to_size_t (Z.of_nat (length keys))).
Proof.
  unfold get_wallet_stats. set (st0 := {| total_keys := _ |}).
  change (to_int (to_size_t (Z.of_nat (length keys)))) with (total_keys st0).
  generalize st0. induction keys as [|k keys IH]; intros st; [reflexivity|].
  cbn [fold_left]. now rewrite IH.
Qed.

Lemma wallet_stats_zero (keys : list PrivateKeyInfo) :
  Forall (fun k => balance_satoshis k = 0 /\ transaction_count k = 0
                   /\ has_balance k = false) keys ->
  total_balance (get_wallet_stats keys) = 0
  /\ stats_funded_addresses (get_wallet_stats keys) = 0.
Proof.
  intros H. unfold get_wallet_stats. set (st0 := {| total_keys := _ |}).
  assert (H0 : total_balance st0 = 0 /\ stats_funded_addresses st0 = 0)
    by (split; reflexivity).
  revert H0. generalize st0. clear st0.
  induction H as [|k keys (Hb & _ & Hf) _ IH]; intros st H0; [exact H0|].
  cbn [fold_left]. apply IH.
  cbn [wallet_stats_step total_balance stats_funded_addresses].
  destruct H0 as [-> ->]. rewrite Hb, Hf. split; reflexivity.
Qed.

Section RecoveryFacts.

Context {ssl : OpenSSL} {json : JsonCpp} {net : Network}.

Lemma extract_private_keys_zero (fs : FileSystem) (password : string)
  (w : BitcoinCoreWallet) :
  Forall (fun k => balance_satoshis k = 0 /\ transaction_count k = 0
                   /\ has_balance k = false)
    (fst (extract_private_keys fs password w)).
Proof.
  unfold extract_private_keys.
  destruct (if loaded_ w then (true, w) else load fs w) as [ready w1].
  destruct ready; cbn [negb fst]; [|constructor].
  destruct (first_master_key password (master_keys_ w1)); cbn [fst];
    [apply extract_loop_zero_balances | constructor].
Qed.

(** What [recover_wallet] reports when it returns. A failure has no
    keys, zero totals, an error message, and has not used the network. A
    success has at least one key, and its three totals are those
    [get_wallet_stats] computes from the keys it returns, also when the
    balance check failed and the totals are left at zero (the list being
    short enough for the [int] counters). *)
Theorem recover_wallet_result (fs : FileSystem) (timestamp password : string)
  (w : BitcoinCoreWallet) (world : World) (r : WalletRecoveryResult) :
  let out := recover_wallet fs timestamp password w world in
  fst (fst out) = Returned r ->
  (success r = false ->
   private_keys r = []
   /\ total_balance_satoshis r = 0 /\ total_addresses r = 0
   /\ funded_addresses r = 0
   /\ last_error_ (snd (fst out)) <> EmptyString
   /\ snd out = world)
  /\ (success r = true ->
      private_keys r <> []
      /\ total_addresses r = total_keys (get_wallet_stats (private_keys r))
      /\ (Z.of_nat (length (private_keys r)) <= INT_MAX ->
          total_balance_satoshis r
          = total_balance (get_wallet_stats (private_keys r))
          /\ funded_addresses r
             = stats_funded_addresses (get_wallet_stats (private_keys r)))).
Proof.
  intros out. subst out. unfold recover_wallet.
  destruct (test_password fs password w) as [verified w1].
  destruct verified; cbn [negb].
  2:{ cbn [fst snd]. intros H. injection H as <-.
      cbn [success private_keys total_balance_satoshis
             total_addresses funded_addresses last_error_ set_error].
      split; [|discriminate]. intros _. repeat split. discriminate. }
  pose proof (extract_private_keys_zero fs password w1) as Hzero.
  destruct (extract_private_keys fs password w1) as [keys w2].
  cbn [fst] in Hzero.
  destruct keys as [|k keys].
  { cbn [fst snd]. intros H. injection H as <-.
    cbn [success private_keys total_balance_satoshis
           total_addresses funded_addresses last_error_ set_error].
    split; [|discriminate]. intros _. repeat split. discriminate. }
  pose proof (check_balances_loop_visited w2 (k :: keys) world) as Hvis.
  pose proof (check_balances_loop_unchanged w2 (k :: keys) world) as Hunch.
  unfold check_balances.
  set (st := check_balances_loop w2 (k :: keys) world) in *.
  assert (Hlen : length (visited st) = length (k :: keys)).
  { symmetry. eapply Forall2_length. exact Hvis. }
  destruct (thrown st); [cbn [fst]; discriminate|].
  destruct (0 <? successful_queries st) eqn:Hchk.
  - rewrite recovery_totals_stats.
    cbn [fst snd]. intros H. injection H as <-.
    cbn [success private_keys total_balance_satoshis
           total_addresses funded_addresses].
    split; [discriminate|]. intros _. split.
    + intros E. rewrite E in Hlen. discriminate Hlen.
    + rewrite wallet_stats_total_keys, Hlen. auto.
  - cbn [fst snd]. intros H. injection H as <-.
    cbn [success private_keys total_balance_satoshis
           total_addresses funded_addresses].
    split; [discriminate|]. intros _. split.
    + intros E. rewrite E in Hlen. discriminate Hlen.
    + rewrite wallet_stats_total_keys, Hlen. split; [reflexivity|].
      intros Hmax.
      destruct (Hunch Hmax) as [Hr Hv]. apply Z.ltb_ge in Hchk.
      rewrite Hv by lia.
      destruct (wallet_stats_zero (k :: keys) Hzero) as [-> ->].
      split; reflexivity.
Qed.

Lemma short_master_key_extracts_nothing (w : BitcoinCoreWallet)
  (master_key : list byte) (records : list (string * CryptedKey)) :
  (length master_key < 32)%nat -> extract_loop w master_key records = [].
Proof.
  intros Hlen. induction records as [|p records IH]; [reflexivity|].
  cbn [extract_loop]. unfold decrypt_private_key.
  destruct (Nat.eqb_spec (length master_key) 32) as [E|E]; [lia|].
  exact IH.
Qed.

Lemma loaded_master_keys (fs : FileSystem) (file : string) (w : BitcoinCoreWallet) :
  load fs (new_BitcoinCoreWallet file) = (true, w) ->
  loaded_ w = true
  /\ exists i,
       master_keys_ w
       = [("default"%string, master_key_at (read_file fs file) (i + 4))]
       /\ (i + 4 + 64 < length (read_file fs file))%nat
       /\ last_scanned_master_key (read_file fs file)
          = Some (master_key_at (read_file fs file) (i + 4)).
Proof.
  intros Hload. split; [now apply load_true_loaded in Hload|].
  destruct (load_new_true_inv fs file w Hload) as [Hacc Hmagic].
  destruct (load_new_registries fs file Hacc Hmagic) as (Hr & Hmk & _).
  rewrite Hload in Hr, Hmk. cbn [fst snd] in Hr, Hmk.
  destruct (last_scanned_master_key (read_file fs file)) as [mk|] eqn:E.
  - destruct (last_scanned_master_key_at _ _ E) as (i & -> & Hi).
    exists i. auto.
  - rewrite Hmk in Hr. discriminate Hr.
Qed.

(** A container that [load] has read from a file into a new object
    gives up no private key: the master key it decrypts has fewer than 32
    bytes (the parser keeps 48 bytes of the record, 16 of which are taken
    as IV), so [extract_private_keys] returns the empty list and
    [recover_wallet] returns a failure, whatever the password. *)
Theorem loaded_container_yields_no_keys (fs : FileSystem) (file : string)
  (w : BitcoinCoreWallet) :
  load fs (new_BitcoinCoreWallet file) = (true, w) ->
  forall (fs' : FileSystem) (timestamp password : string) (world : World),
    fst (extract_private_keys fs' password w) = []
    /\ (exists r,
          fst (fst (recover_wallet fs' timestamp password w world))
          = Returned r
          /\ success r = false)
    /\ (forall master_key,
          first_master_key password (master_keys_ w) = Some master_key ->
          (length master_key < 32)%nat).
Proof.
  intros Hload fs' timestamp password world.
  destruct (loaded_master_keys fs file w Hload) as (Hl & i & Hmk & Hi & _).
  assert (Hshort : forall master_key,
             first_master_key password (master_keys_ w) = Some master_key ->
             (length master_key < 32)%nat).
  { intros master_key. rewrite Hmk. cbn [first_master_key snd].
    destruct (decrypt_master_key password _) as [key|] eqn:E;
      [|discriminate].
    intros H. injection H as <-.
    now destruct (parsed_master_key_extracts_nothing _ _ _ _ w [] E). }
  assert (Hextract : forall fs0, fst (extract_private_keys fs0 password w) = []).
  { intros fs0. unfold extract_private_keys. rewrite Hl. cbn [negb].
    destruct (first_master_key password (master_keys_ w)) as [key|] eqn:E;
      [|reflexivity].
    cbn [fst]. apply short_master_key_extracts_nothing. now apply Hshort. }
  split; [apply Hextract|]. split; [|exact Hshort].
  unfold recover_wallet.
  destruct (test_password fs' password w) as [verified w1] eqn:Et.
  destruct verified; cbn [negb];
    [|eexists; split; reflexivity].
  assert (Hw1 : w1 = w).
  { unfold test_password in Et. rewrite Hl, Hmk in Et.
    cbn [negb StdMap.is_empty] in Et. now injection Et. }
  subst w1. specialize (Hextract fs').
  destruct (extract_private_keys fs' password w) as [keys w2].
  cbn [fst] in Hextract. subst keys. eexists; split; reflexivity.
Qed.

(** [get_metadata] on a container read from a file into a new object
    reports 25000 iterations and the 8-byte salt of the record stored
    under ["default"], which is that of the last master-key marker of the
    buffer. *)
Theorem get_metadata_loaded (fs : FileSystem) (file : string)
  (w : BitcoinCoreWallet) :
  load fs (new_BitcoinCoreWallet file) = (true, w) ->
  Metadata.iterations (get_metadata w) = 25000
  /\ length (Metadata.salt (get_metadata w)) = 8%nat
  /\ exists mk,
       StdMap.find "default" (master_keys_ w) = Some mk
       /\ last_scanned_master_key (read_file fs file) = Some mk
       /\ Metadata.salt (get_metadata w) = salt mk.
Proof.
  intros Hload.
  destruct (loaded_master_keys fs file w Hload) as (_ & i & Hmk & Hi & Hlast).
  unfold get_metadata. cbn [Metadata.iterations Metadata.salt]. rewrite Hmk.
  destruct (master_key_at_shape (read_file fs file) (i + 4) ltac:(lia))
    as (H1 & _ & H3).
  split; [exact H3|]. split; [exact H1|].
  exists (master_key_at (read_file fs file) (i + 4)).
  split; [reflexivity|]. split; [exact Hlast | reflexivity].
Qed.

End RecoveryFacts.


(** ** The further properties at work on small inputs *)

Lemma base58_encode_injective_witness :
  base58_encode [x00; x01] = base58_encode [x00; x01]
  /\ [x00; x01] = [x00; x01].
Proof.
  split; [reflexivity|].
  apply (base58_encode_injective [x00; x01] [x00; x01]). reflexivity.
Defined.

Lemma base58_encode_alphabet_witness :
  In "2"%char (list_ascii_of_string (base58_encode [x01]))
  /\ In "2"%char (list_ascii_of_string base58_alphabet).
Proof.
  assert (H : In "2"%char (list_ascii_of_string (base58_encode [x01])))
    by (vm_compute; left; reflexivity).
  split; [exact H|].
  exact (proj1 (base58_encode_alphabet [x01] "2"%char H)).
Defined.

Lemma private_key_to_wif_format_witness :
  String.length
    (private_key_to_wif (ssl := toy_openssl) false (repeat x00 32) true)
  = 52%nat.
Proof.
  destruct (private_key_to_wif_format (ssl := toy_openssl) false
              (repeat x00 32) true) as [_ H].
  destruct (H eq_refl) as [H1 _]. exact H1.
Defined.

Lemma private_key_to_wif_injective_witness :
  private_key_to_wif (ssl := toy_openssl) true (repeat x01 32) false
  = private_key_to_wif (ssl := toy_openssl) true (repeat x01 32) false
  /\ (true = true /\ repeat x01 32 = repeat x01 32 /\ false = false).
Proof.
  split; [reflexivity|].
  apply (private_key_to_wif_injective (ssl := toy_openssl)
           true true (repeat x01 32) (repeat x01 32) false false);
    reflexivity.
Defined.

Lemma public_key_to_address_format_witness :
  String.length (public_key_to_address (ssl := toy_openssl) true [x02] true)
  = 34%nat.
Proof.
  destruct (public_key_to_address_format (ssl := toy_openssl) true [x02] true)
    as (_ & _ & H).
  destruct (H ltac:(discriminate) eq_refl) as [H1 _]. exact H1.
Defined.

Lemma decrypt_private_key_length_witness :
  decrypt_private_key (ssl := toy_openssl) (repeat x00 32) toy_crypted_key
  = Some (repeat x11 16 ++ repeat x22 16)
  /\ (64 - 32 <= length (repeat x11 16 ++ repeat x22 16) < 64 - 16)%nat.
Proof.
  assert (H : decrypt_private_key (ssl := toy_openssl) (repeat x00 32)
                toy_crypted_key
              = Some (repeat x11 16 ++ repeat x22 16))
    by (vm_compute; reflexivity).
  split; [exact H|].
  apply (decrypt_private_key_length (ssl := toy_openssl) (repeat x00 32)
           toy_crypted_key (repeat x11 16 ++ repeat x22 16)).
  - vm_compute. intros E; discriminate E.
  - exact H.
Defined.

Lemma parsed_crypted_key_gives_no_address_witness :
  decrypt_private_key (ssl := toy_openssl) (repeat x00 32)
    (crypted_key_at buffer_record 112)
  = Some (repeat x11 16)
  /\ exists key_info,
       key_infos (ssl := toy_openssl) toy_wallet (repeat x11 16) = [key_info]
       /\ address key_info = EmptyString
       /\ private_key_wif key_info = EmptyString.
Proof.
  assert (H : decrypt_private_key (ssl := toy_openssl) (repeat x00 32)
                (crypted_key_at buffer_record 112)
              = Some (repeat x11 16))
    by (vm_compute; reflexivity).
  split; [exact H|].
  exact (proj2 (parsed_crypted_key_gives_no_address (ssl := toy_openssl)
                  buffer_record 112 (repeat x00 32) (repeat x11 16)
                  toy_wallet H)).
Defined.

Lemma extract_private_keys_result_witness :
  extract_private_keys (ssl := toy_openssl) (one_file []) "wrong" toy_wallet
  = ([], set_error "Failed to decrypt master key with provided password"
           toy_wallet).
Proof.
  destruct (extract_private_keys_result (ssl := toy_openssl) (one_file [])
              "wrong" toy_wallet) as [_ H].
  apply H; vm_compute; reflexivity.
Defined.

Lemma load_fails_below_one_page_witness :
  fst (load (one_file magic_bytes) (new_BitcoinCoreWallet "wallet.dat")) = false.
Proof.
  apply (load_fails_below_one_page (one_file magic_bytes) "wallet.dat").
  vm_compute. lia.
Defined.

Lemma load_result_is_valid_witness :
  let out := load (one_file buffer_master_only)
               (new_BitcoinCoreWallet "wallet.dat") in
  fst out = is_valid (snd out).
Proof.
  intros out.
  refine (proj1 (load_result_is_valid (one_file buffer_master_only)
                   (new_BitcoinCoreWallet "wallet.dat") _)).
  reflexivity.
Defined.

Lemma load_again_adds_records_witness :
  let fs := one_file buffer_crypted_only in
  let w1 := snd (load fs (new_BitcoinCoreWallet "wallet.dat")) in
  fst (load fs (new_BitcoinCoreWallet "wallet.dat")) = false
  /\ StdMap.size (crypted_keys_ w1) = 1%nat
  /\ StdMap.size (crypted_keys_ (snd (load fs w1))) = 2%nat.
Proof.
  intros fs w1.
  split; [vm_compute; reflexivity|].
  split; [vm_compute; reflexivity|].
  destruct (load_again_adds_records fs (new_BitcoinCoreWallet "wallet.dat"))
    as [Hn _].
  - reflexivity.
  - reflexivity.
  - vm_compute. reflexivity.
  - intros k H. exfalso. apply H. reflexivity.
  - destruct (load_again_adds_records fs w1) as [_ Hs].
    + vm_compute. reflexivity.
    + reflexivity.
    + vm_compute. reflexivity.
    + exact Hn.
    + rewrite Hs. vm_compute. reflexivity.
Defined.

Lemma loaded_records_shape_witness :
  let w := snd (load (one_file buffer_both)
                  (new_BitcoinCoreWallet "wallet.dat")) in
  Forall (fun p => length (public_key (snd p)) = 33%nat
                   /\ length (encrypted_private_key (snd p)) = 48%nat)
    (crypted_keys_ w).
Proof.
  intros w.
  apply (loaded_records_shape (one_file buffer_both) "wallet.dat" w).
  vm_compute. reflexivity.
Defined.

Lemma loaded_crypted_keys_lookup_witness :
  let w := snd (load (one_file buffer_record)
                  (new_BitcoinCoreWallet "wallet.dat")) in
  StdMap.find (to_string 0) (crypted_keys_ w)
  = nth_error (scanned_crypted_keys buffer_record) 0.
Proof.
  intros w.
  apply (loaded_crypted_keys_lookup (one_file buffer_record) "wallet.dat" w 0).
  vm_compute. reflexivity.
Defined.

Lemma get_wallet_stats_counts_witness :
  total_keys (get_wallet_stats [toy_key_info "a"; toy_key_info "b"]) = 2.
Proof.
  apply (get_wallet_stats_counts [toy_key_info "a"; toy_key_info "b"]).
  vm_compute. intros H; discriminate H.
Defined.

Lemma check_balances_false_unchanged_witness :
  snd (fst (check_balances (json := toy_jsoncpp) (net := toy_network)
              toy_wallet [toy_key_info "a"] [http_timeout]))
  = [toy_key_info "a"].
Proof.
  apply (check_balances_false_unchanged (json := toy_jsoncpp)
           (net := toy_network) toy_wallet [toy_key_info "a"] [http_timeout]).
  - vm_compute. intros H; discriminate H.
  - vm_compute. reflexivity.
Defined.

Lemma recover_wallet_result_witness :
  exists r,
    fst (fst (recover_wallet (ssl := toy_openssl) (json := toy_jsoncpp)
                (net := toy_network) (one_file []) "2024-01-01"
                "correct" toy_wallet toy_world))
    = Returned r
    /\ success r = true
    /\ total_balance_satoshis r
       = total_balance (get_wallet_stats (private_keys r))
    /\ funded_addresses r
       = stats_funded_addresses (get_wallet_stats (private_keys r)).
Proof.
  destruct (fst (fst (recover_wallet (ssl := toy_openssl)
                        (json := toy_jsoncpp) (net := toy_network)
                        (one_file []) "2024-01-01" "correct" toy_wallet
                        toy_world))) as [r|] eqn:E;
    [|vm_compute in E; discriminate E].
  exists r. split; [reflexivity|].
  assert (Hs : success r = true).
  { vm_compute in E. injection E as <-. reflexivity. }
  split; [exact Hs|].
  destruct (recover_wallet_result (ssl := toy_openssl) (json := toy_jsoncpp)
              (net := toy_network) (one_file []) "2024-01-01" "correct"
              toy_wallet toy_world r E) as [_ H].
  destruct (H Hs) as (_ & _ & H3). apply H3.
  vm_compute in E. injection E as <-. vm_compute. intros H0; discriminate H0.
Defined.

Lemma loaded_container_yields_no_keys_witness :
  let w := snd (load (one_file buffer_record)
                  (new_BitcoinCoreWallet "wallet.dat")) in
  fst (extract_private_keys (ssl := toy_openssl) (one_file []) "correct" w)
  = [].
Proof.
  intros w.
  refine (proj1 (loaded_container_yields_no_keys (ssl := toy_openssl)
                   (json := toy_jsoncpp) (net := toy_network)
                   (one_file buffer_record) "wallet.dat" w _
                   (one_file []) "2024-01-01" "correct" toy_world)).
  vm_compute. reflexivity.
Defined.

Lemma get_metadata_loaded_witness :
  let w := snd (load (one_file buffer_record)
                  (new_BitcoinCoreWallet "wallet.dat")) in
  length (Metadata.salt (get_metadata w)) = 8%nat.
Proof.
  intros w.
  apply (get_metadata_loaded (one_file buffer_record) "wallet.dat" w).
  vm_compute. reflexivity.
Defined.
